(** * Cross-account replication of RDS snapshots: a shallow embedding

    The repository holds two batch scripts,
      - [src_acc_take_share_rds_snapshot.py]  (module [Exporter] below) and
      - [dst_acc_copy_shared_rds_snapshot_to_local.py]  (module [Importer]).
    Both are orchestration over the RDS and SNS APIs.  The scripts are
    embedded as programs of a small state-and-exception monad over a
    [World] that holds the snapshot catalog of the account, a clock and the
    trace of everything the process did (API requests, sleeps, printed
    lines).  Python values are modelled as the scripts use them: snapshot
    dictionaries as records whose optional key is an [option], strings as
    [string], integers as [Z], the regular expressions of the scripts as
    the matchers they denote. *)

From Stdlib Require Import String Ascii List ZArith Lia Bool DecimalString.
Import ListNotations.
Open Scope string_scope.
Open Scope list_scope.

(** ** Python exceptions and process results *)

Inductive Exn : Type :=
| IndexError                      (* list index / replacement index out of range *)
| KeyError                        (* missing dictionary key *)
| TypeError                       (* subscripting a non-container *)
| ValueError                      (* malformed format string *)
| DBSnapshotAlreadyExistsFault    (* rds_client.exceptions.DBSnapshotAlreadyExistsFault *)
| DBSnapshotNotFoundFault.        (* rds_client.exceptions.DBSnapshotNotFoundFault *)

(** ** Python string primitives *)

Module Py.
Local Open Scope string_scope.

(** [s.startswith(p)]. *)
Fixpoint startswith (p s : string) : bool :=
  match p with
  | EmptyString => true
  | String c p' =>
      match s with
      | String d s' => Ascii.eqb c d && startswith p' s'
      | EmptyString => false
      end
  end.

(** [needle in hay] on two [str]. *)
Fixpoint contains (needle hay : string) : bool :=
  startswith needle hay ||
  match hay with
  | EmptyString => false
  | String _ rest => contains needle rest
  end.

(** [s.split(sep)] for a one-character separator. *)
Fixpoint split (sep : ascii) (s : string) : list string :=
  match s with
  | EmptyString => [EmptyString]
  | String c rest =>
      if Ascii.eqb c sep then EmptyString :: split sep rest
      else match split sep rest with
           | h :: t => String c h :: t
           | [] => [String c EmptyString]
           end
  end.

(** [str(n)] for an [int]. *)
Definition str (n : Z) : string := NilZero.string_of_int (Z.to_int n).

(** The digits [0] to [9]: the digits of a replacement field, and the
    class [\d] of [re] on ASCII text.  A [string] here is a string of
    bytes and stands for the ASCII text it spells; on a [str] with other
    characters [\d] also takes the decimal digits of other scripts, which
    a byte cannot hold. *)
Definition is_digit (c : ascii) : bool :=
  ((48 <=? nat_of_ascii c) && (nat_of_ascii c <=? 57))%nat.

Definition digit_value (c : ascii) : nat := nat_of_ascii c - 48.

(** [template.format( *args )].  The scanner is in one of two states:
    copying literal text, or inside a replacement field whose index digits
    are being read.  A field without digits takes the next automatic index;
    a field index beyond the argument tuple raises [IndexError], as does
    CPython ("Replacement index n out of range for positional args tuple").
    Conversions, format specs and brace escapes do not occur in the scripts
    and are rejected with [ValueError]; no template of the scripts mixes the
    two numberings. *)
Inductive FieldState : Type :=
| Literal
| InField (has_digits : bool) (index : nat).

Fixpoint format_from (args : list string) (auto : nat) (st : FieldState)
         (template : string) : Exn + string :=
  match template with
  | EmptyString =>
      match st with
      | Literal => inr EmptyString
      | InField _ _ => inl ValueError
      end
  | String c rest =>
      match st with
      | Literal =>
          if Ascii.eqb c "{" then format_from args auto (InField false 0) rest
          else if Ascii.eqb c "}" then inl ValueError
          else match format_from args auto Literal rest with
               | inr out => inr (String c out)
               | inl e => inl e
               end
      | InField seen idx =>
          if Ascii.eqb c "}" then
            let i := if seen then idx else auto in
            let auto' := if seen then auto else S auto in
            match nth_error args i with
            | None => inl IndexError
            | Some a =>
                match format_from args auto' Literal rest with
                | inr out => inr (a ++ out)
                | inl e => inl e
                end
            end
          else if is_digit c then
            format_from args auto (InField true (10 * idx + digit_value c)) rest
          else inl ValueError
      end
  end.

Definition format (template : string) (args : list string) : Exn + string :=
  format_from args 0 Literal template.

End Py.

(** ** The regular expressions of the scripts

    Each pattern is a fixed literal skeleton around one greedy [(.+)] group,
    so its matcher is written out directly.  A matcher takes the text at the
    position where the match is attempted and returns the text that follows
    the match.  The identifiers and ARNs of the service are ASCII, where
    [\d] is [0-9]; what is said of a pattern on a value of the environment
    is said of ASCII values. *)

Module Re.
Local Open Scope string_scope.

(** Literal text. *)
Fixpoint lit (p s : string) : option string :=
  match p with
  | EmptyString => Some s
  | String c p' =>
      match s with
      | String d s' => if Ascii.eqb c d then lit p' s' else None
      | EmptyString => None
      end
  end.

(** [\d{n}]. *)
Fixpoint digits (n : nat) (s : string) : option string :=
  match n with
  | O => Some s
  | S n' =>
      match s with
      | String d s' => if Py.is_digit d then digits n' s' else None
      | EmptyString => None
      end
  end.

Definition is_newline (c : ascii) : bool := Ascii.eqb c "010".

(** [.*] followed by [tail], greedy: the longest run of non-newline
    characters after which [tail] matches, found by backtracking from the
    longest run. *)
Fixpoint dot_star (tail : string -> option string) (s : string) : option string :=
  match s with
  | EmptyString => tail s
  | String c rest =>
      match (if is_newline c then None else dot_star tail rest) with
      | Some after => Some after
      | None => tail s
      end
  end.

(** [.+] followed by [tail]. *)
Definition dot_plus (tail : string -> option string) (s : string) : option string :=
  match s with
  | EmptyString => None
  | String c rest => if is_newline c then None else dot_star tail rest
  end.

Definition and_then {A B} (m : option A) (f : A -> option B) : option B :=
  match m with Some a => f a | None => None end.

(** [$]: the end of the text, or just before a final newline. *)
Definition at_end (s : string) : bool :=
  match s with
  | EmptyString => true
  | String c EmptyString => is_newline c
  | _ => false
  end.

(** [shared_snapshot_regex = r"arn:aws:rds:(.+):\d{12}:snapshot:"]. *)
Definition shared_tail (s : string) : option string :=
  and_then (lit ":" s) (fun s1 =>
  and_then (digits 12 s1) (fun s2 =>
  lit ":snapshot:" s2)).

Definition shared_snapshot_regex (s : string) : option string :=
  and_then (lit "arn:aws:rds:" s) (dot_plus shared_tail).

(** [re.search(pattern, s)] as a truth value. *)
Fixpoint search (pattern : string -> option string) (s : string) : bool :=
  match pattern s with
  | Some _ => true
  | None =>
      match s with
      | EmptyString => false
      | String _ rest => search pattern rest
      end
  end.

(** [re.sub(pattern, "", s)]: every leftmost non-overlapping match is
    removed.  [skip] counts the characters of the current match that are
    still to be dropped.  (The patterns here never match the empty text.) *)
Fixpoint sub_from (pattern : string -> option string) (skip : nat) (s : string) : string :=
  match s with
  | EmptyString => EmptyString
  | String c rest =>
      match skip with
      | S k => sub_from pattern k rest
      | O =>
          match pattern s with
          | Some after =>
              sub_from pattern (String.length rest - String.length after) rest
          | None => String c (sub_from pattern 0 rest)
          end
      end
  end.

Definition sub (pattern : string -> option string) (s : string) : string :=
  sub_from pattern 0 s.

(** [re.search(r"recrypted$", s)]. *)
Definition recrypted_at_end (s : string) : bool :=
  search (fun t => and_then (lit "recrypted" t)
                     (fun r => if at_end r then Some r else None)) s.

(** [re.match(r"^\d{12}$", s)]. *)
Definition account_id (s : string) : bool :=
  match digits 12 s with
  | Some r => at_end r
  | None => false
  end.

(** [[a-f0-9-]+], greedy; the class excludes the newline, so the run is
    determined. *)
Definition is_key_char (c : ascii) : bool :=
  Py.is_digit c || Ascii.eqb c "-" ||
  ((97 <=? nat_of_ascii c) && (nat_of_ascii c <=? 102))%nat.

Fixpoint key_chars (s : string) : string :=
  match s with
  | String c rest => if is_key_char c then key_chars rest else s
  | EmptyString => s
  end.

(** [re.match(r"^arn:aws:kms:(.+):\d{12}:(?:key\/[a-f0-9-]+)$", s)]. *)
Definition kms_tail (s : string) : option string :=
  and_then (lit ":" s) (fun s1 =>
  and_then (digits 12 s1) (fun s2 =>
  and_then (lit ":key/" s2) (fun s3 =>
  match s3 with
  | String c _ =>
      if is_key_char c && at_end (key_chars s3) then Some (key_chars s3) else None
  | EmptyString => None
  end))).

Definition kms_key_arn_ok (s : string) : bool :=
  match and_then (lit "arn:aws:kms:" s) (dot_plus kms_tail) with
  | Some _ => true
  | None => false
  end.

End Re.

(** ** Snapshot records and the service model *)

(** A snapshot dictionary of a [describe_db_snapshots] response.  boto3
    leaves out the keys the service has no value for: the scripts read
    [SnapshotCreateTime] both with [.get] and by subscript, so the key is
    optional here; a present timestamp (a [datetime]) is always truthy. *)
Record Snapshot : Type := {
  DBSnapshotIdentifier : string;
  DBInstanceIdentifier : string;
  DBSnapshotArn : string;
  SnapshotType : string;
  Status : string;
  PercentProgress : Z;
  SnapshotCreateTime : option Z
}.

(** The handle returned by [boto3.client('rds')].  What the scripts cannot
    control is how a snapshot progresses while they sleep: [observe id t] is
    the status and percent-complete the service reports for snapshot [id] at
    time [t].  [arn_prefix] is the account's
    ["arn:aws:rds:<region>:<account>:snapshot:"]. *)
Record RdsClient : Type := {
  observe : string -> Z -> string * Z;
  arn_prefix : string
}.

(** What the process does to the outside: lines on standard output, sleeps
    and the requests to RDS and SNS.  [DescribeDBInstances] is the listing
    of the instances of the account, which the exporter leaves to its
    helper module. *)
Inductive Event : Type :=
| Print (line : string)
| Sleep (seconds : Z)
| DescribeDBInstances
| DescribeDBSnapshots (instance snapshot type : option string) (include_shared : bool)
| CopyDBSnapshot (source target kms_key : string)
| ModifyDBSnapshotAttribute (snapshot attribute : string) (values_to_add : list string)
| DeleteDBSnapshot (snapshot : string)
| Publish (topic_arn message subject : string).

Record World : Type := {
  catalog : list Snapshot;   (* the snapshots visible to the account *)
  clock : Z;
  trace : list Event         (* what the process has done, newest first *)
}.

(** How a computation ends: with a value, by [sys.exit], by an exception
    nobody catches, or not within the steps it was given. *)
Inductive Res (A : Type) : Type :=
| Ok (a : A)
| Exited (status : Z)
| Raised (e : Exn)
| Running.
Arguments Ok {A} a.
Arguments Exited {A} status.
Arguments Raised {A} e.
Arguments Running {A}.

Definition M (A : Type) : Type := World -> Res A * World.

Definition ret {A} (a : A) : M A := fun w => (Ok a, w).

Definition bind {A B} (m : M A) (k : A -> M B) : M B :=
  fun w =>
    match m w with
    | (Ok a, w') => k a w'
    | (Exited n, w') => (Exited n, w')
    | (Raised e, w') => (Raised e, w')
    | (Running, w') => (Running, w')
    end.

Declare Scope py_scope.
Delimit Scope py_scope with py.
Notation "x <- m ;; k" := (bind m (fun x => k))
  (at level 61, m at next level, right associativity) : py_scope.
Notation "m ;; k" := (bind m (fun _ => k))
  (at level 61, right associativity) : py_scope.
Open Scope py_scope.

Definition raise {A} (e : Exn) : M A := fun w => (Raised e, w).
Definition sys_exit {A} (status : Z) : M A := fun w => (Exited status, w).
Definition out_of_steps {A} : M A := fun w => (Running, w).

Definition emit (e : Event) : M unit :=
  fun w => (Ok tt, {| catalog := catalog w; clock := clock w; trace := e :: trace w |}).

Definition print (line : string) : M unit := emit (Print line).

(** [print(template.format( *args ))]: the line is formatted first. *)
Definition print_format (template : string) (args : list string) : M unit :=
  match Py.format template args with
  | inr line => print line
  | inl e => raise e
  end.

(** [time.sleep(seconds)]. *)
Definition sleep (seconds : Z) : M unit :=
  fun w => (Ok tt, {| catalog := catalog w; clock := clock w + seconds;
                      trace := Sleep seconds :: trace w |}).

(** The exit status the operating system sees. *)
Definition exit_status {A} (r : Res A) : option Z :=
  match r with
  | Ok _ => Some 0%Z
  | Exited n => Some n
  | Raised _ => Some 1%Z      (* traceback, status 1 *)
  | Running => None
  end.

(** *** The RDS operations the scripts call

    The managed service is an external collaborator of the scripts.  The
    operations below give each call the behaviour of its interface contract
    (spec section 6): listings filtered by instance, identifier, type and
    the shared-inclusion flag; a copy that yields a new record or the
    "already exists" fault; deletion by identifier.  A request that names
    a snapshot the account does not hold is answered with the
    [DBSnapshotNotFound] fault, the lookup by [DBSnapshotIdentifier]
    included.  During a run nobody else changes the catalog (spec
    section 5). *)

Module Rds.

Definition matches_filter (wanted : option string) (actual : string) : bool :=
  match wanted with
  | Some v => String.eqb actual v
  | None => true
  end.

(** Which snapshots a listing returns: with no [SnapshotType] the automated
    and manual ones, and the shared ones only with [IncludeShared].  The
    scripts read one response per listing; the catalog stands for what that
    response holds. *)
Definition selected (instance snapshot type : option string) (include_shared : bool)
           (s : Snapshot) : bool :=
  matches_filter instance (DBInstanceIdentifier s) &&
  matches_filter snapshot (DBSnapshotIdentifier s) &&
  match type with
  | Some t => String.eqb (SnapshotType s) t
  | None =>
      String.eqb (SnapshotType s) "automated" ||
      String.eqb (SnapshotType s) "manual" ||
      (include_shared && String.eqb (SnapshotType s) "shared")
  end.

(** A listing reports each snapshot with its current status. *)
Definition refresh (client : RdsClient) (now : Z) (s : Snapshot) : Snapshot :=
  {| DBSnapshotIdentifier := DBSnapshotIdentifier s;
     DBInstanceIdentifier := DBInstanceIdentifier s;
     DBSnapshotArn := DBSnapshotArn s;
     SnapshotType := SnapshotType s;
     Status := fst (observe client (DBSnapshotIdentifier s) now);
     PercentProgress := snd (observe client (DBSnapshotIdentifier s) now);
     SnapshotCreateTime := SnapshotCreateTime s |}.

Definition listing (client : RdsClient) (instance snapshot type : option string)
           (include_shared : bool) (w : World) : list Snapshot :=
  map (refresh client (clock w))
      (filter (selected instance snapshot type include_shared) (catalog w)).

(** [rds_client.describe_db_snapshots(...)['DBSnapshots']].  A listing by
    instance, or of everything, may be empty; with [DBSnapshotIdentifier]
    the service looks one snapshot up and raises the fault when there is
    none to report. *)
Definition describe_db_snapshots (client : RdsClient)
           (instance snapshot type : option string) (include_shared : bool)
  : M (list Snapshot) :=
  fun w =>
    let w' := {| catalog := catalog w; clock := clock w;
                 trace := DescribeDBSnapshots instance snapshot type include_shared
                          :: trace w |} in
    match snapshot, listing client instance snapshot type include_shared w with
    | Some _, [] => (Raised DBSnapshotNotFoundFault, w')
    | _, found => (Ok found, w')
    end.

Definition has_identifier (id : string) (s : Snapshot) : bool :=
  String.eqb (DBSnapshotIdentifier s) id.

(** The source of a copy is named by identifier or by ARN. *)
Definition is_source (source : string) (s : Snapshot) : bool :=
  String.eqb (DBSnapshotIdentifier s) source || String.eqb (DBSnapshotArn s) source.

Definition new_copy (client : RdsClient) (now : Z) (source : Snapshot) (target : string)
  : Snapshot :=
  {| DBSnapshotIdentifier := target;
     DBInstanceIdentifier := DBInstanceIdentifier source;
     DBSnapshotArn := (arn_prefix client ++ target)%string;
     SnapshotType := "manual";
     Status := "creating";
     PercentProgress := 0;
     SnapshotCreateTime := Some now |}.

(** [rds_client.copy_db_snapshot(...)['DBSnapshot']]: a new manual snapshot
    under the target identifier, or the "already exists" fault when the
    identifier is taken. *)
Definition copy_db_snapshot (client : RdsClient) (source target kms_key : string)
  : M Snapshot :=
  fun w =>
    let w' := {| catalog := catalog w; clock := clock w;
                 trace := CopyDBSnapshot source target kms_key :: trace w |} in
    if existsb (has_identifier target) (catalog w) then
      (Raised DBSnapshotAlreadyExistsFault, w')
    else
      match find (is_source source) (catalog w) with
      | None => (Raised DBSnapshotNotFoundFault, w')
      | Some src =>
          let copy := new_copy client (clock w) src target in
          (Ok copy, {| catalog := catalog w ++ [copy]; clock := clock w;
                       trace := trace w' |})
      end.

(** [rds_client.delete_db_snapshot(DBSnapshotIdentifier=id)]. *)
Definition delete_db_snapshot (id : string) : M unit :=
  fun w =>
    let tr := DeleteDBSnapshot id :: trace w in
    if existsb (has_identifier id) (catalog w) then
      (Ok tt, {| catalog := filter (fun s => negb (has_identifier id s)) (catalog w);
                 clock := clock w; trace := tr |})
    else
      (Raised DBSnapshotNotFoundFault,
       {| catalog := catalog w; clock := clock w; trace := tr |}).

(** [rds_client.modify_db_snapshot_attribute(...)]: the grant is recorded. *)
Definition modify_db_snapshot_attribute (id attribute : string) (values : list string)
  : M unit :=
  emit (ModifyDBSnapshotAttribute id attribute values).

End Rds.

(** [sns_client.publish(TopicArn=..., Message=..., Subject=...)]. *)
Definition sns_publish (topic message subject : string) : M unit :=
  emit (Publish topic message subject).

(** [some_list[0]]. *)
Definition first_item {A} (l : list A) : M A :=
  match l with
  | x :: _ => ret x
  | [] => raise IndexError
  end.

Definition Exn_eqb (a b : Exn) : bool :=
  match a, b with
  | IndexError, IndexError
  | KeyError, KeyError
  | TypeError, TypeError
  | ValueError, ValueError
  | DBSnapshotAlreadyExistsFault, DBSnapshotAlreadyExistsFault
  | DBSnapshotNotFoundFault, DBSnapshotNotFoundFault => true
  | _, _ => false
  end.

(** [try: body  except e: handler]. *)
Definition try_except {A} (body : M A) (e : Exn) (handler : M A) : M A :=
  fun w =>
    match body w with
    | (Raised e', w') => if Exn_eqb e' e then handler w' else (Raised e', w')
    | other => other
    end.

(** A pure step that may raise. *)
Definition lift {A} (r : Exn + A) : M A :=
  match r with
  | inr a => ret a
  | inl e => raise e
  end.

(** The configuration as the module has read it from the environment and
    the command line by the time it calls [main]: [EXPECTED_SNAPSHOT_COUNT]
    is the integer that [int()] has made of the variable at lines 19-32.
    An environment on which [int()] or [logger.setLevel] raise there ends
    the process at import with that [ValueError], status 1, before any
    request; it has no [Config]. *)
Record Config : Type := {
  AWS_DEFAULT_REGION : option string;
  TARGET_ACCOUNT : string;
  KMS_KEY_ARN : string;
  TOPIC_ARN : string;
  EXPECTED_SNAPSHOT_COUNT : Z;
  PATTERN : string;
  debug : bool
}.

(** [not s] for a [str]. *)
Definition is_empty (s : string) : bool :=
  match s with EmptyString => true | _ => false end.

(** [str(l)] for a list of identifiers (no quotes or escapes in them). *)
Fixpoint repr_items (l : list string) : string :=
  match l with
  | [] => ""
  | [x] => ("'" ++ x ++ "'")%string
  | x :: rest => ("'" ++ x ++ "', " ++ repr_items rest)%string
  end.

Definition repr_list (l : list string) : string := ("[" ++ repr_items l ++ "]")%string.

(** ** The finders and the waiter the two scripts share

    [wait_for_snapshot_to_be_ready] and
    [get_oldest_manual_recrypted_rds_snapshots] are the same text in both
    scripts (the importer prints [snapshotcheck['PercentProgress']] where
    the exporter prints the variable it has just assigned from it). *)

(** ["recrypted" in snapshot['DBSnapshotIdentifier']]: the test of the
    oldest finder of both scripts and of the exporter's counter. *)
Definition is_recrypted (snapshot : Snapshot) : bool :=
  Py.contains "recrypted" (DBSnapshotIdentifier snapshot).

Module Shared.

(** One turn of the [for] loop of the oldest finder:
    [oldest] is [None] while it is still the integer [0]. *)
Definition oldest_step (oldest : option Snapshot) (snapshot : Snapshot)
  : Exn + option Snapshot :=
  if negb (is_recrypted snapshot) then inr oldest
  else
    let oldest := match oldest with None => snapshot | Some o => o end in
    match SnapshotCreateTime snapshot, SnapshotCreateTime oldest with
    | Some t, Some t0 => inr (Some (if (t <? t0)%Z then snapshot else oldest))
    | _, _ => inl KeyError
    end.

Fixpoint oldest_scan (oldest : option Snapshot) (snapshots : list Snapshot)
  : Exn + option Snapshot :=
  match snapshots with
  | [] => inr oldest
  | snapshot :: rest =>
      match oldest_step oldest snapshot with
      | inr oldest' => oldest_scan oldest' rest
      | inl e => inl e
      end
  end.

Definition get_oldest_manual_recrypted_rds_snapshots (rds_client : RdsClient)
           (db_id : string) : M Snapshot :=
  print_format "Getting oldest recrypted (manual) snapshot from rds instance {}..."
               [db_id] ;;
  snapshots <- Rds.describe_db_snapshots rds_client (Some db_id) None (Some "manual") false ;;
  oldest <- lift (oldest_scan None snapshots) ;;
  match oldest with
  | None => raise TypeError      (* [0['DBSnapshotIdentifier']] *)
  | Some oldest =>
      print_format "  Found snapshot {}" [DBSnapshotIdentifier oldest] ;;
      ret oldest
  end.

(** The [while True] loop of the waiter, for at most [steps] polls. *)
Fixpoint wait_loop (steps : nat) (rds_client : RdsClient) (snapshot : Snapshot)
         (percent_progress : Z) : M unit :=
  match steps with
  | O => out_of_steps
  | S steps' =>
      snapshots <- Rds.describe_db_snapshots rds_client None
                     (Some (DBSnapshotIdentifier snapshot)) None false ;;
      snapshotcheck <- first_item snapshots ;;
      if String.eqb (Status snapshotcheck) "available" then
        print_format "  Snapshot {} complete and available!"
                     [DBSnapshotIdentifier snapshot]
      else
        percent_progress' <-
          (if negb (percent_progress =? PercentProgress snapshotcheck)%Z then
             print_format "Snapshot {} in progress, {}% complete"
                          [DBSnapshotIdentifier snapshot;
                           Py.str (PercentProgress snapshotcheck)] ;;
             ret (PercentProgress snapshotcheck)
           else ret percent_progress) ;;
        sleep 10 ;;
        wait_loop steps' rds_client snapshot percent_progress'
  end.

Definition wait_for_snapshot_to_be_ready (steps : nat) (rds_client : RdsClient)
           (snapshot : Snapshot) : M unit :=
  wait_loop steps rds_client snapshot (-1).

End Shared.

(** ** [src_acc_take_share_rds_snapshot.py] *)

Module DBInstance.
Record t : Type := { DBInstanceIdentifier : string }.
End DBInstance.

Module Snapshots_tool_utils.

(** Modelled from the spec: [paginate_api_call(client,
    'describe_db_instances', 'DBInstances')] of the helper module
    [snapshots_tool_utils], which is not under src/.  Section 6 of the spec
    has the instances listed by a paginated list-instances request, and
    section 4.1 has the selection as a pure function of that listing.  The
    event stands for the requests of the listing, one per page of the
    answer; what [filter_instances] selects from the answer is the
    [filtered_instances] a run is given. *)
Definition paginate_api_call : M unit := emit DescribeDBInstances.

End Snapshots_tool_utils.

Module Exporter.

(** Lines 90-99. *)
Definition share_snapshot_with_external_account (rds_client : RdsClient)
           (snapshot : Snapshot) (target_account : string) : M unit :=
  print_format "Modifying snapshot {} to be shared with account {}..."
               [DBSnapshotArn snapshot; target_account] ;;
  Rds.modify_db_snapshot_attribute (DBSnapshotIdentifier snapshot) "restore"
                                   [target_account] ;;
  print_format "  Modified snapshot {}" [DBSnapshotIdentifier snapshot].

Definition wait_for_snapshot_to_be_ready := Shared.wait_for_snapshot_to_be_ready.

(** Lines 122-125: the identifier of the manual copy. *)
Definition target_db_snapshot_id (source_id : string) : Exn + string :=
  if Py.contains ":" source_id then
    match nth_error (Py.split ":" source_id) 1 with
    | Some segment => Py.format "{}-recrypted" [segment]
    | None => inl IndexError
    end
  else Py.format "{}-recrypted" [source_id].

(** Lines 120-145. *)
Definition recrypt_snapshot_with_new_key (rds_client : RdsClient)
           (snapshot : Snapshot) (kms_key_arn : string) : M Snapshot :=
  target <- lift (target_db_snapshot_id (DBSnapshotIdentifier snapshot)) ;;
  print_format "Copying automatic snapshot {} to manual snapshot"
               [DBSnapshotIdentifier snapshot] ;;
  try_except
    (copy <- Rds.copy_db_snapshot rds_client (DBSnapshotIdentifier snapshot)
                                  target kms_key_arn ;;
     print_format "  Snapshot {} created" [DBSnapshotIdentifier snapshot] ;;
     ret copy)
    DBSnapshotAlreadyExistsFault
    (print_format "Snapshot already exists, retrieving {}" [target] ;;
     snapshots <- Rds.describe_db_snapshots rds_client None (Some target) None false ;;
     first_item snapshots).

(** One turn of the [for] loop of lines 157-163: [latest] is [None] while
    it is still the empty list. *)
Definition latest_step (latest : option Snapshot) (snapshot : Snapshot)
  : option Snapshot :=
  let latest := match latest with None => snapshot | Some l => l end in
  match SnapshotCreateTime snapshot, SnapshotCreateTime latest with
  | Some t, Some t0 => Some (if (t >? t0)%Z then snapshot else latest)
  | _, _ => Some latest          (* [continue] *)
  end.

Definition latest_scan (snapshots : list Snapshot) : option Snapshot :=
  fold_left latest_step snapshots None.

(** Lines 148-169; the empty list it may return is [None]. *)
Definition get_latest_automatic_rds_snapshots (rds_client : RdsClient)
           (db_id : string) : M (option Snapshot) :=
  print_format "Getting latest (automated) snapshot from rds instance {}..." [db_id] ;;
  snapshots <- Rds.describe_db_snapshots rds_client (Some db_id) None
                 (Some "automated") false ;;
  match latest_scan snapshots with
  | Some latest =>
      print_format "  Found snapshot {}" [DBSnapshotIdentifier latest] ;;
      ret (Some latest)
  | None =>
      print_format "  No snapshots found for instance {}" [db_id] ;;
      ret None
  end.

Definition get_oldest_manual_recrypted_rds_snapshots :=
  Shared.get_oldest_manual_recrypted_rds_snapshots.

(** Lines 194-209. *)
Definition get_manual_recrypted_rds_snapshots_count (rds_client : RdsClient)
           (db_id : string) : M Z :=
  print_format "Getting oldest recrypted (manual) snapshot from rds instance {}..."
               [db_id] ;;
  snapshots <- Rds.describe_db_snapshots rds_client (Some db_id) None (Some "manual") false ;;
  let recrypted_snapshots_count := Z.of_nat (length (filter is_recrypted snapshots)) in
  print_format "  Found {} manual recrypted snapshot(s) for DB instance {}"
               [Py.str recrypted_snapshots_count; db_id] ;;
  ret recrypted_snapshots_count.

(** Lines 72-76: the pruning loop, for at most [steps] turns. *)
Fixpoint prune (steps : nat) (client : RdsClient) (db_id : string) : M unit :=
  match steps with
  | O => out_of_steps
  | S steps' =>
      count <- get_manual_recrypted_rds_snapshots_count client db_id ;;
      if (count >? 2)%Z then
        snapshot <- get_oldest_manual_recrypted_rds_snapshots client db_id ;;
        print_format "Deleting oldest recrypted manual snapshot {}"
                     [DBSnapshotIdentifier snapshot] ;;
        Rds.delete_db_snapshot (DBSnapshotIdentifier snapshot) ;;
        sleep 1 ;;
        prune steps' client db_id
      else ret tt
  end.

(** Lines 63-76: the body of the loop over the instances. *)
Definition process_instance (steps : nat) (client : RdsClient) (cfg : Config)
           (db_instance : DBInstance.t) (ready_snapshot_count : Z) : M Z :=
  snapshot <- get_latest_automatic_rds_snapshots client
                (DBInstance.DBInstanceIdentifier db_instance) ;;
  match snapshot with
  | None => ret ready_snapshot_count          (* [continue] *)
  | Some snapshot =>
      recrypted_copy <- recrypt_snapshot_with_new_key client snapshot (KMS_KEY_ARN cfg) ;;
      wait_for_snapshot_to_be_ready steps client recrypted_copy ;;
      share_snapshot_with_external_account client recrypted_copy (TARGET_ACCOUNT cfg) ;;
      let ready_snapshot_count := (ready_snapshot_count + 1)%Z in
      prune steps client (DBInstance.DBInstanceIdentifier db_instance) ;;
      ret ready_snapshot_count
  end.

Fixpoint process_instances (steps : nat) (client : RdsClient) (cfg : Config)
         (filtered_instances : list DBInstance.t) (ready_snapshot_count : Z) : M Z :=
  match filtered_instances with
  | [] => ret ready_snapshot_count
  | db_instance :: rest =>
      count <- process_instance steps client cfg db_instance ready_snapshot_count ;;
      process_instances steps client cfg rest count
  end.

(** Lines 77-87: the run validator. *)
Definition report (cfg : Config) (ready_snapshot_count : Z) : M unit :=
  if negb (ready_snapshot_count =? EXPECTED_SNAPSHOT_COUNT cfg)%Z then
    sns_message <-
      lift (Py.format
              ("COPY_RDS_SNAPSHOT_COUNT_ERROR sharing RDS snapshots completed with error: "
               ++ "Expected snapshot count={0} not equal to actual snapshot count={1}, exiting")%string
              [Py.str (EXPECTED_SNAPSHOT_COUNT cfg); Py.str ready_snapshot_count]) ;;
    print sns_message ;;
    (if negb (debug cfg) && negb (is_empty (TOPIC_ARN cfg)) then
       sns_publish (TOPIC_ARN cfg) sns_message
                   "DR: source account take shared RDS snapshot error"
     else ret tt) ;;
    sys_exit 1
  else print "Snapshot sharing completed successfully, exiting".

(** Lines 37-87.  The instances are listed at line 53, once both checks
    have passed; [filtered_instances] is what [filter_instances] of the
    helper module [snapshots_tool_utils] (not part of the sources) returns
    for that listing. *)
Definition main (steps : nat) (client : RdsClient) (cfg : Config)
           (filtered_instances : list DBInstance.t) : M unit :=
  if negb (Re.account_id (TARGET_ACCOUNT cfg)) then
    print "TARGET_ACCOUNT environment variable must be set to target AWS account id" ;;
    sys_exit 1
  else if negb (Re.kms_key_arn_ok (KMS_KEY_ARN cfg)) then
    print "KMS_KEY_ARN environment variable must be set to KMS key AWS arn, like arn:aws:kms:<region>:<account_id>:key/<key_id>" ;;
    sys_exit 1
  else
    Snapshots_tool_utils.paginate_api_call ;;
    (match filtered_instances with
     | _ :: _ =>
         print_format "Starting snapshot sharing for DB instances: {}"
           [repr_list (map DBInstance.DBInstanceIdentifier filtered_instances)]
     | [] =>
         print_format
           "DB instances list for sharing is empty, matching pattern env var: PATTERN={}"
           [PATTERN cfg]
     end) ;;
    ready_snapshot_count <- process_instances steps client cfg filtered_instances 0 ;;
    report cfg ready_snapshot_count.

(** Lines 12-14 and 212-221: the checks around [main], for a
    configuration that lines 16-34, which lie between the two checks, have
    read without raising. *)
Definition script (steps : nat) (client : RdsClient) (cfg : Config)
           (filtered_instances : list DBInstance.t) : M unit :=
  match AWS_DEFAULT_REGION cfg with
  | None =>
      print "Please set the environment variable AWS_DEFAULT_REGION" ;;
      sys_exit 1
  | Some _ =>
      if is_empty (TOPIC_ARN cfg) && negb (debug cfg) then
        sys_exit 1        (* [sys.exit("Unable to read TOPIC_ARN ...")] *)
      else main steps client cfg filtered_instances
  end.

End Exporter.

(** ** [dst_acc_copy_shared_rds_snapshot_to_local.py] *)

(** A [dict] from [str] to [int]; Python keeps the keys in the order of
    their first insertion. *)
Module Dict.

Definition t : Type := list (string * Z).

Fixpoint get (d : t) (key : string) (default : Z) : Z :=
  match d with
  | [] => default
  | (k, v) :: rest => if String.eqb k key then v else get rest key default
  end.

Fixpoint set (d : t) (key : string) (value : Z) : t :=
  match d with
  | [] => [(key, value)]
  | (k, v) :: rest =>
      if String.eqb k key then (k, value) :: rest else (k, v) :: set rest key value
  end.

Definition keys (d : t) : list string := map fst d.

End Dict.

Module Importer.

Definition wait_for_snapshot_to_be_ready := Shared.wait_for_snapshot_to_be_ready.

(** Lines 107-108: the identifier of the local copy. *)
Definition target_db_snapshot_id (source_id : string) : Exn + string :=
  Py.format "{}-copy" [Re.sub Re.shared_snapshot_regex source_id].

(** Lines 103-129. *)
Definition copy_shared_snapshot_to_local (rds_client : RdsClient)
           (shared_snapshot : Snapshot) (kms_key_arn : string) : M Snapshot :=
  target <- lift (target_db_snapshot_id (DBSnapshotIdentifier shared_snapshot)) ;;
  print_format "Copying shared snaphot {} to local snapshot {}..."
               [DBSnapshotArn shared_snapshot; target] ;;
  try_except
    (copy <- Rds.copy_db_snapshot rds_client (DBSnapshotArn shared_snapshot)
                                  target kms_key_arn ;;
     print "  Copy created." ;;
     ret copy)
    DBSnapshotAlreadyExistsFault
    (print_format "Snapshot already exists, retrieving {}..." [target] ;;
     snapshots <- Rds.describe_db_snapshots rds_client None (Some target) None false ;;
     print "  Retrieved." ;;
     first_item snapshots).

Definition get_oldest_manual_recrypted_rds_snapshots :=
  Shared.get_oldest_manual_recrypted_rds_snapshots.

(** The retention rule of the importer's counter. *)
Definition is_owned_copy (snapshot : Snapshot) : bool :=
  Py.contains "recrypted-copy" (DBSnapshotIdentifier snapshot).

(** Lines 154-170. *)
Definition get_owned_rds_snapshots_count (rds_client : RdsClient) (db_id : string) : M Z :=
  print_format "Getting oldest (manual) snapshot from rds instance {}..." [db_id] ;;
  snapshots <- Rds.describe_db_snapshots rds_client (Some db_id) None (Some "manual") false ;;
  let owned_rds_snapshots_count := Z.of_nat (length (filter is_owned_copy snapshots)) in
  print_format "  Found {} owned snapshot(s) for DB instance {}"
               [Py.str owned_rds_snapshots_count; db_id] ;;
  ret owned_rds_snapshots_count.

(** Lines 67-71: the pruning loop, for at most [steps] turns. *)
Fixpoint prune (steps : nat) (client : RdsClient) (db_instance : string) : M unit :=
  match steps with
  | O => out_of_steps
  | S steps' =>
      count <- get_owned_rds_snapshots_count client db_instance ;;
      if (count >? 2)%Z then
        snapshot <- get_oldest_manual_recrypted_rds_snapshots client db_instance ;;
        print_format "Deleting oldest recrypted manual snapshot {}"
                     [DBSnapshotIdentifier snapshot] ;;
        Rds.delete_db_snapshot (DBSnapshotIdentifier snapshot) ;;
        sleep 1 ;;
        prune steps' client db_instance
      else ret tt
  end.

(** Lines 57-58: which listed snapshots are copied. *)
Definition is_shared_recrypted (snapshot : Snapshot) : bool :=
  Re.recrypted_at_end (DBSnapshotIdentifier snapshot) &&
  Re.search Re.shared_snapshot_regex (DBSnapshotIdentifier snapshot).

(** Lines 56-64: the copy loop; it returns [ready_snapshot_count] and
    [snapshots_owned]. *)
Fixpoint copy_all (steps : nat) (client : RdsClient) (cfg : Config)
         (snapshots_with_shared : list Snapshot)
         (ready_snapshot_count : Z) (snapshots_owned : Dict.t) : M (Z * Dict.t) :=
  match snapshots_with_shared with
  | [] => ret (ready_snapshot_count, snapshots_owned)
  | snapshot :: rest =>
      if negb (is_shared_recrypted snapshot) then
        copy_all steps client cfg rest ready_snapshot_count snapshots_owned
      else
        local_copy <- copy_shared_snapshot_to_local client snapshot (KMS_KEY_ARN cfg) ;;
        wait_for_snapshot_to_be_ready steps client local_copy ;;
        copy_all steps client cfg rest (ready_snapshot_count + 1)%Z
          (Dict.set snapshots_owned (DBInstanceIdentifier snapshot)
             (Dict.get snapshots_owned (DBInstanceIdentifier snapshot) 0 + 1)%Z)
  end.

(** Lines 66-71. *)
Fixpoint prune_all (steps : nat) (client : RdsClient) (db_instances : list string)
  : M unit :=
  match db_instances with
  | [] => ret tt
  | db_instance :: rest =>
      prune steps client db_instance ;;
      prune_all steps client rest
  end.

(** Lines 72-82: the run validator.  The message has the fields [{1}] and
    [{2}] and is given two arguments. *)
Definition report (cfg : Config) (ready_snapshot_count : Z) : M unit :=
  if negb (ready_snapshot_count =? EXPECTED_SNAPSHOT_COUNT cfg)%Z then
    sns_message <-
      lift (Py.format
              ("COPY_RDS_SNAPSHOT_COUNT_ERROR Shared RDS snapshot copying completed with error:"
               ++ String "010"
               "Expected snapshot count={1} not equal to actual snapshot count={2}, exiting")%string
              [Py.str (EXPECTED_SNAPSHOT_COUNT cfg); Py.str ready_snapshot_count]) ;;
    print sns_message ;;
    (if negb (debug cfg) && negb (is_empty (TOPIC_ARN cfg)) then
       sns_publish (TOPIC_ARN cfg) sns_message
                   "DR: dst account copy RDS shared snapshot error"
     else ret tt) ;;
    sys_exit 1
  else print "Shared RDS snapshot copying completed successfully, exiting".

(** Lines 38-82. *)
Definition main (steps : nat) (client : RdsClient) (cfg : Config) : M unit :=
  if negb (Re.kms_key_arn_ok (KMS_KEY_ARN cfg)) then
    print "KMS_KEY_ARN environment variable must be set to KMS key AWS arn, like arn:aws:kms:<region>:<account_id>:key/<key_id>" ;;
    sys_exit 1
  else
    snapshots_with_shared <- Rds.describe_db_snapshots client None None None true ;;
    match snapshots_with_shared with
    | [] =>
        print "Unable to find snapshots, shared with current account, exiting" ;;
        sys_exit 1
    | _ :: _ =>
        copied <- copy_all steps client cfg snapshots_with_shared 0 [] ;;
        prune_all steps client (Dict.keys (snd copied)) ;;
        report cfg (fst copied)
    end.

(** Lines 12-14 and 173-182: the checks around [main], for a
    configuration that lines 16-35, which lie between the two checks, have
    read without raising. *)
Definition script (steps : nat) (client : RdsClient) (cfg : Config) : M unit :=
  match AWS_DEFAULT_REGION cfg with
  | None =>
      print "Please set the environment variable AWS_DEFAULT_REGION" ;;
      sys_exit 1
  | Some _ =>
      if is_empty (TOPIC_ARN cfg) && negb (debug cfg) then
        sys_exit 1        (* [sys.exit("Unable to read TOPIC_ARN ...")] *)
      else main steps client cfg
  end.

End Importer.

(** ** Vocabulary of the statements *)

Fixpoint string_forall (p : ascii -> bool) (s : string) : bool :=
  match s with
  | EmptyString => true
  | String c rest => p c && string_forall p rest
  end.

Definition colon_free (s : string) : Prop :=
  string_forall (fun c => negb (Ascii.eqb c ":")) s = true.

Definition newline_free (s : string) : Prop :=
  string_forall (fun c => negb (Re.is_newline c)) s = true.

Definition all_digits (s : string) : Prop :=
  string_forall Py.is_digit s = true.

Fixpoint colons (s : string) : nat :=
  match s with
  | EmptyString => 0
  | String c rest => (if Ascii.eqb c ":" then 1 else 0) + colons rest
  end.

(** [m] is the first snapshot of [l], in scan order, whose timestamp is the
    greatest of the timestamps present in [l]. *)
Definition first_latest (l : list Snapshot) (m : Snapshot) : Prop :=
  exists before after tm,
    l = before ++ m :: after /\
    SnapshotCreateTime m = Some tm /\
    (forall s t, In s before -> SnapshotCreateTime s = Some t -> (t < tm)%Z) /\
    (forall s t, In s after -> SnapshotCreateTime s = Some t -> (t <= tm)%Z).

(** The latest finder returns the first snapshot of [l] with the greatest
    timestamp. *)
Definition returns_first_latest (l : list Snapshot) : Prop :=
  exists m, Exporter.latest_scan l = Some m /\ first_latest l m.

(** [o] is the first snapshot of [l], in scan order, whose timestamp is the
    least among the snapshots of [l] that satisfy [keep]. *)
Definition first_oldest (keep : Snapshot -> bool) (l : list Snapshot) (o : Snapshot)
  : Prop :=
  exists before after t0,
    l = before ++ o :: after /\
    keep o = true /\
    SnapshotCreateTime o = Some t0 /\
    (forall s t, In s before -> keep s = true ->
                 SnapshotCreateTime s = Some t -> (t0 < t)%Z) /\
    (forall s t, In s after -> keep s = true ->
                 SnapshotCreateTime s = Some t -> (t0 <= t)%Z).

Definition oldest_inv (keep : Snapshot -> bool) (pre : list Snapshot)
           (acc : option Snapshot) : Prop :=
  match acc with
  | None => forall s, In s pre -> keep s = false
  | Some o => first_oldest keep pre o
  end.

(** *** Sample data for the closed statements *)

Module Sample.

Definition snap (id instance type : string) (time : option Z) : Snapshot :=
  {| DBSnapshotIdentifier := id;
     DBInstanceIdentifier := instance;
     DBSnapshotArn := ("arn:aws:rds:eu-west-1:111122223333:snapshot:" ++ id)%string;
     SnapshotType := type;
     Status := "available";
     PercentProgress := 100;
     SnapshotCreateTime := time |}.

(** A snapshot another account has shared: its identifier is its ARN. *)
Definition shared_snap (name instance : string) (time : option Z) : Snapshot :=
  {| DBSnapshotIdentifier :=
       ("arn:aws:rds:eu-west-1:210987654321:snapshot:" ++ name)%string;
     DBInstanceIdentifier := instance;
     DBSnapshotArn := ("arn:aws:rds:eu-west-1:210987654321:snapshot:" ++ name)%string;
     SnapshotType := "shared";
     Status := "available";
     PercentProgress := 100;
     SnapshotCreateTime := time |}.

(** The value of a run that returned one ([otherwise] if it did not). *)
Definition value {A} (otherwise : A) (r : Res A * World) : A :=
  match fst r with
  | Ok a => a
  | _ => otherwise
  end.

(** A service on which every snapshot is available at once. *)
Definition steady : RdsClient :=
  {| observe := fun _ _ => ("available", 100%Z);
     arn_prefix := "arn:aws:rds:eu-west-1:111122223333:snapshot:" |}.

(** A service on which a snapshot is ready from time 25 on, and a quarter
    done for every time unit before. *)
Definition slow : RdsClient :=
  {| observe := fun _ t => if (t <? 25)%Z then ("creating", 4 * t)%Z
                           else ("available", 100%Z);
     arn_prefix := "arn:aws:rds:eu-west-1:111122223333:snapshot:" |}.

(** A service on which no snapshot ever gets ready. *)
Definition stuck : RdsClient :=
  {| observe := fun _ _ => ("creating", 0%Z);
     arn_prefix := "arn:aws:rds:eu-west-1:111122223333:snapshot:" |}.

Definition world (snapshots : list Snapshot) : World :=
  {| catalog := snapshots; clock := 0; trace := [] |}.

Definition config (expected : Z) : Config :=
  {| AWS_DEFAULT_REGION := Some "eu-west-1";
     TARGET_ACCOUNT := "210987654321";
     KMS_KEY_ARN := "arn:aws:kms:eu-west-1:210987654321:key/0a1b2c3d-4e5f";
     TOPIC_ARN := "arn:aws:sns:eu-west-1:111122223333:dr-alerts";
     EXPECTED_SNAPSHOT_COUNT := expected;
     PATTERN := "ALL_INSTANCES";
     debug := false |}.

End Sample.

(** The text of the exporter's alert for the two counts. *)
Definition exporter_alert (expected actual : Z) : string :=
  ("COPY_RDS_SNAPSHOT_COUNT_ERROR sharing RDS snapshots completed with error: "
   ++ "Expected snapshot count=" ++ Py.str expected
   ++ " not equal to actual snapshot count=" ++ Py.str actual ++ ", exiting")%string.

(** The notifications the exporter sends with its alert. *)
Definition exporter_notification (cfg : Config) (message : string) : list Event :=
  if negb (debug cfg) && negb (is_empty (TOPIC_ARN cfg))
  then [Publish (TOPIC_ARN cfg) message
                "DR: source account take shared RDS snapshot error"]
  else [].

(** An action that only prints. *)
Definition says (p : M unit) : Prop :=
  forall w, exists lines,
    p w = (Ok tt, {| catalog := catalog w; clock := clock w;
                     trace := map Print lines ++ trace w |}).

(** The [try]/[except] both copy makers are built around. *)
Definition copy_or_fetch (client : RdsClient) (source target kms_key : string)
           (created retrieving retrieved : M unit) : M Snapshot :=
  try_except
    (copy <- Rds.copy_db_snapshot client source target kms_key ;;
     created ;;
     ret copy)
    DBSnapshotAlreadyExistsFault
    (retrieving ;;
     snapshots <- Rds.describe_db_snapshots client None (Some target) None false ;;
     retrieved ;;
     first_item snapshots).

(** Its [except] branch. *)
Definition fetch (client : RdsClient) (target : string)
           (retrieving retrieved : M unit) : M Snapshot :=
    (retrieving ;;
     snapshots <- Rds.describe_db_snapshots client None (Some target) None false ;;
     retrieved ;;
     first_item snapshots).

(** A second run of a copy maker from the world [w1] its first run left:
    it returns a snapshot under the identifier of the first, [first], which
    is the derived target identifier; the copy request is answered with the
    "already exists" fault and followed by the lookup of the target; the
    catalog stays as it is. *)
Definition repeats_by_lookup (client : RdsClient) (run : M Snapshot)
           (derived : Exn + string) (source kms_key : string)
           (first : Snapshot) (w1 : World) : Prop :=
  exists second lines target,
    run w1 = (Ok second, {| catalog := catalog w1; clock := clock w1;
                            trace := lines ++ trace w1 |}) /\
    derived = inr target /\
    DBSnapshotIdentifier first = target /\
    DBSnapshotIdentifier second = target /\
    fst (Rds.copy_db_snapshot client source target kms_key w1)
      = Raised DBSnapshotAlreadyExistsFault /\
    In (DescribeDBSnapshots None (Some target) None false) lines /\
    (forall e, In e lines ->
       e = CopyDBSnapshot source target kms_key \/
       e = DescribeDBSnapshots None (Some target) None false \/
       exists line, e = Print line).

(** What the service reports for [snapshot] at time [t]. *)
Definition observed (client : RdsClient) (snapshot : Snapshot) (t : Z) : string * Z :=
  observe client (DBSnapshotIdentifier snapshot) t.

(** The snapshot is in the catalog, so that a poll finds it. *)
Definition listed (snapshot : Snapshot) (w : World) : Prop :=
  existsb (Rds.selected None (Some (DBSnapshotIdentifier snapshot)) None false)
          (catalog w) = true.

(** The progress line of the waiter. *)
Definition progress_line (snapshot : Snapshot) (percent : Z) : string :=
  ("Snapshot " ++ DBSnapshotIdentifier snapshot ++ " in progress, "
   ++ Py.str percent ++ "% complete")%string.

(** The status poll of the waiter. *)
Definition poll_event (snapshot : Snapshot) : Event :=
  DescribeDBSnapshots None (Some (DBSnapshotIdentifier snapshot)) None false.

(** What a poll that finds the snapshot busy prints: the progress line
    when the percentage is not the one seen before, nothing otherwise. *)
Definition progress_events (snapshot : Snapshot) (previous percent : Z) : list Event :=
  if (previous =? percent)%Z then [] else [Print (progress_line snapshot percent)].

(** The events, newest first, of [polls] consecutive polls that find the
    snapshot busy, the first at time [start] with [previous] the percentage
    seen before it: a poll, what it prints, a sleep of 10. *)
Fixpoint waiting_events (client : RdsClient) (snapshot : Snapshot)
         (start previous : Z) (polls : nat) : list Event :=
  match polls with
  | O => []
  | S polls' =>
      waiting_events client snapshot (start + 10)
                     (snd (observed client snapshot start)) polls'
      ++ Sleep 10
         :: progress_events snapshot previous (snd (observed client snapshot start))
      ++ [poll_event snapshot]
  end.

(** The line that ends the wait. *)
Definition complete_line (snapshot : Snapshot) : string :=
  ("  Snapshot " ++ DBSnapshotIdentifier snapshot ++ " complete and available!")%string.

(** The event neither lists the snapshots of the instance of [s0] nor
    deletes [s0]. *)
Definition spares (s0 : Snapshot) (e : Event) : Prop :=
  match e with
  | DescribeDBSnapshots (Some instance) _ _ _ => instance <> DBInstanceIdentifier s0
  | DeleteDBSnapshot id => id <> DBSnapshotIdentifier s0
  | _ => True
  end.

(** [s0] is in the catalog, whose identifiers are unique (as the service
    keeps them). *)
Definition kept (s0 : Snapshot) (w : World) : Prop :=
  NoDup (map DBSnapshotIdentifier (catalog w)) /\ In s0 (catalog w).

(** Whatever way [m] ends, it keeps [s0], every event it adds spares [s0],
    and a value it returns satisfies [Q]. *)
Definition yields {A} (s0 : Snapshot) (Q : A -> Prop) (m : M A) : Prop :=
  forall w r w',
    kept s0 w -> m w = (r, w') ->
    kept s0 w' /\
    (exists events, trace w' = events ++ trace w /\ Forall (spares s0) events) /\
    (forall a, r = Ok a -> Q a).

Definition anything {A} (a : A) : Prop := True.

(** The retention set of the exporter for an instance: its manual
    snapshots whose identifier contains ["recrypted"]. *)
Definition retained (db : string) (w : World) : list Snapshot :=
  filter (fun s => Rds.selected (Some db) None (Some "manual") false s && is_recrypted s)
         (catalog w).

(** The identifiers of the deletion requests among the events. *)
Fixpoint deletions (events : list Event) : list string :=
  match events with
  | [] => []
  | DeleteDBSnapshot id :: rest => id :: deletions rest
  | _ :: rest => deletions rest
  end.

(** [a] was created no later than [b]. *)
Definition not_later (a b : Snapshot) : Prop :=
  forall ta tb, SnapshotCreateTime a = Some ta -> SnapshotCreateTime b = Some tb ->
                (ta <= tb)%Z.

(** The catalog once the snapshot with the identifier of [c] is deleted. *)
Definition without (c : Snapshot) (l : list Snapshot) : list Snapshot :=
  filter (fun s => negb (Rds.has_identifier (DBSnapshotIdentifier c) s)) l.

(** *** Vocabulary of the further properties *)

(** Every character is of the class [[a-f0-9-]]. *)
Definition key_chars_only (s : string) : Prop :=
  string_forall Re.is_key_char s = true.

(** What [$] lets follow: nothing, or one final newline. *)
Definition optional_newline (s : string) : Prop :=
  s = "" \/ s = String "010" "".

(** The ARN under which the account [account] of [region] shares the
    snapshot [name]. *)
Definition shared_arn (region account name : string) : string :=
  ("arn:aws:rds:" ++ region ++ ":" ++ account ++ ":snapshot:" ++ name)%string.

(** The text holds the prefix of a shared snapshot,
    ["arn:aws:rds:<region>:<12 digits>:snapshot:"] with a non-empty region
    on one line. *)
Definition holds_shared_prefix (id : string) : Prop :=
  exists front region account rest,
    id = (front ++ shared_arn region account rest)%string /\
    region <> "" /\ newline_free region /\
    all_digits account /\ String.length account = 12.

(** The text is ASCII. *)
Definition ascii_text (s : string) : Prop :=
  string_forall (fun c => (nat_of_ascii c <? 128)%nat) s = true.

(** Twelve digits, and what [$] lets follow. *)
Definition account_shape (s : string) : Prop :=
  exists d nl, s = (d ++ nl)%string /\ all_digits d /\ String.length d = 12 /\
               optional_newline nl.

(** ["arn:aws:kms:<region>:<12 digits>:key/<key>"], and what [$] lets
    follow: the region is not empty and on one line, the key not empty and
    of the class [[a-f0-9-]]. *)
Definition kms_key_arn_shape (s : string) : Prop :=
  exists region account key nl,
    s = ("arn:aws:kms:" ++ region ++ ":" ++ account ++ ":key/" ++ key ++ nl)%string /\
    region <> "" /\ newline_free region /\
    all_digits account /\ String.length account = 12 /\
    key <> "" /\ key_chars_only key /\ optional_newline nl.

(** The matcher of [r"recrypted$"]. *)
Definition recrypted_end (t : string) : option string :=
  Re.and_then (Re.lit "recrypted" t) (fun r => if Re.at_end r then Some r else None).

(** The configurations the exporter refuses before it asks the service for
    anything. *)
Definition exporter_refuses (cfg : Config) : Prop :=
  AWS_DEFAULT_REGION cfg = None \/
  (TOPIC_ARN cfg = "" /\ debug cfg = false) \/
  Re.account_id (TARGET_ACCOUNT cfg) = false \/
  Re.kms_key_arn_ok (KMS_KEY_ARN cfg) = false.

(** The same for the importer, which reads no target account. *)
Definition importer_refuses (cfg : Config) : Prop :=
  AWS_DEFAULT_REGION cfg = None \/
  (TOPIC_ARN cfg = "" /\ debug cfg = false) \/
  Re.kms_key_arn_ok (KMS_KEY_ARN cfg) = false.

(** A run that ended with exit status 1 having done nothing but print
    [lines] (newest first). *)
Definition refusal (lines : list string) (w : World) : Res unit * World :=
  (Exited 1, {| catalog := catalog w; clock := clock w;
                trace := map Print lines ++ trace w |}).

(** The time slept in the events. *)
Fixpoint slept (events : list Event) : Z :=
  match events with
  | [] => 0
  | Sleep seconds :: rest => seconds + slept rest
  | _ :: rest => slept rest
  end.

(** What the waiter does to the outside. *)
Definition waiter_event (snapshot : Snapshot) (e : Event) : Prop :=
  e = poll_event snapshot \/ e = Sleep 10 \/ exists line, e = Print line.

(** The listed snapshots the importer copies for the instance [k]. *)
Definition copied_of (k : string) (l : list Snapshot) : list Snapshot :=
  filter (fun s => Importer.is_shared_recrypted s && String.eqb (DBInstanceIdentifier s) k) l.

(** The candidate of the oldest scan, once there is one, has its
    timestamp. *)
Definition timed (acc : option Snapshot) : Prop :=
  match acc with
  | Some o => SnapshotCreateTime o <> None
  | None => True
  end.

(** [SnapshotType] is not ["manual"]. *)
Definition not_manual (s : Snapshot) : bool :=
  negb (String.eqb (SnapshotType s) "manual").

(** What a run that started on the catalog [before] owes the account: the
    snapshots whose identifier does not contain ["recrypted"] are still
    there; and, identifiers being unique, they still are, and the snapshots
    that are not manual ones are what they were. *)
Definition safe (before after : list Snapshot) : Prop :=
  (forall s, In s before -> is_recrypted s = false -> In s after) /\
  (NoDup (map DBSnapshotIdentifier before) ->
   NoDup (map DBSnapshotIdentifier after) /\
   filter not_manual after = filter not_manual before).

(** The topic a run notifies: none in a debug run. *)
Definition notified (cfg : Config) : option string :=
  if negb (debug cfg) && negb (is_empty (TOPIC_ARN cfg))
  then Some (TOPIC_ARN cfg) else None.

(** What a run may do to the outside, given the key [kms] of its copies,
    the account [grant] it may let restore its snapshots and the topic
    [notify] it may publish to.  Listing the instances is not among it:
    only the exporter does that. *)
Definition allowed (kms : string) (grant notify : option string) (e : Event) : Prop :=
  match e with
  | Print _ => True
  | Sleep seconds => seconds = 10%Z \/ seconds = 1%Z
  | DescribeDBInstances => False
  | DescribeDBSnapshots _ _ _ _ => True
  | CopyDBSnapshot _ _ key => key = kms
  | ModifyDBSnapshotAttribute _ attribute values =>
      attribute = "restore" /\ exists account, grant = Some account /\ values = [account]
  | DeleteDBSnapshot id => Py.contains "recrypted" id = true
  | Publish topic _ _ => notify = Some topic
  end.

(** The exporter may list the instances as well (line 53). *)
Definition exporter_allowed (kms account : string) (notify : option string) (e : Event)
  : Prop :=
  e = DescribeDBInstances \/ allowed kms (Some account) notify e.

(** From a catalog that satisfies [I] and [P], however [m] ends: the
    catalog satisfies [I], every event [m] has added satisfies [E], and a
    value it returns satisfies [Q] with the catalog. *)
Definition ensures {A} (I : list Snapshot -> Prop) (E : Event -> Prop)
           (P : list Snapshot -> Prop) (m : M A) (Q : A -> list Snapshot -> Prop)
  : Prop :=
  forall w r w',
    I (catalog w) -> P (catalog w) -> m w = (r, w') ->
    I (catalog w') /\
    (exists events, trace w' = events ++ trace w /\ Forall E events) /\
    (forall a, r = Ok a -> Q a (catalog w')).

(** No condition on the catalog, none on the value returned. *)
Definition whatever (cat : list Snapshot) : Prop := True.

Definition any_value {A} (a : A) (cat : list Snapshot) : Prop := True.

(** [id] is the identifier of a manual snapshot of the catalog, and
    contains ["recrypted"]. *)
Definition prunable (id : string) (cat : list Snapshot) : Prop :=
  exists c, In c cat /\ SnapshotType c = "manual" /\ is_recrypted c = true /\
            id = DBSnapshotIdentifier c.

(** The instance has an automated snapshot. *)
Definition has_automated (cat : list Snapshot) (db : DBInstance.t) : bool :=
  existsb (Rds.selected (Some (DBInstance.DBInstanceIdentifier db)) None
                        (Some "automated") false) cat.

(** What the importer's counter counts for an instance: its manual
    snapshots whose identifier contains ["recrypted-copy"]. *)
Definition owned (db : string) (w : World) : list Snapshot :=
  filter (fun s => Rds.selected (Some db) None (Some "manual") false s
                   && Importer.is_owned_copy s)
         (catalog w).

(** The text ends in [suffix]. *)
Definition ends_with (suffix s : string) : Prop :=
  exists front, s = (front ++ suffix)%string.

(** The data a run relies on: the manual snapshots with ["recrypted"] in
    the identifier carry their creation timestamp, and an identifier that
    ends in [suffix] (the mark of the script's own copies) belongs to an
    automated or a manual snapshot, as a lookup by identifier expects. *)
Definition sound (suffix : string) (cat : list Snapshot) : Prop :=
  (forall s, In s cat -> SnapshotType s = "manual" -> is_recrypted s = true ->
             SnapshotCreateTime s <> None) /\
  (forall s, In s cat -> ends_with suffix (DBSnapshotIdentifier s) ->
             SnapshotType s = "automated" \/ SnapshotType s = "manual").

(** From a catalog that satisfies [I] and [P], however [m] ends: the
    catalog satisfies [I]; a value it returns satisfies [Q]; an exception
    it ends on satisfies [X]. *)
Definition completes {A} (I P : list Snapshot -> Prop) (m : M A)
           (Q : A -> list Snapshot -> Prop) (X : Exn -> list Snapshot -> Prop) : Prop :=
  forall w r w',
    I (catalog w) -> P (catalog w) -> m w = (r, w') ->
    I (catalog w') /\
    (forall a, r = Ok a -> Q a (catalog w')) /\
    (forall e, r = Raised e -> X e (catalog w')).

(** The exceptional outcome nobody may have. *)
Definition no_exception (e : Exn) (cat : list Snapshot) : Prop := False.

(** A lookup of the identifier finds a snapshot. *)
Definition findable (id : string) (cat : list Snapshot) : Prop :=
  exists c, In c cat /\ DBSnapshotIdentifier c = id /\
            (SnapshotType c = "automated" \/ SnapshotType c = "manual").

(** The catalog holds the source of a copy. *)
Definition source_of (source : string) (cat : list Snapshot) : Prop :=
  exists c, In c cat /\ Rds.is_source source c = true.

(** The instance has a manual snapshot with ["recrypted"] in the
    identifier. *)
Definition has_retained (db : string) (cat : list Snapshot) : Prop :=
  exists c, In c cat /\ Rds.selected (Some db) None (Some "manual") false c = true /\
            is_recrypted c = true.

(** The catalog holds the sources of the copies of the listed snapshots. *)
Definition sources_of (l : list Snapshot) (cat : list Snapshot) : Prop :=
  forall x, In x l -> source_of (DBSnapshotArn x) cat.

(** * Properties *)

(** ** Strings *)

Section Strings.

Lemma append_empty_r (s : string) : (s ++ "")%string = s.
Proof. induction s as [|c s IH]; simpl; [reflexivity | now rewrite IH]. Qed.

Lemma append_assoc (a b c : string) : ((a ++ b) ++ c = a ++ (b ++ c))%string.
Proof. induction a as [|x a IH]; simpl; [reflexivity | now rewrite IH]. Qed.

Lemma length_append (a b : string) :
  String.length (a ++ b) = String.length a + String.length b.
Proof. induction a as [|x a IH]; simpl; [reflexivity | now rewrite IH]. Qed.

Lemma startswith_append (x y : string) : Py.startswith x (x ++ y) = true.
Proof.
  induction x as [|c x IH]; simpl; [reflexivity|].
  now rewrite Ascii.eqb_refl.
Qed.

Lemma contains_startswith (x y : string) :
  Py.startswith x y = true -> Py.contains x y = true.
Proof. intros H. destruct y; cbn [Py.contains]; rewrite H; reflexivity. Qed.

Lemma contains_append (x a b : string) : Py.contains x (a ++ x ++ b) = true.
Proof.
  induction a as [|c a IH].
  - apply contains_startswith. cbn [append]. apply startswith_append.
  - cbn [append Py.contains]. rewrite IH. apply orb_true_r.
Qed.

Lemma contains_colon_cons (c : ascii) (s : string) :
  Py.contains ":" (String c s) = Ascii.eqb c ":" || Py.contains ":" s.
Proof.
  cbn [Py.contains Py.startswith]. rewrite andb_true_r.
  now rewrite (eqb_sym ":" c).
Qed.

Lemma colon_free_contains (s : string) : colon_free s <-> Py.contains ":" s = false.
Proof.
  unfold colon_free. induction s as [|c s IH].
  - simpl. tauto.
  - rewrite contains_colon_cons. simpl.
    destruct (Ascii.eqb c ":"); simpl; [split; discriminate | exact IH].
Qed.

Lemma colon_free_colons (s : string) : colon_free s <-> colons s = 0.
Proof.
  unfold colon_free. induction s as [|c s IH]; simpl.
  - tauto.
  - destruct (Ascii.eqb c ":"); simpl; [split; discriminate | exact IH].
Qed.

Lemma colons_append (a b : string) : colons (a ++ b) = colons a + colons b.
Proof. induction a as [|c a IH]; simpl; [reflexivity | rewrite IH; lia]. Qed.

Lemma digit_not_colon (c : ascii) : Py.is_digit c = true -> Ascii.eqb c ":" = false.
Proof.
  intros H. apply Ascii.eqb_neq. intros ->. discriminate H.
Qed.

Lemma all_digits_colons (d : string) : all_digits d -> colons d = 0.
Proof.
  unfold all_digits. induction d as [|c d IH]; simpl; [reflexivity|].
  intros H. apply andb_prop in H as [Hc Hd].
  rewrite (digit_not_colon _ Hc). auto.
Qed.

(** *** Splitting at colons *)

Lemma split_colon_free (s : string) : colon_free s -> Py.split ":" s = [s].
Proof.
  unfold colon_free. induction s as [|c s IH]; simpl; [reflexivity|].
  intros H. apply andb_prop in H as [Hc Hs].
  destruct (Ascii.eqb c ":"); [discriminate|]. now rewrite (IH Hs).
Qed.

Lemma split_head (a rest : string) :
  colon_free a ->
  Py.split ":" (a ++ String ":" rest) = a :: Py.split ":" rest.
Proof.
  unfold colon_free. induction a as [|c a IH]; simpl; [reflexivity|].
  intros H. apply andb_prop in H as [Hc Ha].
  destruct (Ascii.eqb c ":"); [discriminate|]. now rewrite (IH Ha).
Qed.

Lemma split_first (b rest : string) :
  colon_free b -> rest = "" \/ (exists r, rest = String ":" r) ->
  exists more, Py.split ":" (b ++ rest) = b :: more.
Proof.
  intros Hb [->|[r ->]].
  - rewrite append_empty_r, (split_colon_free _ Hb). now exists [].
  - rewrite (split_head _ _ Hb). eauto.
Qed.

End Strings.

(** ** The shared-snapshot pattern *)

Section SharedSnapshotRegex.

Lemma lit_append (p x : string) : Re.lit p (p ++ x) = Some x.
Proof.
  induction p as [|c p IH]; simpl; [reflexivity|].
  now rewrite Ascii.eqb_refl.
Qed.

Lemma lit_inv (p s r : string) : Re.lit p s = Some r -> s = (p ++ r)%string.
Proof.
  revert s. induction p as [|c p IH]; simpl; intros s H.
  - congruence.
  - destruct s as [|d s]; [discriminate|].
    destruct (Ascii.eqb_spec c d) as [->|]; [|discriminate].
    now rewrite (IH _ H).
Qed.

Lemma digits_append (d x : string) :
  all_digits d -> Re.digits (String.length d) (d ++ x) = Some x.
Proof.
  unfold all_digits. induction d as [|c d IH]; simpl; [reflexivity|].
  intros H. apply andb_prop in H as [Hc Hd]. rewrite Hc. auto.
Qed.

Lemma digits_inv (n : nat) (s r : string) :
  Re.digits n s = Some r -> exists d, s = (d ++ r)%string /\ all_digits d.
Proof.
  revert s. induction n as [|n IH]; simpl; intros s H.
  - exists "". split; [simpl; congruence | reflexivity].
  - destruct s as [|c s]; [discriminate|].
    destruct (Py.is_digit c) eqn:Hc; [|discriminate].
    destruct (IH _ H) as (d & -> & Hd).
    exists (String c d). split; [reflexivity|].
    unfold all_digits. simpl. now rewrite Hc.
Qed.

Lemma shared_tail_colons (s r : string) :
  Re.shared_tail s = Some r -> colons s = 3 + colons r.
Proof.
  unfold Re.shared_tail, Re.and_then. intros H.
  destruct (Re.lit ":" s) as [s1|] eqn:E1; [|discriminate].
  destruct (Re.digits 12 s1) as [s2|] eqn:E2; [|discriminate].
  apply lit_inv in E1, H. apply digits_inv in E2 as (d & E2 & Hd).
  subst. rewrite !colons_append, (all_digits_colons _ Hd). simpl. lia.
Qed.

Lemma dot_star_inv (tail : string -> option string) (s r : string) :
  Re.dot_star tail s = Some r ->
  exists a b, s = (a ++ b)%string /\ tail b = Some r.
Proof.
  induction s as [|c s IH]; simpl; intros H.
  - exists "", "". auto.
  - destruct (if Re.is_newline c then None else Re.dot_star tail s) as [x|] eqn:E.
    + destruct (Re.is_newline c); [discriminate|].
      injection H as ->. destruct (IH E) as (a & b & -> & Hb).
      exists (String c a), b. auto.
    + exists "", (String c s). auto.
Qed.

Lemma dot_star_few_colons (s : string) :
  colons s < 3 -> Re.dot_star Re.shared_tail s = None.
Proof.
  intros Hc. destruct (Re.dot_star Re.shared_tail s) as [r|] eqn:E; [|reflexivity].
  apply dot_star_inv in E as (a & b & -> & Hb).
  apply shared_tail_colons in Hb. rewrite colons_append in Hc. lia.
Qed.

(** The text [":<account>:snapshot:<name>"] that ends a shared-snapshot ARN. *)
Lemma shared_tail_arn (account name : string) :
  all_digits account -> String.length account = 12 ->
  Re.shared_tail (String ":" (account ++ ":snapshot:" ++ name)) = Some name.
Proof.
  intros Hd Hl. unfold Re.shared_tail. cbn [Re.lit Re.and_then].
  rewrite Ascii.eqb_refl. cbn [Re.and_then].
  rewrite <- Hl, (digits_append _ _ Hd). cbn [Re.and_then].
  apply (lit_append ":snapshot:" name).
Qed.

(** The greedy group stops at the last place where the tail matches: with a
    colon-free name that is the place in front of the account. *)
Lemma dot_star_arn (region account name : string) :
  newline_free region -> all_digits account -> String.length account = 12 ->
  colon_free name ->
  Re.dot_star Re.shared_tail (region ++ String ":" (account ++ ":snapshot:" ++ name))
  = Some name.
Proof.
  intros Hr Hd Hl Hn. unfold newline_free in Hr.
  assert (HT : Re.dot_star Re.shared_tail
                 (String ":" (account ++ ":snapshot:" ++ name)) = Some name).
  { cbn [Re.dot_star]. change (Re.is_newline ":") with false.
    rewrite dot_star_few_colons.
    - now apply shared_tail_arn.
    - rewrite colons_append, (all_digits_colons _ Hd).
      apply colon_free_colons in Hn. simpl. rewrite Hn. lia. }
  remember (String ":" (account ++ ":snapshot:" ++ name)) as T eqn:ET.
  clear ET. induction region as [|c region IH].
  - exact HT.
  - simpl in Hr. apply andb_prop in Hr as [Hc Hr].
    cbn [append Re.dot_star]. apply negb_true_iff in Hc. rewrite Hc.
    now rewrite (IH Hr).
Qed.

Lemma shared_snapshot_regex_arn (region account name : string) :
  region <> "" -> newline_free region ->
  all_digits account -> String.length account = 12 -> colon_free name ->
  Re.shared_snapshot_regex
    ("arn:aws:rds:" ++ region ++ String ":" (account ++ ":snapshot:" ++ name))
  = Some name.
Proof.
  intros Hne Hr Hd Hl Hn. unfold Re.shared_snapshot_regex.
  rewrite lit_append. cbn [Re.and_then].
  destruct region as [|c region]; [congruence|].
  unfold newline_free in Hr. simpl in Hr. apply andb_prop in Hr as [Hc Hr].
  cbn [append Re.dot_plus]. apply negb_true_iff in Hc. rewrite Hc.
  now apply dot_star_arn.
Qed.

Lemma shared_snapshot_regex_colon_free (s : string) :
  colon_free s -> Re.shared_snapshot_regex s = None.
Proof.
  intros H. unfold Re.shared_snapshot_regex.
  destruct (Re.lit "arn:aws:rds:" s) as [x|] eqn:E; [|reflexivity].
  apply lit_inv in E. subst s. apply colon_free_colons in H.
  rewrite colons_append in H. simpl in H. lia.
Qed.

Lemma sub_from_skip (pattern : string -> option string) (a b : string) :
  Re.sub_from pattern (String.length a) (a ++ b) = Re.sub_from pattern 0 b.
Proof. induction a as [|c a IH]; simpl; [reflexivity | exact IH]. Qed.

Lemma sub_no_match (pattern : string -> option string) (s : string) :
  Re.search pattern s = false -> Re.sub pattern s = s.
Proof.
  unfold Re.sub. induction s as [|c s IH]; [reflexivity|].
  cbn [Re.search Re.sub_from]. destruct (pattern (String c s)); [discriminate|].
  intros H. now rewrite (IH H).
Qed.

Lemma search_colon_free (s : string) :
  colon_free s -> Re.search Re.shared_snapshot_regex s = false.
Proof.
  induction s as [|c s IH]; intros H.
  - reflexivity.
  - cbn [Re.search]. rewrite (shared_snapshot_regex_colon_free _ H).
    apply IH. unfold colon_free in *. simpl in H. now apply andb_prop in H as [_ H].
Qed.

Lemma sub_arn (region account name : string) :
  region <> "" -> newline_free region ->
  all_digits account -> String.length account = 12 -> colon_free name ->
  Re.sub Re.shared_snapshot_regex
    ("arn:aws:rds:" ++ region ++ ":" ++ account ++ ":snapshot:" ++ name) = name.
Proof.
  intros Hne Hr Hd Hl Hn.
  pose proof (shared_snapshot_regex_arn region account name Hne Hr Hd Hl Hn) as Hm.
  set (prefix := ("rn:aws:rds:" ++ region ++ String ":" (account ++ ":snapshot:"))%string).
  assert (Hrest : ("arn:aws:rds:" ++ region ++ String ":" (account ++ ":snapshot:" ++ name)
                   = String "a" (prefix ++ name))%string).
  { unfold prefix.
    rewrite (append_assoc "rn:aws:rds:"), (append_assoc region).
    change (String ":" (account ++ ":snapshot:") ++ name)%string
      with (String ":" ((account ++ ":snapshot:") ++ name)).
    rewrite (append_assoc account). reflexivity. }
  change (":" ++ account ++ ":snapshot:" ++ name)%string
    with (String ":" (account ++ ":snapshot:" ++ name)).
  rewrite Hrest in *. unfold Re.sub. cbn [Re.sub_from]. rewrite Hm.
  replace (String.length (prefix ++ name) - String.length name)
    with (String.length prefix) by (rewrite length_append; lia).
  rewrite sub_from_skip. apply sub_no_match, search_colon_free, Hn.
Qed.

End SharedSnapshotRegex.

(** ** Target identifiers *)

Lemma exporter_target_plain (id : string) :
  colon_free id ->
  Exporter.target_db_snapshot_id id = inr (id ++ "-recrypted")%string.
Proof.
  intros H. unfold Exporter.target_db_snapshot_id.
  apply colon_free_contains in H. rewrite H. reflexivity.
Qed.

Lemma exporter_target_segment (a b rest : string) :
  colon_free a -> colon_free b ->
  rest = "" \/ (exists r, rest = String ":" r) ->
  Exporter.target_db_snapshot_id (a ++ ":" ++ b ++ rest)
  = inr (b ++ "-recrypted")%string.
Proof.
  intros Ha Hb Hrest. unfold Exporter.target_db_snapshot_id.
  rewrite (contains_append ":" a (b ++ rest)).
  change (":" ++ b ++ rest)%string with (String ":" (b ++ rest)).
  rewrite (split_head _ _ Ha).
  destruct (split_first b rest Hb Hrest) as (more & ->).
  reflexivity.
Qed.

Lemma importer_target_arn (region account name : string) :
  region <> "" -> newline_free region ->
  all_digits account -> String.length account = 12 -> colon_free name ->
  Importer.target_db_snapshot_id
    ("arn:aws:rds:" ++ region ++ ":" ++ account ++ ":snapshot:" ++ name)
  = inr (name ++ "-copy")%string.
Proof.
  intros. unfold Importer.target_db_snapshot_id.
  rewrite sub_arn by assumption. reflexivity.
Qed.

Lemma importer_target_no_prefix (id : string) :
  Re.search Re.shared_snapshot_regex id = false ->
  Importer.target_db_snapshot_id id = inr (id ++ "-copy")%string.
Proof.
  intros H. unfold Importer.target_db_snapshot_id.
  rewrite (sub_no_match _ _ H). reflexivity.
Qed.

(** ** The two scans *)

Section Scans.

Lemma latest_step_first (s : Snapshot) : Exporter.latest_step None s = Some s.
Proof.
  unfold Exporter.latest_step.
  destruct (SnapshotCreateTime s) as [t|]; [|reflexivity].
  now destruct (t >? t)%Z.
Qed.

Lemma latest_step_keeps (pre : list Snapshot) (m x : Snapshot) :
  first_latest pre m ->
  exists m', Exporter.latest_step (Some m) x = Some m' /\ first_latest (pre ++ [x]) m'.
Proof.
  intros (before & after & tm & -> & Hm & Hb & Ha).
  unfold Exporter.latest_step. rewrite Hm.
  destruct (SnapshotCreateTime x) as [t|] eqn:Hx.
  - destruct (Z.gtb_spec t tm) as [Hgt|Hle].
    + exists x. split; [reflexivity|].
      exists (before ++ m :: after), [], t.
      split; [reflexivity|]. split; [assumption|]. split; [|intros ? ? []].
      intros s ts Hs Hts. apply in_app_or in Hs as [Hs|[<-|Hs]].
      * specialize (Hb _ _ Hs Hts). lia.
      * assert (ts = tm) by congruence. lia.
      * specialize (Ha _ _ Hs Hts). lia.
    + exists m. split; [reflexivity|].
      exists before, (after ++ [x]), tm.
      split; [now rewrite <- app_assoc|]. split; [assumption|]. split; [assumption|].
      intros s ts Hs Hts. apply in_app_or in Hs as [Hs|[<-|[]]].
      * eauto.
      * assert (ts = t) by congruence. lia.
  - exists m. split; [reflexivity|].
    exists before, (after ++ [x]), tm.
    split; [now rewrite <- app_assoc|]. split; [assumption|]. split; [assumption|].
    intros s ts Hs Hts. apply in_app_or in Hs as [Hs|[<-|[]]]; [eauto | congruence].
Qed.

Lemma latest_fold (l pre : list Snapshot) (m : Snapshot) :
  first_latest pre m ->
  exists m', fold_left Exporter.latest_step l (Some m) = Some m' /\
             first_latest (pre ++ l) m'.
Proof.
  revert pre m. induction l as [|x l IH]; intros pre m H.
  - exists m. rewrite app_nil_r. auto.
  - destruct (latest_step_keeps pre m x H) as (m1 & E1 & H1).
    destruct (IH _ _ H1) as (m' & E & H').
    exists m'. simpl. rewrite E1, E. rewrite <- app_assoc in H'. auto.
Qed.

(** Where the first listed snapshot carries a timestamp, the scan returns
    the first snapshot with the greatest timestamp. *)
Lemma latest_scan_first_latest (first : Snapshot) (rest : list Snapshot) (t : Z) :
  SnapshotCreateTime first = Some t ->
  exists m, Exporter.latest_scan (first :: rest) = Some m /\
            first_latest (first :: rest) m.
Proof.
  intros Ht. unfold Exporter.latest_scan. cbn [fold_left].
  rewrite latest_step_first.
  apply (latest_fold rest [first] first).
  exists [], [], t. repeat split; auto; intros ? ? [].
Qed.

(** A candidate without a timestamp is never replaced. *)
Lemma latest_fold_pinned (l : list Snapshot) (m : Snapshot) :
  SnapshotCreateTime m = None ->
  fold_left Exporter.latest_step l (Some m) = Some m.
Proof.
  intros Hm. induction l as [|x l IH]; [reflexivity|].
  cbn [fold_left]. unfold Exporter.latest_step at 2. rewrite Hm.
  destruct (SnapshotCreateTime x); exact IH.
Qed.

(** A snapshot without a timestamp never replaces a candidate. *)
Lemma latest_step_skips (m x : Snapshot) :
  SnapshotCreateTime x = None -> Exporter.latest_step (Some m) x = Some m.
Proof. intros Hx. unfold Exporter.latest_step. now rewrite Hx. Qed.

Lemma oldest_step_inv (pre : list Snapshot) (acc : option Snapshot) (x : Snapshot) :
  oldest_inv is_recrypted pre acc ->
  (is_recrypted x = true -> SnapshotCreateTime x <> None) ->
  exists acc', Shared.oldest_step acc x = inr acc' /\
               oldest_inv is_recrypted (pre ++ [x]) acc'.
Proof.
  intros Hinv Hx. unfold Shared.oldest_step.
  destruct (is_recrypted x) eqn:Hk; cbn [negb].
  - destruct (SnapshotCreateTime x) as [t|] eqn:Ht; [|now elim Hx].
    destruct acc as [o|]; cbn [oldest_inv] in Hinv.
    + destruct Hinv as (before & after & t0 & -> & Ho & Hto & Hb & Ha).
      rewrite Hto. eexists. split; [reflexivity|].
      destruct (Z.ltb_spec t t0) as [Hlt|Hge]; cbn [oldest_inv].
      * exists (before ++ o :: after), [], t.
        split; [reflexivity|]. split; [assumption|]. split; [assumption|].
        split; [|intros ? ? []].
        intros s ts Hs Hks Hts. apply in_app_or in Hs as [Hs|[<-|Hs]].
        -- specialize (Hb _ _ Hs Hks Hts). lia.
        -- assert (ts = t0) by congruence. lia.
        -- specialize (Ha _ _ Hs Hks Hts). lia.
      * exists before, (after ++ [x]), t0.
        split; [now rewrite <- app_assoc|]. do 3 (split; [assumption|]).
        intros s ts Hs Hks Hts. apply in_app_or in Hs as [Hs|[<-|[]]].
        -- eauto.
        -- assert (ts = t) by congruence. lia.
    + rewrite Ht. rewrite Z.ltb_irrefl. eexists. split; [reflexivity|].
      cbn [oldest_inv]. exists pre, [], t.
      split; [reflexivity|]. do 2 (split; [assumption|]).
      split; [|intros ? ? []].
      intros s ts Hs Hks. rewrite (Hinv _ Hs) in Hks. discriminate.
  - exists acc. split; [reflexivity|].
    destruct acc as [o|]; cbn [oldest_inv] in *.
    + destruct Hinv as (before & after & t0 & -> & Ho & Hto & Hb & Ha).
      exists before, (after ++ [x]), t0.
      split; [now rewrite <- app_assoc|]. do 3 (split; [assumption|]).
      intros s ts Hs Hks Hts. apply in_app_or in Hs as [Hs|[<-|[]]].
      * eauto.
      * congruence.
    + intros s Hs. apply in_app_or in Hs as [Hs|[<-|[]]]; auto.
Qed.

Lemma oldest_scan_inv (l pre : list Snapshot) (acc : option Snapshot) :
  oldest_inv is_recrypted pre acc ->
  (forall s, In s l -> is_recrypted s = true -> SnapshotCreateTime s <> None) ->
  exists acc', Shared.oldest_scan acc l = inr acc' /\
               oldest_inv is_recrypted (pre ++ l) acc'.
Proof.
  revert pre acc. induction l as [|x l IH]; intros pre acc Hinv Ht.
  - exists acc. rewrite app_nil_r. auto.
  - destruct (oldest_step_inv pre acc x Hinv) as (acc1 & E1 & H1).
    { apply Ht. now left. }
    destruct (IH _ _ H1) as (acc' & E & H').
    { intros s Hs. apply Ht. now right. }
    exists acc'. cbn [Shared.oldest_scan]. rewrite E1, E.
    rewrite <- app_assoc in H'. auto.
Qed.

(** Where every matching snapshot carries a timestamp and one matches, the
    scan returns the first matching snapshot with the least timestamp. *)
Lemma oldest_scan_first_oldest (l : list Snapshot) :
  (exists s, In s l /\ is_recrypted s = true) ->
  (forall s, In s l -> is_recrypted s = true -> SnapshotCreateTime s <> None) ->
  exists o, Shared.oldest_scan None l = inr (Some o) /\ first_oldest is_recrypted l o.
Proof.
  intros (s & Hs & Hk) Ht.
  destruct (oldest_scan_inv l [] None) as (acc & E & Hinv); [intros ? [] | exact Ht |].
  cbn [app] in Hinv. destruct acc as [o|]; cbn [oldest_inv] in Hinv.
  - eauto.
  - rewrite (Hinv _ Hs) in Hk. discriminate.
Qed.

(** Snapshots that do not match leave the scan as it is. *)
Lemma oldest_scan_filter (l : list Snapshot) (acc : option Snapshot) :
  Shared.oldest_scan acc (filter is_recrypted l) = Shared.oldest_scan acc l.
Proof.
  revert acc. induction l as [|x l IH]; intros acc; [reflexivity|].
  cbn [filter]. destruct (is_recrypted x) eqn:Hk.
  - cbn [Shared.oldest_scan]. destruct (Shared.oldest_step acc x); auto.
  - cbn [Shared.oldest_scan]. unfold Shared.oldest_step at 1.
    rewrite Hk. cbn [negb]. apply IH.
Qed.

(** A matching snapshot without a timestamp stops the scan. *)
Lemma oldest_step_missing_time (acc : option Snapshot) (x : Snapshot) :
  is_recrypted x = true -> SnapshotCreateTime x = None ->
  Shared.oldest_step acc x = inl KeyError.
Proof.
  intros Hk Ht. unfold Shared.oldest_step.
  now rewrite Hk, Ht.
Qed.

End Scans.

(** ** Running the programs *)

Ltac run_format :=
  unfold print_format;
  cbn [Py.format Py.format_from Ascii.eqb Bool.eqb andb nth_error].

Ltac run_monad :=
  unfold bind, print, emit, sleep, lift, ret, raise, sys_exit, out_of_steps,
         sns_publish, first_item;
  cbn [catalog clock trace fst snd].

Ltac run_monad_in H :=
  unfold bind, print, emit, sleep, lift, ret, raise, sys_exit, out_of_steps,
         sns_publish, first_item in H;
  cbn [catalog clock trace fst snd] in H.

(** What a listing request does: the event, and the listing or, for a
    lookup by identifier, the fault. *)
Lemma describe_outcome (client : RdsClient) (instance snapshot type : option string)
      (shared : bool) (w w' : World) (r : Res (list Snapshot)) :
  Rds.describe_db_snapshots client instance snapshot type shared w = (r, w') ->
  w' = {| catalog := catalog w; clock := clock w;
          trace := DescribeDBSnapshots instance snapshot type shared :: trace w |} /\
  (r = Ok (Rds.listing client instance snapshot type shared w) \/
   r = Raised DBSnapshotNotFoundFault /\
   Rds.listing client instance snapshot type shared w = [] /\ snapshot <> None).
Proof.
  unfold Rds.describe_db_snapshots. intros E.
  destruct snapshot as [id|];
    [destruct (Rds.listing client instance (Some id) type shared w) as [|x l]|];
    injection E as <- <-; (split; [reflexivity|]); auto.
  right. repeat split. discriminate.
Qed.

(** ** The oldest-manual-matching finder *)

Lemma get_oldest_runs (client : RdsClient) (db : string) (w : World) (o : Snapshot) :
  Shared.oldest_scan None (Rds.listing client (Some db) None (Some "manual") false w)
  = inr (Some o) ->
  exists lines,
    Shared.get_oldest_manual_recrypted_rds_snapshots client db w
    = (Ok o, {| catalog := catalog w; clock := clock w;
                trace := lines ++ trace w |}) /\
    Forall (fun e => e = DescribeDBSnapshots (Some db) None (Some "manual") false
                     \/ exists line, e = Print line) lines.
Proof.
  intros Ho. unfold Shared.get_oldest_manual_recrypted_rds_snapshots.
  run_format. unfold Rds.describe_db_snapshots, Rds.listing in *. run_monad.
  rewrite Ho. run_monad. eexists [_; _; _]. split; [reflexivity|].
  repeat (constructor; [first [left; reflexivity | right; eexists; reflexivity]|]).
  constructor.
Qed.

(** Where every matching snapshot carries its creation timestamp.  For
    every list of manual snapshots with at least one identifier containing
    ["recrypted"], each such snapshot carrying its creation timestamp, the
    oldest finder returns the first matching snapshot, in scan order, with
    the least creation timestamp; the scan gives the same result on the
    matching snapshots alone, so the others are ignored; and the function
    returns that snapshot on every account whose listing of the instance's
    manual snapshots is this list. *)
Lemma oldest_finder_returns_first_minimum (l : list Snapshot) :
  (exists s, In s l /\ is_recrypted s = true) ->
  (forall s, In s l -> is_recrypted s = true -> SnapshotCreateTime s <> None) ->
  exists oldest,
    Shared.oldest_scan None l = inr (Some oldest) /\
    first_oldest is_recrypted l oldest /\
    Shared.oldest_scan None (filter is_recrypted l) = inr (Some oldest) /\
    forall client db w,
      Rds.listing client (Some db) None (Some "manual") false w = l ->
      exists w',
        Shared.get_oldest_manual_recrypted_rds_snapshots client db w = (Ok oldest, w') /\
        catalog w' = catalog w.
Proof.
  intros Hex Ht.
  destruct (oldest_scan_first_oldest l Hex Ht) as (o & Ho & Hfirst).
  exists o. split; [assumption|]. split; [assumption|].
  split; [now rewrite oldest_scan_filter|].
  intros client db w Hl. rewrite <- Hl in Ho.
  destruct (get_oldest_runs client db w o Ho) as (lines & E & _).
  eexists. split; [exact E | reflexivity].
Qed.

Lemma oldest_finder_returns_first_minimum_witness :
  Shared.oldest_scan None
    [Sample.snap "a-recrypted" "db1" "manual" (Some 2%Z);
     Sample.snap "b" "db1" "manual" (Some 1%Z);
     Sample.snap "c-recrypted" "db1" "manual" (Some 3%Z)]
  = inr (Some (Sample.snap "a-recrypted" "db1" "manual" (Some 2%Z))).
Proof.
  destruct (oldest_finder_returns_first_minimum
              [Sample.snap "a-recrypted" "db1" "manual" (Some 2%Z);
               Sample.snap "b" "db1" "manual" (Some 1%Z);
               Sample.snap "c-recrypted" "db1" "manual" (Some 3%Z)])
    as (o & Ho & _).
  - exists (Sample.snap "a-recrypted" "db1" "manual" (Some 2%Z)).
    split; [simpl; auto | reflexivity].
  - intros s [<-|[<-|[<-|[]]]] _; discriminate.
  - rewrite Ho. vm_compute in Ho. symmetry. exact Ho.
Defined.

(** ** The latest-automatic finder *)

Lemma get_latest_runs (client : RdsClient) (db : string) (w : World) :
  exists lines,
    Exporter.get_latest_automatic_rds_snapshots client db w
    = (Ok (Exporter.latest_scan
             (Rds.listing client (Some db) None (Some "automated") false w)),
       {| catalog := catalog w; clock := clock w; trace := lines ++ trace w |}) /\
    Forall (fun e => e = DescribeDBSnapshots (Some db) None (Some "automated") false
                     \/ exists line, e = Print line) lines.
Proof.
  unfold Exporter.get_latest_automatic_rds_snapshots.
  run_format. unfold Rds.describe_db_snapshots, Rds.listing. run_monad.
  destruct (Exporter.latest_scan _) as [latest|]; run_monad;
    (eexists [_; _; _]; split; [reflexivity|]);
    repeat (constructor; [first [left; reflexivity | right; eexists; reflexivity]|]);
    constructor.
Qed.

(** An instance without automated snapshots: the finder returns the empty
    result and the exporter's loop goes on to the next instance with the
    count as it was, having asked the service for nothing but the listing. *)
Lemma exporter_skips_instance_without_snapshots
      (steps : nat) (client : RdsClient) (cfg : Config) (db : DBInstance.t)
      (count : Z) (w : World) :
  Rds.listing client (Some (DBInstance.DBInstanceIdentifier db)) None
              (Some "automated") false w = [] ->
  exists lines,
    Exporter.get_latest_automatic_rds_snapshots
      client (DBInstance.DBInstanceIdentifier db) w
    = (Ok None, {| catalog := catalog w; clock := clock w; trace := lines ++ trace w |}) /\
    Exporter.process_instance steps client cfg db count w
    = (Ok count, {| catalog := catalog w; clock := clock w; trace := lines ++ trace w |}) /\
    Forall (fun e => e = DescribeDBSnapshots (Some (DBInstance.DBInstanceIdentifier db))
                           None (Some "automated") false
                     \/ exists line, e = Print line) lines.
Proof.
  intros Hl.
  destruct (get_latest_runs client (DBInstance.DBInstanceIdentifier db) w)
    as (lines & E & Hlines).
  rewrite Hl in E. exists lines. split; [exact E|]. split; [|exact Hlines].
  unfold Exporter.process_instance, bind. rewrite E. reflexivity.
Qed.

(** The automated snapshots [rds:db1-c] (no creation timestamp yet),
    [rds:db1-a] (timestamp 5), [rds:db1-b] (timestamp 7), listed in this
    order: the latest finder returns [rds:db1-c]. *)
Example latest_finder_untimed_first_snapshot :
  let listed := [Sample.snap "rds:db1-c" "db1" "automated" None;
                 Sample.snap "rds:db1-a" "db1" "automated" (Some 5%Z);
                 Sample.snap "rds:db1-b" "db1" "automated" (Some 7%Z)] in
  Rds.listing Sample.steady (Some "db1") None (Some "automated") false
              (Sample.world listed) = listed /\
  fst (Exporter.get_latest_automatic_rds_snapshots Sample.steady "db1"
         (Sample.world listed))
  = Ok (Some (Sample.snap "rds:db1-c" "db1" "automated" None)).
Proof. split; reflexivity. Qed.

(** C3, as stated, fails on an instance whose only automated snapshot has
    no creation timestamp yet: the finder returns that snapshot, which has
    no timestamp to be the maximum. *)
Lemma latest_finder_untimed_only_snapshot :
  Exporter.latest_scan [Sample.snap "rds:db1-c" "db1" "automated" None]
  = Some (Sample.snap "rds:db1-c" "db1" "automated" None) /\
  ~ returns_first_latest [Sample.snap "rds:db1-c" "db1" "automated" None].
Proof.
  split; [reflexivity|].
  intros (m & E & before & after & tm & El & Hm & _).
  injection E as <-. discriminate Hm.
Qed.

(** C3 (amended).  For every non-empty list of automated snapshots whose
    first snapshot carries a creation timestamp, the latest finder returns
    the first snapshot, in scan order, whose timestamp is the greatest of
    the timestamps present in the list; the function returns it on every
    account whose listing of the instance's automated snapshots is this
    list. *)
Theorem latest_finder_returns_first_maximum
        (first : Snapshot) (rest : list Snapshot) (t : Z) :
  SnapshotCreateTime first = Some t ->
  returns_first_latest (first :: rest) /\
  forall client db w,
    Rds.listing client (Some db) None (Some "automated") false w = first :: rest ->
    exists w',
      Exporter.get_latest_automatic_rds_snapshots client db w
      = (Ok (Exporter.latest_scan (first :: rest)), w') /\
      catalog w' = catalog w.
Proof.
  intros Ht. split; [exact (latest_scan_first_latest first rest t Ht)|].
  intros client db w Hl. destruct (get_latest_runs client db w) as (lines & E & _).
  rewrite Hl in E. eexists. split; [exact E | reflexivity].
Qed.

Lemma latest_finder_returns_first_maximum_witness :
  Exporter.latest_scan
    [Sample.snap "rds:db1-b" "db1" "automated" (Some 7%Z);
     Sample.snap "rds:db1-c" "db1" "automated" (Some 7%Z);
     Sample.snap "rds:db1-a" "db1" "automated" (Some 5%Z)]
  = Some (Sample.snap "rds:db1-b" "db1" "automated" (Some 7%Z)).
Proof.
  destruct (latest_finder_returns_first_maximum
              (Sample.snap "rds:db1-b" "db1" "automated" (Some 7%Z))
              [Sample.snap "rds:db1-c" "db1" "automated" (Some 7%Z);
               Sample.snap "rds:db1-a" "db1" "automated" (Some 5%Z)]
              7%Z eq_refl) as [(m & E & _) _].
  rewrite E. vm_compute in E. symmetry. exact E.
Defined.

(** C4.  In the latest finder, a first listed snapshot without a creation
    timestamp is the candidate after the first turn and is still the
    candidate at the end of the scan, whatever snapshots follow it. *)
Theorem latest_scan_keeps_untimed_first (first : Snapshot) (rest : list Snapshot) :
  SnapshotCreateTime first = None ->
  Exporter.latest_scan (first :: rest) = Some first.
Proof.
  intros H. unfold Exporter.latest_scan. cbn [fold_left].
  rewrite latest_step_first. now apply latest_fold_pinned.
Qed.

Lemma latest_scan_keeps_untimed_first_witness :
  Exporter.latest_scan
    [Sample.snap "rds:db1-c" "db1" "automated" None;
     Sample.snap "rds:db1-a" "db1" "automated" (Some 5%Z)]
  = Some (Sample.snap "rds:db1-c" "db1" "automated" None).
Proof.
  apply (latest_scan_keeps_untimed_first
           (Sample.snap "rds:db1-c" "db1" "automated" None)
           [Sample.snap "rds:db1-a" "db1" "automated" (Some 5%Z)]).
  reflexivity.
Defined.

(** ** The run validator *)

Lemma exporter_alert_format (expected actual : string) :
  Py.format
    ("COPY_RDS_SNAPSHOT_COUNT_ERROR sharing RDS snapshots completed with error: "
     ++ "Expected snapshot count={0} not equal to actual snapshot count={1}, exiting")
    [expected; actual]
  = inr ("COPY_RDS_SNAPSHOT_COUNT_ERROR sharing RDS snapshots completed with error: "
         ++ "Expected snapshot count=" ++ expected
         ++ " not equal to actual snapshot count=" ++ actual ++ ", exiting")%string.
Proof. reflexivity. Qed.

Ltac merge_left :=
  match goal with
  | |- Py.contains _ (?a ++ (?b ++ ?rest))%string = true =>
      rewrite <- (append_assoc a b rest)
  end.

Lemma exporter_alert_content (expected actual : Z) :
  Py.contains "COPY_RDS_SNAPSHOT_COUNT_ERROR" (exporter_alert expected actual) = true /\
  Py.contains (Py.str expected) (exporter_alert expected actual) = true /\
  Py.contains (Py.str actual) (exporter_alert expected actual) = true.
Proof.
  unfold exporter_alert. split; [|split].
  - apply (contains_append "COPY_RDS_SNAPSHOT_COUNT_ERROR" "").
  - merge_left. apply contains_append.
  - do 3 merge_left. apply contains_append.
Qed.

(** The exporter on a count other than the expected one: the alert with
    both counts and the tag is printed, published unless the run is a debug
    run or has no topic, and the process exits with status 1. *)
Lemma exporter_report_mismatch (cfg : Config) (ready : Z) (w : World) :
  ready <> EXPECTED_SNAPSHOT_COUNT cfg ->
  Exporter.report cfg ready w
  = (Exited 1,
     {| catalog := catalog w; clock := clock w;
        trace := exporter_notification cfg
                   (exporter_alert (EXPECTED_SNAPSHOT_COUNT cfg) ready)
                 ++ Print (exporter_alert (EXPECTED_SNAPSHOT_COUNT cfg) ready)
                 :: trace w |}).
Proof.
  intros H. unfold Exporter.report, exporter_notification.
  destruct (Z.eqb_spec ready (EXPECTED_SNAPSHOT_COUNT cfg)) as [E|_]; [contradiction|].
  cbn [negb]. rewrite exporter_alert_format. fold (exporter_alert (EXPECTED_SNAPSHOT_COUNT cfg) ready).
  run_monad.
  destruct (negb (debug cfg) && negb (is_empty (TOPIC_ARN cfg))); reflexivity.
Qed.

(** Either script on the expected count: a closing line, exit status 0. *)
Lemma report_match (cfg : Config) (w : World) :
  exit_status (fst (Exporter.report cfg (EXPECTED_SNAPSHOT_COUNT cfg) w)) = Some 0%Z /\
  exit_status (fst (Importer.report cfg (EXPECTED_SNAPSHOT_COUNT cfg) w)) = Some 0%Z /\
  (forall e, In e (trace (snd (Exporter.report cfg (EXPECTED_SNAPSHOT_COUNT cfg) w))) ->
             In e (trace w) \/ exists line, e = Print line) /\
  (forall e, In e (trace (snd (Importer.report cfg (EXPECTED_SNAPSHOT_COUNT cfg) w))) ->
             In e (trace w) \/ exists line, e = Print line).
Proof.
  unfold Exporter.report, Importer.report. rewrite Z.eqb_refl. cbn.
  repeat split; intros e [<-|He]; eauto.
Qed.

(** C1.  The importer on a count other than the expected one: formatting
    the alert raises [IndexError] (the text has the fields [{1}] and [{2}],
    the call two arguments), so no alert is built, printed or published;
    the process ends on the uncaught exception, with status 1. *)
Theorem importer_report_mismatch (cfg : Config) (ready : Z) (w : World) :
  ready <> EXPECTED_SNAPSHOT_COUNT cfg ->
  Importer.report cfg ready w = (Raised IndexError, w) /\
  exit_status (fst (Importer.report cfg ready w)) = Some 1%Z.
Proof.
  intros H. unfold Importer.report.
  destruct (Z.eqb_spec ready (EXPECTED_SNAPSHOT_COUNT cfg)) as [E|_]; [contradiction|].
  split; reflexivity.
Qed.

(** A whole run of the importer that copies one shared snapshot where four
    are expected: it ends on the [IndexError], and nothing was published. *)
Example importer_run_ends_on_index_error :
  let w := Sample.world
             [Sample.shared_snap "db1-2024-05-01-03-10-recrypted" "db1" (Some 6%Z)] in
  let run := Importer.script 5 Sample.steady (Sample.config 4) w in
  fst run = Raised IndexError /\
  exit_status (fst run) = Some 1%Z /\
  forallb (fun e => match e with Publish _ _ _ => false | _ => true end)
          (trace (snd run)) = true.
Proof. vm_compute. repeat split. Qed.

Lemma importer_report_mismatch_witness :
  Importer.report (Sample.config 4) 3 (Sample.world [])
  = (Raised IndexError, Sample.world []).
Proof.
  apply (importer_report_mismatch (Sample.config 4) 3 (Sample.world [])).
  discriminate.
Defined.

(** ** The copy makers *)

Section CopyOrFetch.

Variables (client : RdsClient) (source target kms_key : string).
Variables created retrieving retrieved : M unit.
Hypothesis created_says : says created.
Hypothesis retrieving_says : says retrieving.
Hypothesis retrieved_says : says retrieved.

Lemma fetch_runs (w : World) :
  exists lines,
    fetch client target retrieving retrieved w
    = (match Rds.listing client None (Some target) None false w with
       | x :: _ => Ok x
       | [] => Raised DBSnapshotNotFoundFault
       end,
       {| catalog := catalog w; clock := clock w; trace := lines ++ trace w |}) /\
    In (DescribeDBSnapshots None (Some target) None false) lines /\
    (forall e, In e lines -> e = DescribeDBSnapshots None (Some target) None false \/ exists line, e = Print line).
Proof.
  unfold fetch, bind.
  destruct (retrieving_says w) as (l1 & ->).
  unfold Rds.describe_db_snapshots, Rds.listing. cbn [catalog clock trace].
  destruct (map _ (filter _ (catalog w))) as [|x rest].
  - exists (DescribeDBSnapshots None (Some target) None false :: map Print l1)%list.
    split; [reflexivity|]. split; [now left|].
    intros e [<-|He]; [now left|right].
    apply in_map_iff in He as (line & <- & _); eauto.
  - match goal with |- context [retrieved ?w'] => destruct (retrieved_says w') as (l2 & ->) end.
    cbn [catalog clock trace first_item ret].
    exists (map Print l2 ++ DescribeDBSnapshots None (Some target) None false
                          :: map Print l1)%list.
    split; [|split].
    + rewrite <- app_assoc. reflexivity.
    + apply in_or_app. right. now left.
    + intros e He. apply in_app_or in He as [He|[<-|He]]; [right|now left|right];
        apply in_map_iff in He as (line & <- & _); eauto.
Qed.

Lemma listing_by_id_head (w : World) (x : Snapshot) (rest : list Snapshot) :
  Rds.listing client None (Some target) None false w = x :: rest ->
  DBSnapshotIdentifier x = target.
Proof.
  unfold Rds.listing. intros H.
  assert (Hin : In x (map (Rds.refresh client (clock w))
                          (filter (Rds.selected None (Some target) None false) (catalog w))))
    by (rewrite H; now left).
  apply in_map_iff in Hin as (c & <- & Hc). apply filter_In in Hc as [_ Hc].
  unfold Rds.selected in Hc. cbn [Rds.matches_filter Rds.refresh DBSnapshotIdentifier] in *.
  apply andb_prop in Hc as [Hc _]. cbn [andb] in Hc. now apply String.eqb_eq.
Qed.

Lemma copy_or_fetch_existing (w : World) :
  existsb (Rds.has_identifier target) (catalog w) = true ->
  copy_or_fetch client source target kms_key created retrieving retrieved w
  = fetch client target retrieving retrieved
      {| catalog := catalog w; clock := clock w;
         trace := CopyDBSnapshot source target kms_key :: trace w |}.
Proof.
  intros Hex. unfold copy_or_fetch, try_except, bind at 1 2, Rds.copy_db_snapshot.
  rewrite Hex. reflexivity.
Qed.

Lemma copy_or_fetch_fresh (w w1 : World) (s1 : Snapshot) :
  existsb (Rds.has_identifier target) (catalog w) = false ->
  copy_or_fetch client source target kms_key created retrieving retrieved w = (Ok s1, w1) ->
  exists src,
    s1 = Rds.new_copy client (clock w) src target /\
    catalog w1 = (catalog w ++ [s1])%list /\ clock w1 = clock w.
Proof.
  intros Hex. unfold copy_or_fetch, try_except, bind, Rds.copy_db_snapshot.
  rewrite Hex.
  destruct (find (Rds.is_source source) (catalog w)) as [src|]; [|discriminate].
  match goal with |- context [created ?w'] => destruct (created_says w') as (l1 & ->) end.
  unfold ret. intros H. injection H as <- <-. cbn [catalog clock trace]. eauto.
Qed.

Lemma listing_same (instance snapshot type : option string) (shared : bool)
      (w w' : World) :
  catalog w' = catalog w -> clock w' = clock w ->
  Rds.listing client instance snapshot type shared w'
  = Rds.listing client instance snapshot type shared w.
Proof. unfold Rds.listing. now intros -> ->. Qed.

Lemma copy_or_fetch_again (w w1 w2 : World) (s1 : Snapshot) :
  copy_or_fetch client source target kms_key created retrieving retrieved w = (Ok s1, w1) ->
  catalog w2 = catalog w1 -> clock w2 = clock w1 ->
  exists s2 lines,
    copy_or_fetch client source target kms_key created retrieving retrieved w2
    = (Ok s2, {| catalog := catalog w2; clock := clock w2; trace := lines ++ trace w2 |}) /\
    DBSnapshotIdentifier s1 = target /\
    DBSnapshotIdentifier s2 = target /\
    fst (Rds.copy_db_snapshot client source target kms_key w2)
      = Raised DBSnapshotAlreadyExistsFault /\
    In (DescribeDBSnapshots None (Some target) None false) lines /\
    (forall e, In e lines ->
       e = CopyDBSnapshot source target kms_key \/
       e = DescribeDBSnapshots None (Some target) None false \/
       exists line, e = Print line).
Proof.
  intros H Hcat Hclock.
  assert (Hfirst : DBSnapshotIdentifier s1 = target /\
                   existsb (Rds.has_identifier target) (catalog w1) = true /\
                   exists x rest, Rds.listing client None (Some target) None false w1 = x :: rest).
  { destruct (existsb (Rds.has_identifier target) (catalog w)) eqn:Hex.
    - rewrite (copy_or_fetch_existing w Hex) in H.
      match type of H with fetch _ _ _ _ ?w' = _ =>
        destruct (fetch_runs w') as (lines & E & _); rewrite E in H;
        destruct (Rds.listing client None (Some target) None false w') as [|x rest] eqn:Hl;
          [discriminate|] end.
      injection H as <- <-. cbn [catalog clock trace].
      split; [eapply listing_by_id_head; eauto|]. split; [assumption|].
      exists x, rest. unfold Rds.listing in *. exact Hl.
    - destruct (copy_or_fetch_fresh w w1 s1 Hex H) as (src & -> & Hc & Hk).
      split; [reflexivity|]. split.
      + rewrite Hc, existsb_app. cbn. unfold Rds.has_identifier.
        cbn. rewrite String.eqb_refl. apply orb_true_r.
      + unfold Rds.listing. rewrite Hc, filter_app, map_app.
        cbn [filter]. unfold Rds.selected at 2.
        cbn [Rds.matches_filter Rds.new_copy DBSnapshotIdentifier SnapshotType DBInstanceIdentifier].
        rewrite String.eqb_refl. cbn.
        destruct (map _ (filter _ (catalog w))); cbn; eauto. }
  destruct Hfirst as (Hid & Hex & x & rest & Hl).
  rewrite <- Hcat in Hex. rewrite <- (listing_same _ _ _ _ w1 w2 Hcat Hclock) in Hl.
  rewrite (copy_or_fetch_existing w2 Hex).
  match goal with |- context [fetch _ _ _ _ ?w'] =>
    destruct (fetch_runs w') as (lines & E & Hd & Hall); rewrite E;
    change (Rds.listing client None (Some target) None false w')
      with (Rds.listing client None (Some target) None false w2) end.
  rewrite Hl. cbn [catalog clock trace].
  exists x, (lines ++ [CopyDBSnapshot source target kms_key])%list.
  split; [now rewrite <- app_assoc|]. split; [assumption|].
  split; [eapply listing_by_id_head; eauto|].
  split; [unfold Rds.copy_db_snapshot; now rewrite Hex|].
  split; [apply in_or_app; now left|].
  intros e He. apply in_app_or in He as [He|[<-|[]]]; [|now left].
  right. now apply Hall.
Qed.

End CopyOrFetch.

Ltac says_format :=
  intros w; destruct w; run_format;
  first [ exists []; reflexivity | eexists [_]; reflexivity ].

Lemma exporter_copy_shape (client : RdsClient) (snapshot : Snapshot) (kms : string) :
  Exporter.recrypt_snapshot_with_new_key client snapshot kms =
  (target <- lift (Exporter.target_db_snapshot_id (DBSnapshotIdentifier snapshot)) ;;
   print_format "Copying automatic snapshot {} to manual snapshot"
               [DBSnapshotIdentifier snapshot] ;;
   copy_or_fetch client (DBSnapshotIdentifier snapshot) target kms
     (print_format "  Snapshot {} created" [DBSnapshotIdentifier snapshot])
     (print_format "Snapshot already exists, retrieving {}" [target])
     (ret tt)).
Proof. reflexivity. Qed.

Lemma importer_copy_shape (client : RdsClient) (shared : Snapshot) (kms : string) :
  Importer.copy_shared_snapshot_to_local client shared kms =
  (target <- lift (Importer.target_db_snapshot_id (DBSnapshotIdentifier shared)) ;;
   print_format "Copying shared snaphot {} to local snapshot {}..."
               [DBSnapshotArn shared; target] ;;
   copy_or_fetch client (DBSnapshotArn shared) target kms
     (print "  Copy created.")
     (print_format "Snapshot already exists, retrieving {}..." [target])
     (print "  Retrieved.")).
Proof. reflexivity. Qed.

(** A copy maker is its target derivation, a printed line and the
    [try]/[except]; run from the world of a first run that returned, it
    repeats by lookup. *)
Lemma copy_maker_again (client : RdsClient) (derived : Exn + string)
      (announce : string -> M unit) (source kms : string)
      (created : M unit) (retrieving : string -> M unit) (retrieved : M unit)
      (w w1 : World) (first : Snapshot) :
  (forall target, says (announce target)) -> says created ->
  (forall target, says (retrieving target)) -> says retrieved ->
  let run := (target <- lift derived ;;
              announce target ;;
              copy_or_fetch client source target kms
                            created (retrieving target) retrieved) in
  run w = (Ok first, w1) ->
  repeats_by_lookup client run derived source kms first w1.
Proof.
  intros Ha Hc Hr Hd run H. unfold repeats_by_lookup, run, bind, lift in *.
  destruct derived as [e|target]; [discriminate|]. unfold ret in *.
  destruct (Ha target w) as (l0 & E0). rewrite E0 in H.
  destruct (Ha target w1) as (l1 & E1). rewrite E1.
  destruct (copy_or_fetch_again client source target kms created (retrieving target)
              retrieved Hc (Hr target) Hd _ w1
              {| catalog := catalog w1; clock := clock w1;
                 trace := map Print l1 ++ trace w1 |} _ H eq_refl eq_refl)
    as (second & lines & E & Hid1 & Hid2 & Hfault & Hdesc & Hall).
  rewrite E. cbn [catalog clock trace].
  exists second, (lines ++ map Print l1)%list, target.
  split; [now rewrite <- app_assoc|]. split; [reflexivity|].
  split; [assumption|]. split; [assumption|].
  split.
  { unfold Rds.copy_db_snapshot in *. cbn [catalog clock trace] in Hfault.
    destruct (existsb _ (catalog w1)); [reflexivity|].
    destruct (find _ (catalog w1)); discriminate Hfault. }
  split; [apply in_or_app; now left|].
  intros e He. apply in_app_or in He as [He|He]; [now apply Hall|].
  apply in_map_iff in He as (line & <- & _). eauto.
Qed.

(** C6.  The copy step is idempotent.  When a first run of the exporter's
    recryptor, or of the importer's copy maker, has returned a snapshot, a
    second run on the same source returns a snapshot under the same
    identifier, the derived target identifier: its copy request is answered
    with the "already exists" fault, it looks the target up and returns
    normally, and the catalog is as the first run left it. *)
Theorem copy_step_idempotent (client : RdsClient) (kms : string)
        (automatic shared : Snapshot) (we we1 wi wi1 : World)
        (recrypted local : Snapshot) :
  Exporter.recrypt_snapshot_with_new_key client automatic kms we = (Ok recrypted, we1) ->
  Importer.copy_shared_snapshot_to_local client shared kms wi = (Ok local, wi1) ->
  repeats_by_lookup client
    (Exporter.recrypt_snapshot_with_new_key client automatic kms)
    (Exporter.target_db_snapshot_id (DBSnapshotIdentifier automatic))
    (DBSnapshotIdentifier automatic) kms recrypted we1 /\
  repeats_by_lookup client
    (Importer.copy_shared_snapshot_to_local client shared kms)
    (Importer.target_db_snapshot_id (DBSnapshotIdentifier shared))
    (DBSnapshotArn shared) kms local wi1.
Proof.
  intros He Hi. split.
  - rewrite exporter_copy_shape in *.
    apply (copy_maker_again client
             (Exporter.target_db_snapshot_id (DBSnapshotIdentifier automatic))
             (fun _ => print_format "Copying automatic snapshot {} to manual snapshot"
                                    [DBSnapshotIdentifier automatic])
             (DBSnapshotIdentifier automatic) kms
             (print_format "  Snapshot {} created" [DBSnapshotIdentifier automatic])
             (fun target => print_format "Snapshot already exists, retrieving {}" [target])
             (ret tt) we we1 recrypted);
      [intros target; says_format | says_format
      | intros target; says_format | says_format | exact He].
  - rewrite importer_copy_shape in *.
    apply (copy_maker_again client
             (Importer.target_db_snapshot_id (DBSnapshotIdentifier shared))
             (fun target => print_format "Copying shared snaphot {} to local snapshot {}..."
                                         [DBSnapshotArn shared; target])
             (DBSnapshotArn shared) kms
             (print "  Copy created.")
             (fun target => print_format "Snapshot already exists, retrieving {}..." [target])
             (print "  Retrieved.") wi wi1 local);
      [intros target; says_format | says_format
      | intros target; says_format | says_format | exact Hi].
Qed.

Lemma copy_step_idempotent_witness :
  let kms := KMS_KEY_ARN (Sample.config 1) in
  let automatic := Sample.snap "rds:db1-2024-05-01-03-10" "db1" "automated" (Some 5%Z) in
  let shared := Sample.shared_snap "db1-2024-05-01-03-10-recrypted" "db1" (Some 6%Z) in
  let first_e := Exporter.recrypt_snapshot_with_new_key Sample.steady automatic kms
                   (Sample.world [automatic]) in
  let first_i := Importer.copy_shared_snapshot_to_local Sample.steady shared kms
                   (Sample.world [shared]) in
  repeats_by_lookup Sample.steady
    (Exporter.recrypt_snapshot_with_new_key Sample.steady automatic kms)
    (Exporter.target_db_snapshot_id (DBSnapshotIdentifier automatic))
    (DBSnapshotIdentifier automatic) kms
    (Sample.value automatic first_e) (snd first_e) /\
  repeats_by_lookup Sample.steady
    (Importer.copy_shared_snapshot_to_local Sample.steady shared kms)
    (Importer.target_db_snapshot_id (DBSnapshotIdentifier shared))
    (DBSnapshotArn shared) kms
    (Sample.value shared first_i) (snd first_i).
Proof.
  intros kms automatic shared first_e first_i.
  assert (He : first_e = (Ok (Sample.value automatic first_e), snd first_e))
    by (vm_compute; reflexivity).
  assert (Hi : first_i = (Ok (Sample.value shared first_i), snd first_i))
    by (vm_compute; reflexivity).
  exact (copy_step_idempotent Sample.steady kms automatic shared
           (Sample.world [automatic]) (snd first_e)
           (Sample.world [shared]) (snd first_i)
           (Sample.value automatic first_e) (Sample.value shared first_i) He Hi).
Defined.

(** ** The importer without shared snapshots *)

(** Where the answer to the listing is empty.  When the account sees no
    snapshot at all, neither of its own nor shared, the importer exits with
    status 1; all it has done by then is the one listing request and
    printing: no copy, no status poll, no deletion, no sleep, and the
    catalog is untouched.  The same holds of the whole script, whose
    earlier checks exit with status 1 as well. *)
Lemma importer_exits_without_shared_snapshots
        (steps : nat) (client : RdsClient) (cfg : Config) (w : World) :
  Rds.listing client None None None true w = [] ->
  (exists events,
      Importer.main steps client cfg w
      = (Exited 1, {| catalog := catalog w; clock := clock w;
                      trace := events ++ trace w |}) /\
      Forall (fun e => e = DescribeDBSnapshots None None None true
                       \/ exists line, e = Print line) events) /\
  (exists events,
      Importer.script steps client cfg w
      = (Exited 1, {| catalog := catalog w; clock := clock w;
                      trace := events ++ trace w |}) /\
      Forall (fun e => e = DescribeDBSnapshots None None None true
                       \/ exists line, e = Print line) events).
Proof.
  intros Hl.
  assert (Hmain : exists events,
      Importer.main steps client cfg w
      = (Exited 1, {| catalog := catalog w; clock := clock w;
                      trace := events ++ trace w |}) /\
      Forall (fun e => e = DescribeDBSnapshots None None None true
                       \/ exists line, e = Print line) events).
  { unfold Importer.main.
    destruct (Re.kms_key_arn_ok (KMS_KEY_ARN cfg)); cbn [negb].
    - unfold Rds.describe_db_snapshots. run_monad. rewrite Hl. run_monad.
      exists [Print "Unable to find snapshots, shared with current account, exiting";
              DescribeDBSnapshots None None None true].
      split; [reflexivity|].
      repeat (constructor; [first [left; reflexivity | right; eexists; reflexivity]|]).
      constructor.
    - run_monad. eexists [_]. split; [reflexivity|].
      repeat (constructor; [first [left; reflexivity | right; eexists; reflexivity]|]).
      constructor. }
  split; [exact Hmain|].
  unfold Importer.script. destruct (AWS_DEFAULT_REGION cfg).
  - destruct (is_empty (TOPIC_ARN cfg) && negb (debug cfg)); [|exact Hmain].
    exists []. destruct w. split; [reflexivity | constructor].
  - run_monad. eexists [_]. split; [reflexivity|].
    repeat (constructor; [first [left; reflexivity | right; eexists; reflexivity]|]).
    constructor.
Qed.

Lemma importer_exits_without_shared_snapshots_witness :
  fst (Importer.main 5 Sample.steady (Sample.config 4)
         (Sample.world [Sample.snap "demo-public" "db9" "public" (Some 3%Z)]))
  = Exited 1.
Proof.
  destruct (importer_exits_without_shared_snapshots
              5 Sample.steady (Sample.config 4)
              (Sample.world [Sample.snap "demo-public" "db9" "public" (Some 3%Z)]))
    as [(events & E & _) _].
  - reflexivity.
  - now rewrite E.
Defined.

(** ** The readiness waiter *)

Section Waiter.

Variables (client : RdsClient) (snapshot : Snapshot).

Lemma listed_head (w : World) :
  listed snapshot w ->
  exists c rest,
    Rds.listing client None (Some (DBSnapshotIdentifier snapshot)) None false w
    = Rds.refresh client (clock w) c :: rest /\
    DBSnapshotIdentifier c = DBSnapshotIdentifier snapshot.
Proof.
  unfold listed, Rds.listing. intros H.
  apply existsb_exists in H as (x & Hx & Hsel).
  destruct (filter _ (catalog w)) as [|c rest] eqn:E.
  - assert (In x []) by (rewrite <- E; apply filter_In; auto). contradiction.
  - exists c, (map (Rds.refresh client (clock w)) rest). split; [reflexivity|].
    assert (Hc : In c (filter (Rds.selected None (Some (DBSnapshotIdentifier snapshot)) None false) (catalog w)))
      by (rewrite E; now left).
    apply filter_In in Hc as [_ Hc]. unfold Rds.selected in Hc.
    cbn [Rds.matches_filter andb] in Hc. apply andb_prop in Hc as [Hc _].
    now apply String.eqb_eq.
Qed.

Lemma wait_loop_ready (steps : nat) (p : Z) (w : World) :
  listed snapshot w ->
  fst (observed client snapshot (clock w)) = "available" ->
  Shared.wait_loop (S steps) client snapshot p w
  = (Ok tt, {| catalog := catalog w; clock := clock w;
               trace := Print (complete_line snapshot)
                        :: poll_event snapshot :: trace w |}).
Proof.
  intros Hl Ha. destruct (listed_head w Hl) as (c & rest & E & Hc).
  cbn [Shared.wait_loop]. unfold Rds.describe_db_snapshots. run_monad.
  rewrite E. run_monad. cbn [Rds.refresh Status]. rewrite Hc.
  unfold observed in Ha. rewrite Ha. cbn [String.eqb Ascii.eqb Bool.eqb andb].
  run_format. run_monad. reflexivity.
Qed.

Lemma wait_loop_busy (steps : nat) (p : Z) (w : World) :
  listed snapshot w ->
  fst (observed client snapshot (clock w)) <> "available" ->
  Shared.wait_loop (S steps) client snapshot p w
  = Shared.wait_loop steps client snapshot (snd (observed client snapshot (clock w)))
      {| catalog := catalog w; clock := clock w + 10;
         trace := Sleep 10 :: progress_events snapshot p (snd (observed client snapshot (clock w)))
                  ++ poll_event snapshot :: trace w |}.
Proof.
  intros Hl Ha. destruct (listed_head w Hl) as (c & rest & E & Hc).
  cbn [Shared.wait_loop]. unfold Rds.describe_db_snapshots. run_monad.
  rewrite E. run_monad. cbn [Rds.refresh Status PercentProgress]. rewrite Hc.
  unfold observed in *. apply String.eqb_neq in Ha. rewrite Ha.
  unfold progress_events.
  destruct (p =? snd (observe client (DBSnapshotIdentifier snapshot) (clock w)))%Z eqn:Ep;
    cbn [negb].
  - run_monad. apply Z.eqb_eq in Ep. rewrite <- Ep. reflexivity.
  - run_format. run_monad. reflexivity.
Qed.

Lemma wait_loop_unlisted (steps : nat) (p : Z) (w : World) :
  ~ listed snapshot w ->
  fst (Shared.wait_loop (S steps) client snapshot p w) = Raised DBSnapshotNotFoundFault.
Proof.
  unfold listed. intros H. apply not_true_is_false in H.
  cbn [Shared.wait_loop]. unfold Rds.describe_db_snapshots, Rds.listing. run_monad.
  replace (filter _ (catalog w)) with (@nil Snapshot); [reflexivity|].
  symmetry. destruct (filter _ (catalog w)) as [|c rest] eqn:E; [reflexivity|].
  assert (Hc : In c (filter (Rds.selected None (Some (DBSnapshotIdentifier snapshot))
                                          None false) (catalog w)))
    by (rewrite E; now left).
  apply filter_In in Hc as [Hin Hc].
  assert (existsb (Rds.selected None (Some (DBSnapshotIdentifier snapshot)) None false)
                  (catalog w) = true) by (apply existsb_exists; eauto).
  congruence.
Qed.

(** The waiter returns only from a poll that has found the snapshot
    available. *)
Lemma wait_loop_returns_available (steps : nat) :
  forall (p : Z) (w w' : World),
    Shared.wait_loop steps client snapshot p w = (Ok tt, w') ->
    fst (observed client snapshot (clock w')) = "available" /\ catalog w' = catalog w.
Proof.
  induction steps as [|steps IH]; intros p w w' H; [discriminate|].
  destruct (existsb (Rds.selected None (Some (DBSnapshotIdentifier snapshot)) None false)
                    (catalog w)) eqn:Hl.
  - destruct (String.eqb_spec (fst (observed client snapshot (clock w))) "available")
      as [Ha|Ha].
    + rewrite (wait_loop_ready steps p w Hl Ha) in H. injection H as <-. auto.
    + rewrite (wait_loop_busy steps p w Hl Ha) in H.
      apply IH in H as [H1 H2]. auto.
  - assert (Hn : ~ listed snapshot w) by (unfold listed; congruence).
    pose proof (wait_loop_unlisted steps p w Hn) as E. rewrite H in E. discriminate.
Qed.

(** [polls] polls that find the snapshot busy, one every 10 time units. *)
Lemma wait_loop_polls (polls : nat) :
  forall (steps : nat) (p : Z) (w : World),
    listed snapshot w ->
    (forall k, (k < polls)%nat ->
               fst (observed client snapshot (clock w + 10 * Z.of_nat k)) <> "available") ->
    exists p',
      Shared.wait_loop (polls + steps) client snapshot p w
      = Shared.wait_loop steps client snapshot p'
          {| catalog := catalog w; clock := clock w + 10 * Z.of_nat polls;
             trace := waiting_events client snapshot (clock w) p polls ++ trace w |}.
Proof.
  induction polls as [|polls IH]; intros steps p w Hl Hbusy.
  - exists p. destruct w. cbn. now rewrite Z.add_0_r.
  - assert (H0 : fst (observed client snapshot (clock w)) <> "available").
    { specialize (Hbusy 0%nat ltac:(lia)). now rewrite Z.add_0_r in Hbusy. }
    cbn [Nat.add]. rewrite (wait_loop_busy _ p w Hl H0).
    edestruct (IH steps (snd (observed client snapshot (clock w)))) as (p' & E);
      [| | exists p'; rewrite E].
    + exact Hl.
    + cbn [clock]. intros k Hk. specialize (Hbusy (S k) ltac:(lia)).
      replace (clock w + 10 + 10 * Z.of_nat k)%Z
        with (clock w + 10 * Z.of_nat (S k))%Z by lia.
      exact Hbusy.
    + cbn [catalog clock trace waiting_events]. f_equal. f_equal; [lia|].
      rewrite <- app_assoc. cbn [app]. rewrite <- app_assoc. reflexivity.
Qed.

End Waiter.

(** C8.  The readiness waiter on a snapshot of the catalog.  While the
    polls find a status other than ["available"] it does not return: after
    [polls] such polls, for any number [polls], it is still running, has
    slept 10 time units after each of them and has printed a progress line
    at exactly the polls whose percentage differs from the one seen at the
    poll before (from [-1] at the first).  It returns at the first poll that
    finds ["available"], and a return always comes from such a poll. *)
Theorem waiter_polls_until_available
        (client : RdsClient) (snapshot : Snapshot) (w : World) (polls : nat) :
  listed snapshot w ->
  (forall k, (k < polls)%nat ->
             fst (observed client snapshot (clock w + 10 * Z.of_nat k)) <> "available") ->
  Shared.wait_for_snapshot_to_be_ready polls client snapshot w
  = (Running,
     {| catalog := catalog w; clock := clock w + 10 * Z.of_nat polls;
        trace := waiting_events client snapshot (clock w) (-1) polls ++ trace w |}) /\
  (fst (observed client snapshot (clock w + 10 * Z.of_nat polls)) = "available" ->
   forall steps, (polls < steps)%nat ->
     Shared.wait_for_snapshot_to_be_ready steps client snapshot w
     = (Ok tt,
        {| catalog := catalog w; clock := clock w + 10 * Z.of_nat polls;
           trace := Print (complete_line snapshot) :: poll_event snapshot
                    :: waiting_events client snapshot (clock w) (-1) polls ++ trace w |})) /\
  (forall steps w',
     Shared.wait_for_snapshot_to_be_ready steps client snapshot w = (Ok tt, w') ->
     fst (observed client snapshot (clock w')) = "available") /\
  (forall previous percent,
     (previous <> percent ->
      progress_events snapshot previous percent = [Print (progress_line snapshot percent)]) /\
     (previous = percent -> progress_events snapshot previous percent = [])).
Proof.
  intros Hl Hbusy. unfold Shared.wait_for_snapshot_to_be_ready.
  split; [|split; [|split]].
  - destruct (wait_loop_polls client snapshot polls 0 (-1) w Hl Hbusy) as (p' & E).
    rewrite Nat.add_0_r in E. rewrite E. reflexivity.
  - intros Ha steps Hs.
    destruct (wait_loop_polls client snapshot polls (steps - polls) (-1) w Hl Hbusy)
      as (p' & E).
    replace (polls + (steps - polls))%nat with steps in E by lia. rewrite E.
    destruct (steps - polls)%nat as [|rest] eqn:Er; [lia|].
    rewrite wait_loop_ready; [reflexivity | exact Hl | exact Ha].
  - intros steps w' H.
    now apply (wait_loop_returns_available client snapshot steps (-1) w w').
  - intros previous percent. unfold progress_events. split; intros H.
    + apply Z.eqb_neq in H. now rewrite H.
    + apply Z.eqb_eq in H. now rewrite H.
Qed.

Lemma waiter_polls_until_available_witness :
  let copy := Sample.snap "db1-recrypted" "db1" "manual" (Some 0%Z) in
  Shared.wait_for_snapshot_to_be_ready 3 Sample.slow copy (Sample.world [copy])
  = (Running,
     {| catalog := [copy]; clock := 30;
        trace := waiting_events Sample.slow copy 0 (-1) 3 |}).
Proof.
  intros copy.
  destruct (waiter_polls_until_available Sample.slow copy (Sample.world [copy]) 3)
    as (E & _).
  - reflexivity.
  - intros k Hk.
    assert (Hcases : k = 0%nat \/ k = 1%nat \/ k = 2%nat) by lia.
    destruct Hcases as [->|[->| ->]]; discriminate.
  - rewrite E. now rewrite app_nil_r.
Defined.

(** On a service that never reports the snapshot available, the waiter is
    still running after any number of polls. *)
Lemma waiter_waits_forever (steps : nat) :
  let copy := Sample.snap "db1-recrypted" "db1" "manual" (Some 0%Z) in
  fst (Shared.wait_for_snapshot_to_be_ready steps Sample.stuck copy (Sample.world [copy]))
  = Running.
Proof.
  intros copy. unfold Shared.wait_for_snapshot_to_be_ready.
  destruct (wait_loop_polls Sample.stuck copy steps 0 (-1) (Sample.world [copy]))
    as (p & E).
  - reflexivity.
  - intros k _. discriminate.
  - rewrite Nat.add_0_r in E. now rewrite E.
Qed.

(** ** What the importer leaves alone *)

Section Spared.

Variable s0 : Snapshot.

Lemma yields_weaken {A} (Q Q' : A -> Prop) (m : M A) :
  (forall a, Q a -> Q' a) -> yields s0 Q m -> yields s0 Q' m.
Proof.
  intros HQ Hm w r w' Hk E. destruct (Hm w r w' Hk E) as (H1 & H2 & H3).
  split; [assumption|]. split; [assumption|]. intros a Ha. auto.
Qed.

Lemma yields_bind {A B} (Q : A -> Prop) (Q' : B -> Prop) (m : M A) (k : A -> M B) :
  yields s0 Q m -> (forall a, Q a -> yields s0 Q' (k a)) -> yields s0 Q' (bind m k).
Proof.
  intros Hm Hk w r w' Hw E. unfold bind in E.
  destruct (m w) as [ra w1] eqn:Em.
  destruct (Hm w ra w1 Hw Em) as (H1 & (ev1 & T1 & F1) & HQ).
  destruct ra as [a|n|e|].
  - destruct (Hk a (HQ a eq_refl) w1 r w' H1 E) as (H2 & (ev2 & T2 & F2) & HQ').
    split; [assumption|]. split; [|assumption].
    exists (ev2 ++ ev1). split; [now rewrite T2, T1, app_assoc|].
    apply Forall_app. auto.
  - injection E as <- <-. split; [assumption|]. split; [eauto|]. discriminate.
  - injection E as <- <-. split; [assumption|]. split; [eauto|]. discriminate.
  - injection E as <- <-. split; [assumption|]. split; [eauto|]. discriminate.
Qed.

Lemma yields_ret {A} (Q : A -> Prop) (a : A) : Q a -> yields s0 Q (ret a).
Proof.
  intros HQ w r w' Hw E. injection E as <- <-.
  split; [assumption|]. split; [exists []; auto|]. intros ? [= <-]. exact HQ.
Qed.

Lemma yields_stop {A} (Q : A -> Prop) (m : M A) :
  (forall w, exists r, m w = (r, w) /\ forall a, r <> Ok a) -> yields s0 Q m.
Proof.
  intros Hm w r w' Hw E. destruct (Hm w) as (r0 & E0 & Hr). rewrite E0 in E.
  injection E as <- <-. split; [assumption|]. split; [exists []; auto|].
  intros a Ha. now elim (Hr a).
Qed.

Lemma yields_raise {A} (Q : A -> Prop) (e : Exn) : yields s0 Q (raise e).
Proof. apply yields_stop. intros w. eexists. split; [reflexivity | discriminate]. Qed.

Lemma yields_exit {A} (Q : A -> Prop) (n : Z) : yields s0 Q (sys_exit n).
Proof. apply yields_stop. intros w. eexists. split; [reflexivity | discriminate]. Qed.

Lemma yields_out_of_steps {A} (Q : A -> Prop) : yields s0 Q (@out_of_steps A).
Proof. apply yields_stop. intros w. eexists. split; [reflexivity | discriminate]. Qed.

Lemma yields_lift {A} (Q : A -> Prop) (x : Exn + A) :
  (forall a, x = inr a -> Q a) -> yields s0 Q (lift x).
Proof.
  intros H. destruct x as [e|a]; [apply yields_raise | apply yields_ret; auto].
Qed.

Lemma yields_emit (e : Event) : spares s0 e -> yields s0 anything (emit e).
Proof.
  intros He w r w' Hw E. injection E as <- <-.
  split; [exact Hw|]. split; [|constructor].
  exists [e]. split; [reflexivity | auto].
Qed.

Lemma yields_print (line : string) : yields s0 anything (print line).
Proof. apply yields_emit. exact I. Qed.

Lemma yields_print_format (template : string) (args : list string) :
  yields s0 anything (print_format template args).
Proof.
  unfold print_format. destruct (Py.format template args).
  - apply yields_raise.
  - apply yields_print.
Qed.

Lemma yields_sleep (d : Z) : yields s0 anything (sleep d).
Proof.
  intros w r w' Hw E. injection E as <- <-.
  split; [exact Hw|]. split; [|constructor].
  exists [Sleep d]. split; [reflexivity|]. constructor; [exact I | constructor].
Qed.

Lemma yields_publish (topic message subject : string) :
  yields s0 anything (sns_publish topic message subject).
Proof. apply yields_emit. exact I. Qed.

Lemma yields_first_item {A} (Q : A -> Prop) (l : list A) :
  (forall a, In a l -> Q a) -> yields s0 Q (first_item l).
Proof.
  intros H. destruct l as [|x l]; [apply yields_raise|].
  apply yields_ret. apply H. now left.
Qed.

Lemma yields_try {A} (Q : A -> Prop) (body handler : M A) (e : Exn) :
  yields s0 Q body -> yields s0 Q handler -> yields s0 Q (try_except body e handler).
Proof.
  intros Hb Hh w r w' Hw E. unfold try_except in E.
  destruct (body w) as [rb wb] eqn:Eb.
  destruct (Hb w rb wb Hw Eb) as (H1 & (ev1 & T1 & F1) & HQ).
  destruct rb as [a|n|e'|]; try (injection E as <- <-; auto; fail).
  destruct (Exn_eqb e' e).
  - destruct (Hh wb r w' H1 E) as (H2 & (ev2 & T2 & F2) & HQ').
    split; [assumption|]. split; [|assumption].
    exists (ev2 ++ ev1). split; [now rewrite T2, T1, app_assoc|].
    apply Forall_app. auto.
  - injection E as <- <-. split; [assumption|]. split; [eauto | assumption].
Qed.

(** A listing: never of the instance of [s0]; what it returns comes from
    the catalog. *)
Lemma yields_describe (client : RdsClient) (instance snapshot type : option string)
      (shared : bool) :
  instance <> Some (DBInstanceIdentifier s0) ->
  yields s0 anything (Rds.describe_db_snapshots client instance snapshot type shared).
Proof.
  intros Hi w r w' Hw E. apply describe_outcome in E as [-> _].
  split; [exact Hw|]. split; [|constructor].
  eexists [_]. split; [reflexivity|]. constructor; [|constructor].
  destruct instance as [i|]; cbn; [congruence | exact I].
Qed.

Lemma NoDup_map_filter {A B} (f : A -> B) (p : A -> bool) (l : list A) :
  NoDup (map f l) -> NoDup (map f (filter p l)).
Proof.
  induction l as [|x l IH]; cbn; intros H; [constructor|].
  inversion H as [|? ? Hx Hl]; subst.
  destruct (p x); cbn; [constructor|]; auto.
  intros Hin. apply Hx. apply in_map_iff in Hin as (y & Ey & Hy).
  apply filter_In in Hy as [Hy _]. apply in_map_iff. eauto.
Qed.

Lemma yields_copy (client : RdsClient) (source target kms : string) :
  yields s0 anything (Rds.copy_db_snapshot client source target kms).
Proof.
  intros w r w' [Hnd Hin] E. unfold Rds.copy_db_snapshot in E.
  assert (Hev : exists events,
             CopyDBSnapshot source target kms :: trace w = events ++ trace w /\
             Forall (spares s0) events).
  { exists [CopyDBSnapshot source target kms]. split; [reflexivity|].
    constructor; [exact I | constructor]. }
  destruct (existsb (Rds.has_identifier target) (catalog w)) eqn:Hex.
  - injection E as <- <-. split; [split; assumption|]. split; [exact Hev | constructor].
  - destruct (find (Rds.is_source source) (catalog w)) as [src|].
    + injection E as <- <-. unfold kept. cbn [catalog clock trace].
      split; [|split; [exact Hev | constructor]].
      split; [|apply in_or_app; now left].
      rewrite map_app. cbn [map Rds.new_copy DBSnapshotIdentifier].
      apply NoDup_app; [assumption | constructor; [intros [] | constructor] |].
      intros id Hid [<-|[]].
      apply in_map_iff in Hid as (x & Hx & Hxin).
      assert (existsb (Rds.has_identifier target) (catalog w) = true).
      { apply existsb_exists. exists x. split; [assumption|].
        unfold Rds.has_identifier. now apply String.eqb_eq. }
      congruence.
    + injection E as <- <-. split; [split; assumption|]. split; [exact Hev | constructor].
Qed.

Lemma yields_delete (id : string) :
  id <> DBSnapshotIdentifier s0 -> yields s0 anything (Rds.delete_db_snapshot id).
Proof.
  intros Hid w r w' [Hnd Hin] E. unfold Rds.delete_db_snapshot in E.
  assert (Hev : exists events,
             DeleteDBSnapshot id :: trace w = events ++ trace w /\
             Forall (spares s0) events).
  { exists [DeleteDBSnapshot id]. split; [reflexivity|].
    constructor; [exact Hid | constructor]. }
  destruct (existsb (Rds.has_identifier id) (catalog w)).
  - injection E as <- <-. unfold kept. cbn [catalog clock trace].
    split; [|split; [exact Hev | constructor]].
    split; [now apply NoDup_map_filter|].
    apply filter_In. split; [assumption|].
    unfold Rds.has_identifier. apply negb_true_iff, String.eqb_neq. congruence.
  - injection E as <- <-. split; [split; assumption|]. split; [exact Hev | constructor].
Qed.

Lemma NoDup_map_injective {A B} (f : A -> B) (l : list A) (a b : A) :
  NoDup (map f l) -> In a l -> In b l -> f a = f b -> a = b.
Proof.
  induction l as [|x l IH]; cbn; intros H Ha Hb E; [contradiction|].
  inversion H as [|? ? Hx Hl]; subst.
  destruct Ha as [->|Ha], Hb as [->|Hb]; auto.
  - elim Hx. rewrite E. now apply in_map.
  - elim Hx. rewrite <- E. now apply in_map.
Qed.

(** The manual snapshots of another instance have other identifiers. *)
Lemma yields_describe_other (client : RdsClient) (db : string)
      (snapshot type : option string) (shared : bool) :
  db <> DBInstanceIdentifier s0 ->
  yields s0 (fun l => forall x, In x l -> DBSnapshotIdentifier x <> DBSnapshotIdentifier s0)
         (Rds.describe_db_snapshots client (Some db) snapshot type shared).
Proof.
  intros Hdb w r w' Hw E.
  destruct (yields_describe client (Some db) snapshot type shared
                            ltac:(congruence) w r w' Hw E) as (H1 & H2 & _).
  split; [assumption|]. split; [assumption|].
  apply describe_outcome in E as [_ [->|[-> _]]]; [|discriminate].
  intros l [= <-] x Hx.
  unfold Rds.listing in Hx. apply in_map_iff in Hx as (c & <- & Hc).
  apply filter_In in Hc as [Hc Hsel]. cbn [Rds.refresh DBSnapshotIdentifier].
  intros Eid. destruct Hw as [Hnd Hin].
  assert (c = s0) by (eapply NoDup_map_injective; eauto). subst c.
  unfold Rds.selected in Hsel. cbn [Rds.matches_filter] in Hsel.
  apply andb_prop in Hsel as [Hsel _]. apply andb_prop in Hsel as [Hsel _].
  apply String.eqb_eq in Hsel. congruence.
Qed.

Lemma oldest_scan_In (l : list Snapshot) :
  forall acc o,
    Shared.oldest_scan acc l = inr (Some o) -> acc = Some o \/ In o l.
Proof.
  induction l as [|x l IH]; cbn [Shared.oldest_scan]; intros acc o H.
  - left. congruence.
  - destruct (Shared.oldest_step acc x) as [e|acc'] eqn:Es; [discriminate|].
    destruct (IH _ _ H) as [->|Hin]; [|right; now right].
    unfold Shared.oldest_step in Es.
    destruct (negb (is_recrypted x)); [left; congruence|].
    destruct acc as [a|].
    + destruct (SnapshotCreateTime x) as [t|]; [|discriminate].
      destruct (SnapshotCreateTime a) as [t0|]; [|discriminate].
      injection Es as Es. destruct (t <? t0)%Z; [right; left | left]; congruence.
    + destruct (SnapshotCreateTime x) as [t|]; [|discriminate].
      injection Es as Es. destruct (t <? t)%Z; right; left; congruence.
Qed.

Lemma yields_get_oldest (client : RdsClient) (db : string) :
  db <> DBInstanceIdentifier s0 ->
  yields s0 (fun o => DBSnapshotIdentifier o <> DBSnapshotIdentifier s0)
         (Shared.get_oldest_manual_recrypted_rds_snapshots client db).
Proof.
  intros Hdb. unfold Shared.get_oldest_manual_recrypted_rds_snapshots.
  eapply yields_bind; [apply yields_print_format|]. intros _ _.
  eapply yields_bind; [now apply yields_describe_other|]. intros l Hl.
  eapply yields_bind with (Q := fun acc => forall o, acc = Some o ->
                               DBSnapshotIdentifier o <> DBSnapshotIdentifier s0).
  - apply yields_lift. intros acc Hacc o ->.
    apply oldest_scan_In in Hacc as [[=]|Hin]. now apply Hl.
  - intros [o|] Ho; [|apply yields_raise].
    eapply yields_bind; [apply yields_print_format|]. intros _ _.
    apply yields_ret. now apply Ho.
Qed.

Lemma yields_wait_loop (client : RdsClient) (snapshot : Snapshot) (steps : nat) :
  forall p, yields s0 anything (Shared.wait_loop steps client snapshot p).
Proof.
  induction steps as [|steps IH]; intros p; cbn [Shared.wait_loop].
  - apply yields_out_of_steps.
  - eapply yields_bind; [apply yields_describe; discriminate|]. intros l _.
    eapply yields_bind with (Q := anything);
      [apply yields_first_item; intros; exact I|]. intros c _.
    destruct (String.eqb (Status c) "available"); [apply yields_print_format|].
    eapply yields_bind with (Q := anything).
    + destruct (negb _); [|now apply yields_ret].
      eapply yields_bind; [apply yields_print_format|]. intros _ _.
      now apply yields_ret.
    + intros p' _. eapply yields_bind; [apply yields_sleep|]. intros _ _. apply IH.
Qed.

Lemma yields_copy_shared (client : RdsClient) (shared : Snapshot) (kms : string) :
  yields s0 anything (Importer.copy_shared_snapshot_to_local client shared kms).
Proof.
  unfold Importer.copy_shared_snapshot_to_local.
  eapply yields_bind with (Q := anything); [apply yields_lift; intros; exact I|].
  intros target _.
  eapply yields_bind; [apply yields_print_format|]. intros _ _.
  apply yields_try.
  - eapply yields_bind; [apply yields_copy|]. intros copy _.
    eapply yields_bind; [apply yields_print|]. intros _ _. now apply yields_ret.
  - eapply yields_bind; [apply yields_print_format|]. intros _ _.
    eapply yields_bind; [apply yields_describe; discriminate|]. intros l _.
    eapply yields_bind; [apply yields_print|]. intros _ _.
    apply yields_first_item. intros; exact I.
Qed.

Lemma dict_set_keys (d : Dict.t) (key : string) (value : Z) (k : string) :
  In k (Dict.keys (Dict.set d key value)) <-> In k (Dict.keys d) \/ k = key.
Proof.
  unfold Dict.keys. induction d as [|[k0 v0] d IH]; cbn.
  - split; [intros [<-|[]]; auto | intros [[]| ->]; auto].
  - destruct (String.eqb_spec k0 key) as [->|Hne]; cbn.
    + split; [tauto | intros [H| ->]; auto].
    + rewrite IH. tauto.
Qed.

Lemma yields_copy_all (steps : nat) (client : RdsClient) (cfg : Config)
      (l : list Snapshot) :
  forall count owned,
    yields s0 (fun result =>
                 forall k, In k (Dict.keys (snd result)) ->
                           In k (Dict.keys owned) \/
                           In k (map DBInstanceIdentifier
                                     (filter Importer.is_shared_recrypted l)))
           (Importer.copy_all steps client cfg l count owned).
Proof.
  induction l as [|x l IH]; intros count owned; cbn [Importer.copy_all].
  - apply yields_ret. auto.
  - cbn [filter]. destruct (Importer.is_shared_recrypted x); cbn [negb].
    + eapply yields_bind; [apply yields_copy_shared|]. intros copy _.
      eapply yields_bind; [apply yields_wait_loop|]. intros _ _.
      eapply yields_weaken; [|apply IH].
      cbn beta. intros result H k Hk. destruct (H k Hk) as [Hin|Hin].
      * apply dict_set_keys in Hin as [Hin| ->]; [now left|].
        right. now left.
      * right. now right.
    + apply IH.
Qed.

Lemma yields_owned_count (client : RdsClient) (db : string) :
  db <> DBInstanceIdentifier s0 ->
  yields s0 anything (Importer.get_owned_rds_snapshots_count client db).
Proof.
  intros Hdb. unfold Importer.get_owned_rds_snapshots_count.
  eapply yields_bind; [apply yields_print_format|]. intros _ _.
  eapply yields_bind; [apply yields_describe; congruence|]. intros l _.
  eapply yields_bind; [apply yields_print_format|]. intros _ _.
  now apply yields_ret.
Qed.

Lemma yields_importer_prune (client : RdsClient) (db : string) (steps : nat) :
  db <> DBInstanceIdentifier s0 ->
  yields s0 anything (Importer.prune steps client db).
Proof.
  intros Hdb. induction steps as [|steps IH]; cbn [Importer.prune].
  - apply yields_out_of_steps.
  - eapply yields_bind; [now apply yields_owned_count|]. intros count _.
    destruct (count >? 2)%Z; [|now apply yields_ret].
    eapply yields_bind; [now apply yields_get_oldest|]. intros o Ho.
    eapply yields_bind; [apply yields_print_format|]. intros _ _.
    eapply yields_bind; [now apply yields_delete|]. intros _ _.
    eapply yields_bind; [apply yields_sleep|]. intros _ _.
    exact IH.
Qed.

Lemma yields_prune_all (client : RdsClient) (steps : nat) (keys : list string) :
  ~ In (DBInstanceIdentifier s0) keys ->
  yields s0 anything (Importer.prune_all steps client keys).
Proof.
  induction keys as [|k keys IH]; intros Hk; cbn [Importer.prune_all].
  - now apply yields_ret.
  - eapply yields_bind.
    + apply yields_importer_prune. intros ->. apply Hk. now left.
    + intros _ _. apply IH. intros H. apply Hk. now right.
Qed.

Lemma yields_importer_report (cfg : Config) (ready : Z) :
  yields s0 anything (Importer.report cfg ready).
Proof.
  unfold Importer.report. destruct (negb _); [|apply yields_print].
  eapply yields_bind with (Q := anything); [apply yields_lift; intros; exact I|].
  intros message _.
  eapply yields_bind; [apply yields_print|]. intros _ _.
  eapply yields_bind with (Q := anything).
  - destruct (_ && _); [apply yields_publish | now apply yields_ret].
  - intros _ _. apply yields_exit.
Qed.

End Spared.

(** A listing that names no snapshot always has its answer. *)
Lemma bind_describe {B} (client : RdsClient) (instance type : option string)
      (shared : bool) (k : list Snapshot -> M B) (w : World) :
  bind (Rds.describe_db_snapshots client instance None type shared) k w
  = k (Rds.listing client instance None type shared w)
      {| catalog := catalog w; clock := clock w;
         trace := DescribeDBSnapshots instance None type shared :: trace w |}.
Proof. reflexivity. Qed.

Lemma copy_all_skips (steps : nat) (client : RdsClient) (cfg : Config)
      (l : list Snapshot) (count : Z) (owned : Dict.t) (w : World) :
  (forall s, In s l -> Importer.is_shared_recrypted s = false) ->
  Importer.copy_all steps client cfg l count owned w = (Ok (count, owned), w).
Proof.
  induction l as [|x l IH]; intros H; cbn [Importer.copy_all]; [reflexivity|].
  rewrite (H x (or_introl eq_refl)). cbn [negb]. apply IH.
  intros s Hs. apply H. now right.
Qed.

(** C9.  The importer where nothing is shared with the account.  The guard
    of lines 50-52 tests the whole answer of
    [describe_db_snapshots(IncludeShared=True)], which holds the account's
    own snapshots too.  On an account that has snapshots of its own, none
    of them shared and none named like a shared one, the guard lets the
    run pass: it copies nothing, prunes nothing and goes to the run
    validator with the count 0; with [EXPECTED_SNAPSHOT_COUNT] 0 it prints
    its closing line and ends with status 0, not 1. *)
Theorem importer_guard_passes_own_snapshots
        (steps : nat) (client : RdsClient) (cfg : Config) (w : World) :
  Re.kms_key_arn_ok (KMS_KEY_ARN cfg) = true ->
  Rds.listing client None None None true w <> [] ->
  (forall s, In s (Rds.listing client None None None true w) ->
             SnapshotType s <> "shared" /\ Importer.is_shared_recrypted s = false) ->
  let listed := {| catalog := catalog w; clock := clock w;
                   trace := DescribeDBSnapshots None None None true :: trace w |} in
  Importer.main steps client cfg w = Importer.report cfg 0 listed /\
  (EXPECTED_SNAPSHOT_COUNT cfg = 0%Z ->
   Importer.main steps client cfg w
   = (Ok tt, {| catalog := catalog w; clock := clock w;
                trace := Print "Shared RDS snapshot copying completed successfully, exiting"
                         :: DescribeDBSnapshots None None None true :: trace w |}) /\
   exit_status (fst (Importer.main steps client cfg w)) = Some 0%Z).
Proof.
  intros Hkms Hne Hown listed.
  assert (E : Importer.main steps client cfg w = Importer.report cfg 0 listed).
  { unfold Importer.main. rewrite Hkms. cbn [negb]. rewrite bind_describe.
    destruct (Rds.listing client None None None true w) as [|x l] eqn:El; [congruence|].
    unfold bind at 1. rewrite copy_all_skips by (intros s Hs; now apply Hown).
    reflexivity. }
  split; [exact E|].
  intros H0. rewrite E. unfold Importer.report. rewrite H0. cbn. auto.
Qed.

Lemma importer_guard_passes_own_snapshots_witness :
  let w := Sample.world [Sample.snap "db2-before-upgrade" "db2" "manual" (Some 1%Z)] in
  Importer.main 5 Sample.steady (Sample.config 0) w
  = (Ok tt, {| catalog := catalog w; clock := 0;
               trace := [Print "Shared RDS snapshot copying completed successfully, exiting";
                         DescribeDBSnapshots None None None true] |}).
Proof.
  intros w.
  destruct (importer_guard_passes_own_snapshots 5 Sample.steady (Sample.config 0) w)
    as (_ & H).
  - reflexivity.
  - discriminate.
  - intros s [<-|[]]. split; [discriminate | reflexivity].
  - destruct (H eq_refl) as (E & _). exact E.
Defined.

(** C10.  The importer prunes only the instances of the shared snapshots
    it copies.  A snapshot of the catalog whose instance is not the instance
    of any listed snapshot that passes the importer's filter (those are the
    keys the copy phase accumulates) is still in the catalog when the run
    ends, however it ends; and the run has neither listed the manual
    snapshots of that instance (so it has not counted them) nor requested
    the deletion of that snapshot. *)
Theorem importer_prunes_only_copied_instances
        (steps : nat) (client : RdsClient) (cfg : Config) (w w' : World)
        (r : Res unit) (other : Snapshot) :
  NoDup (map DBSnapshotIdentifier (catalog w)) ->
  In other (catalog w) ->
  ~ In (DBInstanceIdentifier other)
       (map DBInstanceIdentifier
            (filter Importer.is_shared_recrypted
                    (Rds.listing client None None None true w))) ->
  Importer.main steps client cfg w = (r, w') ->
  In other (catalog w') /\
  exists events, trace w' = events ++ trace w /\ Forall (spares other) events.
Proof.
  intros Hnd Hin Hother E. unfold Importer.main in E.
  destruct (negb (Re.kms_key_arn_ok (KMS_KEY_ARN cfg))).
  - run_monad_in E. injection E as <- <-. split; [assumption|].
    eexists [_]. split; [reflexivity|]. constructor; [exact I | constructor].
  - rewrite bind_describe in E.
    destruct (Rds.listing client None None None true w) as [|x l] eqn:El.
    + run_monad_in E. injection E as <- <-. split; [assumption|].
      eexists [_; _]. split; [reflexivity|].
      repeat (constructor; [exact I|]). constructor.
    + match type of E with ?m ?w1 = _ =>
        assert (Hy : yields other anything m);
        [| destruct (Hy w1 r w' (conj Hnd Hin) E) as ((_ & Hin') & (events & T & F) & _)]
      end.
      * eapply yields_bind; [apply yields_copy_all|]. intros copied Hkeys.
        eapply yields_bind; [|intros _ _; apply yields_importer_report].
        apply yields_prune_all. intros Hk.
        apply Hkeys in Hk as [[]|Hk]. now apply Hother.
      * split; [assumption|]. cbn [trace] in T.
        exists (events ++ [DescribeDBSnapshots None None None true]).
        split; [now rewrite <- app_assoc|].
        apply Forall_app. split; [assumption|]. constructor; [exact I | constructor].
Qed.

Lemma importer_prunes_only_copied_instances_witness :
  let other := Sample.snap "db2-c-recrypted-copy" "db2" "manual" (Some 3%Z) in
  let w := Sample.world
             [Sample.shared_snap "db1-2024-05-01-03-10-recrypted" "db1" (Some 6%Z);
              Sample.snap "db2-a-recrypted-copy" "db2" "manual" (Some 1%Z);
              Sample.snap "db2-b-recrypted-copy" "db2" "manual" (Some 2%Z);
              other] in
  In other (catalog (snd (Importer.main 5 Sample.steady (Sample.config 1) w))).
Proof.
  intros other w.
  refine (proj1 (importer_prunes_only_copied_instances
                   5 Sample.steady (Sample.config 1) w
                   (snd (Importer.main 5 Sample.steady (Sample.config 1) w))
                   (fst (Importer.main 5 Sample.steady (Sample.config 1) w))
                   other _ _ _ _)).
  - repeat constructor; cbn; intuition discriminate.
  - cbn. tauto.
  - vm_compute. intros [H|[]]. discriminate H.
  - now destruct (Importer.main 5 Sample.steady (Sample.config 1) w).
Defined.

(** ** Pruning *)

Section ExporterPrune.

Variables (client : RdsClient) (db : string).

Lemma is_recrypted_refresh (now : Z) (s : Snapshot) :
  is_recrypted (Rds.refresh client now s) = is_recrypted s.
Proof. reflexivity. Qed.

Lemma filter_map_refresh (now : Z) (l : list Snapshot) :
  filter is_recrypted (map (Rds.refresh client now) l)
  = map (Rds.refresh client now) (filter is_recrypted l).
Proof.
  induction l as [|x l IH]; [reflexivity|].
  cbn [map filter]. rewrite is_recrypted_refresh.
  destruct (is_recrypted x); cbn [map]; now rewrite IH.
Qed.

Lemma filter_filter {A} (p q : A -> bool) (l : list A) :
  filter q (filter p l) = filter (fun x => p x && q x) l.
Proof.
  induction l as [|x l IH]; [reflexivity|].
  cbn [filter]. destruct (p x); cbn [filter andb]; [destruct (q x)|]; now rewrite IH.
Qed.

Lemma listing_retained (w : World) :
  filter is_recrypted (Rds.listing client (Some db) None (Some "manual") false w)
  = map (Rds.refresh client (clock w)) (retained db w).
Proof.
  unfold Rds.listing, retained. now rewrite filter_map_refresh, filter_filter.
Qed.

Lemma count_runs (w : World) :
  exists lines,
    Exporter.get_manual_recrypted_rds_snapshots_count client db w
    = (Ok (Z.of_nat (length (retained db w))),
       {| catalog := catalog w; clock := clock w; trace := lines ++ trace w |}) /\
    deletions lines = [].
Proof.
  unfold Exporter.get_manual_recrypted_rds_snapshots_count.
  run_format. unfold Rds.describe_db_snapshots. run_monad.
  fold (Rds.listing client (Some db) None (Some "manual") false w).
  rewrite listing_retained, length_map.
  eexists [_; _; _]. split; reflexivity.
Qed.

(** The oldest finder on an account whose retained snapshots carry their
    timestamps: it returns (the current report of) a retained snapshot that
    is not later than any retained snapshot. *)
Lemma oldest_of_retained (w : World) :
  retained db w <> [] ->
  (forall s, In s (retained db w) -> SnapshotCreateTime s <> None) ->
  exists c lines,
    In c (retained db w) /\
    (forall s, In s (retained db w) -> not_later c s) /\
    Shared.get_oldest_manual_recrypted_rds_snapshots client db w
    = (Ok (Rds.refresh client (clock w) c),
       {| catalog := catalog w; clock := clock w; trace := lines ++ trace w |}) /\
    deletions lines = [].
Proof.
  intros Hne Ht.
  set (l := Rds.listing client (Some db) None (Some "manual") false w).
  assert (Hret : forall x, In x l -> is_recrypted x = true ->
                           exists c, In c (retained db w) /\ x = Rds.refresh client (clock w) c).
  { intros x Hx Hk.
    assert (Hf : In x (filter is_recrypted l)) by (apply filter_In; auto).
    unfold l in Hf. rewrite listing_retained in Hf.
    apply in_map_iff in Hf as (c & <- & Hc). eauto. }
  destruct (oldest_scan_first_oldest l) as (o & Ho & Hfirst).
  - destruct (retained db w) as [|c rest] eqn:E; [congruence|].
    exists (Rds.refresh client (clock w) c).
    assert (Hin : In (Rds.refresh client (clock w) c) (filter is_recrypted l)).
    { unfold l. rewrite listing_retained, E. now left. }
    apply filter_In in Hin. exact Hin.
  - intros x Hx Hk. destruct (Hret x Hx Hk) as (c & Hc & ->).
    cbn [Rds.refresh SnapshotCreateTime]. now apply Ht.
  - destruct Hfirst as (before & after & t0 & El & Hko & Hto & Hb & Ha).
    assert (Hino : In o l) by (rewrite El; apply in_or_app; right; now left).
    destruct (Hret o Hino Hko) as (c & Hc & ->).
    destruct (get_oldest_runs client db w _ Ho) as (lines & E & Hlines).
    exists c, lines. split; [assumption|]. split; [|split; [exact E|]].
    + intros s Hs ta tb Hta Htb.
      cbn [Rds.refresh SnapshotCreateTime] in Hto.
      assert (ta = t0) by congruence. subst ta.
      assert (Hs' : In (Rds.refresh client (clock w) s) (filter is_recrypted l)).
      { unfold l. rewrite listing_retained. now apply in_map. }
      apply filter_In in Hs' as [Hs' Hks]. rewrite El in Hs'.
      apply in_app_or in Hs' as [Hs'|[Hs'|Hs']].
      * specialize (Hb _ tb Hs' Hks Htb). lia.
      * apply (f_equal SnapshotCreateTime) in Hs'.
        cbn [Rds.refresh SnapshotCreateTime] in Hs'.
        assert (tb = t0) by congruence. lia.
      * exact (Ha _ tb Hs' Hks Htb).
    + clear - Hlines. induction Hlines as [|e lines [->|[line ->]] _ IH]; cbn; auto.
Qed.

Lemma delete_runs (c : Snapshot) (w : World) :
  In c (catalog w) ->
  Rds.delete_db_snapshot (DBSnapshotIdentifier c) w
  = (Ok tt,
     {| catalog := filter (fun s => negb (Rds.has_identifier (DBSnapshotIdentifier c) s))
                          (catalog w);
        clock := clock w;
        trace := DeleteDBSnapshot (DBSnapshotIdentifier c) :: trace w |}).
Proof.
  intros Hc. unfold Rds.delete_db_snapshot.
  replace (existsb _ (catalog w)) with true; [reflexivity|].
  symmetry. apply existsb_exists. exists c. split; [assumption|].
  unfold Rds.has_identifier. apply String.eqb_refl.
Qed.

Lemma in_without (c : Snapshot) (l : list Snapshot) (s : Snapshot) :
  NoDup (map DBSnapshotIdentifier l) -> In c l ->
  In s (filter (fun s => negb (Rds.has_identifier (DBSnapshotIdentifier c) s)) l)
  <-> In s l /\ s <> c.
Proof.
  intros Hnd Hc. rewrite filter_In. unfold Rds.has_identifier.
  rewrite negb_true_iff, String.eqb_neq. split; intros [Hs Hne]; split; auto.
  - congruence.
  - intros E. apply Hne. eapply NoDup_map_injective; eauto.
Qed.


Lemma filter_all {A} (p : A -> bool) (l : list A) :
  (forall x, In x l -> p x = true) -> filter p l = l.
Proof.
  induction l as [|x l IH]; intros H; [reflexivity|].
  cbn [filter]. rewrite (H x (or_introl eq_refl)). f_equal.
  apply IH. intros y Hy. apply H. now right.
Qed.

Lemma length_without (c : Snapshot) (l : list Snapshot) :
  NoDup (map DBSnapshotIdentifier l) -> In c l ->
  S (length (without c l)) = length l.
Proof.
  unfold without. induction l as [|x l IH]; cbn [map filter In length]; intros Hnd Hc;
    [contradiction|].
  inversion Hnd as [|? ? Hx Hl]; subst.
  unfold Rds.has_identifier at 1.
  destruct (String.eqb_spec (DBSnapshotIdentifier x) (DBSnapshotIdentifier c)) as [E|E];
    cbn [negb length].
  - f_equal. rewrite filter_all; [reflexivity|].
    intros y Hy. unfold Rds.has_identifier. apply negb_true_iff, String.eqb_neq.
    intros E'. apply Hx. rewrite E, <- E'. now apply in_map.
  - destruct Hc as [->|Hc]; [congruence|]. f_equal. now apply IH.
Qed.

Lemma retained_without (c : Snapshot) (w w1 : World) :
  catalog w1 = without c (catalog w) ->
  retained db w1 = without c (retained db w).
Proof.
  intros E. unfold retained, without in *. rewrite E, !filter_filter.
  apply filter_ext. intros s. apply andb_comm.
Qed.

Lemma retained_in_catalog (w : World) (s : Snapshot) :
  In s (retained db w) -> In s (catalog w).
Proof. unfold retained. intros H. now apply filter_In in H. Qed.

Lemma deletions_app (a b : list Event) :
  deletions (a ++ b) = deletions a ++ deletions b.
Proof.
  induction a as [|e a IH]; [reflexivity|].
  destruct e; cbn [app deletions]; rewrite ?IH; reflexivity.
Qed.

Lemma exporter_prune_turn (k : nat) (w : World) :
  (forall s, In s (retained db w) -> SnapshotCreateTime s <> None) ->
  2 < length (retained db w) ->
  exists c w1 lines,
    In c (retained db w) /\
    (forall s, In s (retained db w) -> not_later c s) /\
    catalog w1 = without c (catalog w) /\
    trace w1 = lines ++ trace w /\
    deletions lines = [DBSnapshotIdentifier c] /\
    Exporter.prune (S k) client db w = Exporter.prune k client db w1.
Proof.
  intros Ht Hn.
  destruct (count_runs w) as (l1 & E1 & D1).
  set (w0 := {| catalog := catalog w; clock := clock w; trace := l1 ++ trace w |}) in *.
  destruct (oldest_of_retained w0) as (c & l2 & Hc & Hmin & E2 & D2).
  { change (retained db w0) with (retained db w). intros E. rewrite E in Hn. cbn in Hn. lia. }
  { exact Ht. }
  change (retained db w0) with (retained db w) in *.
  eexists c, _, (Sleep 1 :: DeleteDBSnapshot (DBSnapshotIdentifier c) :: Print _ :: l2 ++ l1).
  split; [assumption|]. split; [assumption|].
  split; [|split; [|split]]; cycle 3.
  - cbn [Exporter.prune]. unfold bind at 1. rewrite E1.
    replace (Z.of_nat (length (retained db w)) >? 2)%Z with true
      by (symmetry; apply Z.gtb_lt; lia).
    unfold bind at 1. unfold Exporter.get_oldest_manual_recrypted_rds_snapshots.
    rewrite E2. unfold bind at 1. run_format. unfold print, emit.
    unfold bind at 1. cbn [Rds.refresh DBSnapshotIdentifier].
    rewrite delete_runs by (cbn [catalog]; now apply retained_in_catalog).
    unfold bind at 1, sleep. cbn [catalog clock trace]. reflexivity.
  - reflexivity.
  - unfold w0. cbn [trace app]. now rewrite app_assoc.
  - cbn [deletions]. f_equal.
    now rewrite deletions_app, D1, D2.
Qed.


Lemma exporter_prune_done (steps : nat) (w : World) :
  length (retained db w) <= 2 ->
  exists lines,
    Exporter.prune (S steps) client db w
    = (Ok tt, {| catalog := catalog w; clock := clock w; trace := lines ++ trace w |}) /\
    deletions lines = [].
Proof.
  intros Hn. destruct (count_runs w) as (l1 & E1 & D1).
  exists l1. split; [|assumption].
  cbn [Exporter.prune]. unfold bind. rewrite E1.
  replace (Z.of_nat (length (retained db w)) >? 2)%Z with false; [reflexivity|].
  symmetry. rewrite Z.gtb_ltb. apply Z.ltb_ge. lia.
Qed.

Lemma retained_subset (w w' : World) (s : Snapshot) :
  (forall x, In x (catalog w') -> In x (catalog w)) ->
  In s (retained db w') -> In s (retained db w).
Proof.
  unfold retained. intros H Hs. apply filter_In in Hs as [Hs Hp].
  apply filter_In. auto.
Qed.

(** The exporter's pruning loop converges.  On an account whose snapshot
    identifiers are unique and whose retained snapshots of the instance
    carry their timestamps, the loop ends normally once it has as many turns
    as there are retained snapshots beyond two: it has requested exactly
    the deletions of [deleted], which are that many retained snapshots; the
    catalog is the old one without them; [min N 2] snapshots are retained;
    and no deleted snapshot is later than a retained one. *)
Lemma exporter_prune_converges (steps : nat) :
  forall w : World,
    NoDup (map DBSnapshotIdentifier (catalog w)) ->
    (forall s, In s (retained db w) -> SnapshotCreateTime s <> None) ->
    length (retained db w) - 2 <= steps ->
    exists w' deleted events,
      Exporter.prune (S steps) client db w = (Ok tt, w') /\
      trace w' = events ++ trace w /\
      deletions events = rev (map DBSnapshotIdentifier deleted) /\
      length deleted = length (retained db w) - 2 /\
      incl deleted (retained db w) /\
      (forall s, In s (catalog w') <-> In s (catalog w) /\ ~ In s deleted) /\
      length (retained db w') = Nat.min (length (retained db w)) 2 /\
      (forall d s, In d deleted -> In s (retained db w') -> not_later d s).
Proof.
  induction steps as [|steps IH]; intros w Hnd Ht Hn.
  - destruct (exporter_prune_done 0 w ltac:(lia)) as (lines & E & D).
    eexists _, [], lines. split; [exact E|]. cbn [catalog trace].
    split; [reflexivity|]. split; [exact D|]. split; [cbn; lia|].
    split; [intros ? []|]. split; [tauto|].
    split; [change (retained db _) with (retained db w); lia | intros ? ? []].
  - destruct (Nat.le_gt_cases (length (retained db w)) 2) as [Hle|Hgt].
    + destruct (exporter_prune_done (S steps) w Hle) as (lines & E & D).
      eexists _, [], lines. split; [exact E|]. cbn [catalog trace].
      split; [reflexivity|]. split; [exact D|]. split; [cbn; lia|].
      split; [intros ? []|]. split; [tauto|].
      split; [change (retained db _) with (retained db w); lia | intros ? ? []].
    + destruct (exporter_prune_turn (S steps) w Ht Hgt)
        as (c & w1 & lines & Hc & Hmin & Hcat & Htr & Hdel & E).
      assert (Hcin : In c (catalog w)) by now apply retained_in_catalog.
      assert (Hret1 : retained db w1 = without c (retained db w))
        by now apply retained_without.
      assert (Hndr : NoDup (map DBSnapshotIdentifier (retained db w)))
        by (unfold retained; now apply NoDup_map_filter).
      pose proof (length_without c (retained db w) Hndr Hc) as Hlen.
      rewrite <- Hret1 in Hlen.
      assert (Hsub : forall x, In x (catalog w1) -> In x (catalog w)).
      { intros x Hx. rewrite Hcat in Hx. unfold without in Hx.
        now apply filter_In in Hx. }
      destruct (IH w1) as (w' & deleted & events & E' & Htr' & Hdel' & Hlen' & Hincl
                           & Hiff & Hkeep & Hlater).
      { rewrite Hcat. now apply NoDup_map_filter. }
      { intros s Hs. apply Ht. eapply retained_subset; eauto. }
      { lia. }
      exists w', (c :: deleted), (events ++ lines).
      split; [now rewrite E|]. split; [now rewrite Htr', Htr, app_assoc|].
      split; [rewrite deletions_app, Hdel', Hdel; reflexivity|].
      split; [cbn [length]; lia|]. split; [|split; [|split]].
      * intros d [<-|Hd]; [assumption|]. apply Hincl in Hd.
        eapply retained_subset; eauto.
      * intros s. rewrite Hiff, Hcat. unfold without.
        rewrite (in_without c (catalog w) s Hnd Hcin). cbn [In]. split.
        -- intros [[Hs Hne] Hnot]. split; [assumption|]. intros [<-|Hd]; auto.
        -- intros [Hs Hnot]. split; [split; [assumption|]|]; intros H; apply Hnot; auto.
      * rewrite Hkeep. lia.
      * intros d s [<-|Hd] Hs; [|now apply Hlater].
        apply Hmin. eapply retained_subset; [|exact Hs].
        intros x Hx. apply Hiff in Hx as [Hx _]. auto.
Qed.

End ExporterPrune.

Example exporter_prune_sample :
  let w := Sample.world
             [Sample.snap "db1-2024-05-03-recrypted" "db1" "manual" (Some 3%Z);
              Sample.snap "db1-2024-05-01-recrypted" "db1" "manual" (Some 1%Z);
              Sample.snap "db1-before-upgrade" "db1" "manual" (Some 0%Z);
              Sample.snap "db1-2024-05-04-recrypted" "db1" "manual" (Some 4%Z);
              Sample.snap "db1-2024-05-02-recrypted" "db1" "manual" (Some 2%Z)] in
  let run := Exporter.prune 3 Sample.steady "db1" w in
  fst run = Ok tt /\
  map DBSnapshotIdentifier (catalog (snd run))
  = ["db1-2024-05-03-recrypted"; "db1-before-upgrade"; "db1-2024-05-04-recrypted"] /\
  deletions (trace (snd run))
  = ["db1-2024-05-02-recrypted"; "db1-2024-05-01-recrypted"].
Proof. vm_compute. repeat split. Qed.

(** C2.  The importer's pruning loop on an instance with the manual
    snapshots [db1-2024-04-30-recrypted] (timestamp 1) and
    [db1-2024-05-01-recrypted-copy], [db1-2024-05-02-recrypted-copy],
    [db1-2024-05-03-recrypted-copy] (timestamps 2, 3, 4).  The counter
    counts the three identifiers containing ["recrypted-copy"]; the loop
    ends with two of them left, after deleting first
    [db1-2024-04-30-recrypted], which the counter does not count, and then
    the oldest counted snapshot. *)
Theorem importer_prune_deletes_uncounted_snapshot :
  let stray := Sample.snap "db1-2024-04-30-recrypted" "db1" "manual" (Some 1%Z) in
  let a := Sample.snap "db1-2024-05-01-recrypted-copy" "db1" "manual" (Some 2%Z) in
  let b := Sample.snap "db1-2024-05-02-recrypted-copy" "db1" "manual" (Some 3%Z) in
  let c := Sample.snap "db1-2024-05-03-recrypted-copy" "db1" "manual" (Some 4%Z) in
  let w := Sample.world [stray; a; b; c] in
  let run := Importer.prune 5 Sample.steady "db1" w in
  Importer.is_owned_copy stray = false /\
  filter Importer.is_owned_copy (catalog w) = [a; b; c] /\
  fst run = Ok tt /\
  catalog (snd run) = [b; c] /\
  deletions (trace (snd run))
  = ["db1-2024-05-01-recrypted-copy"; "db1-2024-04-30-recrypted"].
Proof. vm_compute. repeat split. Qed.

(** * Further properties *)

(** ** The patterns of the configuration checks *)

Section ConfigurationPatterns.

Lemma digits_inv_length (n : nat) (s r : string) :
  Re.digits n s = Some r ->
  exists d, s = (d ++ r)%string /\ all_digits d /\ String.length d = n.
Proof.
  revert s. induction n as [|n IH]; simpl; intros s H.
  - exists "". repeat split. simpl. congruence.
  - destruct s as [|c s]; [discriminate|].
    destruct (Py.is_digit c) eqn:Hc; [|discriminate].
    destruct (IH _ H) as (d & -> & Hd & Hl).
    exists (String c d). split; [reflexivity|]. split; [|simpl; congruence].
    unfold all_digits. simpl. now rewrite Hc.
Qed.

Lemma at_end_inv (s : string) : Re.at_end s = true <-> optional_newline s.
Proof.
  unfold optional_newline. destruct s as [|c [|d s]]; simpl.
  - tauto.
  - unfold Re.is_newline. split.
    + intros H. apply Ascii.eqb_eq in H. subst. now right.
    + intros [H|H]; [discriminate|]. injection H as ->. reflexivity.
  - split; [discriminate | intros [H|H]; discriminate].
Qed.

Lemma dot_star_inv_newline_free (tail : string -> option string) (s r : string) :
  Re.dot_star tail s = Some r ->
  exists a b, s = (a ++ b)%string /\ newline_free a /\ tail b = Some r.
Proof.
  induction s as [|c s IH]; simpl; intros H.
  - exists "", "". repeat split. exact H.
  - destruct (Re.is_newline c) eqn:Hc.
    + exists "", (String c s). repeat split. exact H.
    + destruct (Re.dot_star tail s) as [x|] eqn:E.
      * injection H as ->. destruct (IH eq_refl) as (a & b & -> & Ha & Hb).
        exists (String c a), b. split; [reflexivity|]. split; [|assumption].
        unfold newline_free in *. simpl. now rewrite Hc.
      * exists "", (String c s). repeat split. exact H.
Qed.

Lemma dot_star_complete (tail : string -> option string) (a b r : string) :
  newline_free a -> tail b = Some r ->
  exists r', Re.dot_star tail (a ++ b) = Some r'.
Proof.
  unfold newline_free. intros Ha Hb. induction a as [|c a IH].
  - cbn [append]. destruct b as [|d b]; cbn [Re.dot_star]; [eauto|].
    destruct (if Re.is_newline d then None else Re.dot_star tail b); eauto.
  - simpl in Ha. apply andb_prop in Ha as [Hc Ha]. apply negb_true_iff in Hc.
    destruct (IH Ha) as (r' & E). exists r'.
    cbn [append Re.dot_star]. now rewrite Hc, E.
Qed.

Lemma key_chars_span (s : string) :
  exists k, s = (k ++ Re.key_chars s)%string /\ key_chars_only k.
Proof.
  induction s as [|c s IH].
  - exists "". split; reflexivity.
  - destruct IH as (k & E & Hk). cbn [Re.key_chars]. destruct (Re.is_key_char c) eqn:Hc.
    + exists (String c k). split; [cbn; now rewrite <- E|].
      unfold key_chars_only in *. simpl. now rewrite Hc.
    + exists "". split; reflexivity.
Qed.

Lemma key_chars_length (s : string) :
  String.length (Re.key_chars s) <= String.length s.
Proof.
  induction s as [|c s IH]; cbn; [lia|].
  destruct (Re.is_key_char c); cbn; lia.
Qed.

Lemma key_chars_stop (key nl : string) :
  key_chars_only key -> optional_newline nl -> Re.key_chars (key ++ nl) = nl.
Proof.
  unfold key_chars_only. intros Hk Hnl. induction key as [|c key IH].
  - destruct Hnl as [->| ->]; reflexivity.
  - simpl in Hk. apply andb_prop in Hk as [Hc Hk].
    cbn [append Re.key_chars]. rewrite Hc. auto.
Qed.

End ConfigurationPatterns.

Lemma account_id_shape (s : string) :
  Re.account_id s = true <-> account_shape s.
Proof.
  unfold Re.account_id, account_shape. split.
  - destruct (Re.digits 12 s) as [r|] eqn:E; [|discriminate].
    intros H. apply at_end_inv in H.
    destruct (digits_inv_length _ _ _ E) as (d & -> & Hd & Hl).
    exists d, r. repeat split; assumption.
  - intros (d & nl & -> & Hd & Hl & Hnl).
    rewrite <- Hl, (digits_append _ _ Hd). now apply at_end_inv.
Qed.

(** X1.  The exporter's check of [TARGET_ACCOUNT], [re.match(r"^\d{12}$", _)],
    on an ASCII value: it accepts exactly the texts made of twelve digits,
    or of twelve digits and one final newline (which [$] lets pass); on
    every other value [main] prints its message and exits with status 1,
    having asked the service for nothing. *)
Theorem account_id_accepts (s : string) :
  ascii_text s ->
  (Re.account_id s = true <-> account_shape s) /\
  forall steps client cfg instances w,
    TARGET_ACCOUNT cfg = s -> ~ account_shape s ->
    Exporter.main steps client cfg instances w
    = refusal ["TARGET_ACCOUNT environment variable must be set to target AWS account id"] w.
Proof.
  intros _. split; [apply account_id_shape|].
  intros steps client cfg instances w <- Hn.
  unfold Exporter.main.
  destruct (Re.account_id (TARGET_ACCOUNT cfg)) eqn:E.
  - elim Hn. now apply account_id_shape.
  - reflexivity.
Qed.

Lemma account_id_accepts_witness :
  Re.account_id "210987654321" = true /\
  Exporter.main 5 Sample.steady
    {| AWS_DEFAULT_REGION := Some "eu-west-1"; TARGET_ACCOUNT := "21098765432";
       KMS_KEY_ARN := ""; TOPIC_ARN := ""; EXPECTED_SNAPSHOT_COUNT := 4;
       PATTERN := "ALL_INSTANCES"; debug := true |} [] (Sample.world [])
  = refusal ["TARGET_ACCOUNT environment variable must be set to target AWS account id"]
            (Sample.world []).
Proof.
  split.
  - destruct (account_id_accepts "210987654321" eq_refl) as [H _].
    apply H. exists "210987654321", "". repeat split. now left.
  - destruct (account_id_accepts "21098765432" eq_refl) as [H Hrun].
    apply Hrun; [reflexivity|]. intros Hs. apply H in Hs. discriminate Hs.
Defined.

Lemma kms_key_arn_ok_shape (s : string) :
  Re.kms_key_arn_ok s = true <-> kms_key_arn_shape s.
Proof.
  unfold Re.kms_key_arn_ok, kms_key_arn_shape. split.
  - destruct (Re.and_then _ _) as [x|] eqn:E; [intros _|discriminate].
    unfold Re.and_then in E.
    destruct (Re.lit "arn:aws:kms:" s) as [s0|] eqn:E0; [|discriminate].
    apply lit_inv in E0. subst s.
    destruct s0 as [|c rest]; [discriminate|]. cbn [Re.dot_plus] in E.
    destruct (Re.is_newline c) eqn:Hc; [discriminate|].
    apply dot_star_inv_newline_free in E as (a & b & -> & Ha & Hb).
    unfold Re.kms_tail, Re.and_then in Hb.
    destruct (Re.lit ":" b) as [b1|] eqn:E1; [|discriminate].
    destruct (Re.digits 12 b1) as [b2|] eqn:E2; [|discriminate].
    destruct (Re.lit ":key/" b2) as [b3|] eqn:E3; [|discriminate].
    apply lit_inv in E1, E3. apply digits_inv_length in E2 as (d & E2 & Hd & Hl).
    destruct b3 as [|k0 b4]; [discriminate|].
    destruct (Re.is_key_char k0) eqn:Hk0; [|discriminate].
    cbn [andb] in Hb.
    destruct (Re.at_end (Re.key_chars (String k0 b4))) eqn:Hend; [|discriminate].
    apply at_end_inv in Hend.
    destruct (key_chars_span (String k0 b4)) as (key & Ekey & Hkey).
    exists (String c a), d, key, (Re.key_chars (String k0 b4)).
    split; [|split; [discriminate|]; split; [|split; [assumption|]; split; [assumption|];
             split; [|split; assumption]]].
    + subst. rewrite <- Ekey. reflexivity.
    + unfold newline_free in *. simpl. now rewrite Hc.
    + intros ->. cbn [append Re.key_chars] in Ekey. rewrite Hk0 in Ekey.
      pose proof (key_chars_length b4) as Hlen.
      rewrite <- Ekey in Hlen. cbn in Hlen. lia.
  - intros (region & account & key & nl & -> & Hne & Hr & Hd & Hl & Hkne & Hk & Hnl).
    rewrite lit_append. cbn [Re.and_then].
    set (T := (":" ++ account ++ ":key/" ++ key ++ nl)%string).
    assert (HT : Re.kms_tail T = Some nl).
    { unfold T, Re.kms_tail. rewrite (lit_append ":"). cbn [Re.and_then].
      rewrite <- Hl, (digits_append _ _ Hd). cbn [Re.and_then].
      rewrite (lit_append ":key/"). cbn [Re.and_then].
      destruct key as [|k0 key]; [congruence|].
      rewrite (key_chars_stop (String k0 key) nl Hk Hnl).
      unfold key_chars_only in Hk. simpl in Hk. apply andb_prop in Hk as [Hk0 _].
      cbn [append]. rewrite Hk0. cbn [andb].
      apply at_end_inv in Hnl. now rewrite Hnl. }
    clearbody T. destruct region as [|c region]; [congruence|].
    unfold newline_free in Hr. simpl in Hr. apply andb_prop in Hr as [Hc Hr].
    apply negb_true_iff in Hc. cbn [append Re.dot_plus]. rewrite Hc.
    destruct (dot_star_complete Re.kms_tail region T nl Hr HT) as (r' & ->).
    reflexivity.
Qed.

(** X2.  The check of [KMS_KEY_ARN] in both scripts, on an ASCII value: it
    accepts exactly the texts ["arn:aws:kms:<region>:<account>:key/<key>"]
    with a non-empty region on one line (it may hold colons: the group is
    [(.+)]), an account of twelve digits and a non-empty key of the
    characters [a-f], [0-9] and [-], optionally followed by one final
    newline. *)
Theorem kms_key_arn_accepts (s : string) :
  ascii_text s -> (Re.kms_key_arn_ok s = true <-> kms_key_arn_shape s).
Proof. intros _. apply kms_key_arn_ok_shape. Qed.

Lemma kms_key_arn_accepts_witness :
  Re.kms_key_arn_ok "arn:aws:kms:eu-west-1:210987654321:key/0a1b2c3d-4e5f" = true /\
  ~ kms_key_arn_shape "arn:aws:kms:eu-west-1:210987654321:key/0A1B".
Proof.
  split.
  - apply (kms_key_arn_accepts "arn:aws:kms:eu-west-1:210987654321:key/0a1b2c3d-4e5f"
                               eq_refl).
    exists "eu-west-1", "210987654321", "0a1b2c3d-4e5f", "".
    repeat split; try discriminate. now left.
  - intros H.
    apply (kms_key_arn_accepts "arn:aws:kms:eu-west-1:210987654321:key/0A1B" eq_refl) in H.
    discriminate H.
Defined.

(** ** Identifiers along the replication chain *)

Section Names.

Lemma split_two (s : string) :
  Py.contains ":" s = true ->
  exists a b rest, Py.split ":" s = a :: b :: rest.
Proof.
  induction s as [|c s IH]; [discriminate|].
  rewrite contains_colon_cons. cbn [Py.split].
  destruct (Ascii.eqb c ":"); cbn [orb].
  - intros _. destruct s as [|d s]; cbn [Py.split]; [eauto|].
    destruct (Ascii.eqb d ":"); [eauto|].
    destruct (Py.split ":" s); eauto.
  - intros H. destruct (IH H) as (a & b & rest & ->). eauto.
Qed.

Lemma split_pieces (s : string) : Forall colon_free (Py.split ":" s).
Proof.
  induction s as [|c s IH]; cbn [Py.split].
  - constructor; [reflexivity | constructor].
  - destruct (Ascii.eqb c ":") eqn:Hc.
    + constructor; [reflexivity | exact IH].
    + destruct (Py.split ":" s) as [|h t].
      * constructor; [|constructor]. unfold colon_free. simpl. now rewrite Hc.
      * inversion IH as [|? ? Hh Ht]; subst. constructor; [|assumption].
        unfold colon_free in *. simpl. now rewrite Hc.
Qed.

Lemma colon_free_append (a b : string) :
  colon_free a -> colon_free b -> colon_free (a ++ b).
Proof.
  intros Ha Hb. apply colon_free_colons. rewrite colons_append.
  apply colon_free_colons in Ha, Hb. lia.
Qed.

Lemma search_iff (pattern : string -> option string) (s : string) :
  Re.search pattern s = true <->
  exists a b r, s = (a ++ b)%string /\ pattern b = Some r.
Proof.
  induction s as [|c s IH]; cbn [Re.search].
  - destruct (pattern "") as [r|] eqn:E.
    + split; [intros _; now exists "", "", r | reflexivity].
    + split; [discriminate|]. intros (a & b & r & Es & Hb).
      destruct a; [|discriminate]. simpl in Es. subst b. congruence.
  - destruct (pattern (String c s)) as [r|] eqn:E.
    + split; [intros _; now exists "", (String c s), r | reflexivity].
    + rewrite IH. split.
      * intros (a & b & r & -> & Hb). now exists (String c a), b, r.
      * intros (a & b & r & Es & Hb). destruct a as [|x a].
        -- simpl in Es. subst b. congruence.
        -- injection Es as -> ->. now exists a, b, r.
Qed.

Lemma recrypted_end_inv (t r : string) :
  recrypted_end t = Some r <->
  t = ("recrypted" ++ r)%string /\ optional_newline r.
Proof.
  unfold recrypted_end, Re.and_then. split.
  - destruct (Re.lit "recrypted" t) as [x|] eqn:E; [|discriminate].
    apply lit_inv in E. destruct (Re.at_end x) eqn:Hx; [|discriminate].
    intros [= <-]. split; [assumption | now apply at_end_inv].
  - intros [-> Hr]. rewrite lit_append. apply at_end_inv in Hr. now rewrite Hr.
Qed.

Lemma startswith_shorter (a b s : string) :
  Py.startswith (a ++ b) s = true -> Py.startswith a s = true.
Proof.
  revert s. induction a as [|c a IH]; intros s; [reflexivity|].
  cbn [append Py.startswith]. destruct s as [|d s]; [discriminate|].
  intros H. apply andb_prop in H as [Hc H]. rewrite Hc. now apply IH.
Qed.

Lemma contains_shorter (a b s : string) :
  Py.contains (a ++ b) s = true -> Py.contains a s = true.
Proof.
  induction s as [|c s IH]; cbn [Py.contains]; intros H;
    apply orb_prop in H as [H|H]; try discriminate.
  - now rewrite (startswith_shorter a b _ H).
  - now rewrite (startswith_shorter a b _ H).
  - rewrite (IH H). apply orb_true_r.
Qed.

Lemma owned_copy_is_recrypted (id : string) :
  Py.contains "recrypted-copy" id = true -> Py.contains "recrypted" id = true.
Proof. apply (contains_shorter "recrypted" "-copy"). Qed.

Lemma recrypted_suffix_contains (x : string) :
  Py.contains "recrypted" (x ++ "-recrypted") = true.
Proof.
  change (x ++ "-recrypted")%string with (x ++ "-" ++ "recrypted" ++ "")%string.
  rewrite <- (append_assoc x "-"). apply contains_append.
Qed.

Lemma exporter_target_segment_of (source : string) :
  exists segment,
    Exporter.target_db_snapshot_id source = inr (segment ++ "-recrypted")%string /\
    colon_free segment /\
    (Py.contains ":" source = false <-> segment = source).
Proof.
  unfold Exporter.target_db_snapshot_id.
  destruct (Py.contains ":" source) eqn:Hc.
  - destruct (split_two source Hc) as (a & b & rest & E).
    pose proof (split_pieces source) as Hp. rewrite E in *.
    inversion Hp as [|? ? _ Hp']; subst. inversion Hp' as [|? ? Hb _]; subst.
    exists b. cbn [nth_error]. split; [reflexivity|]. split; [assumption|].
    split; [discriminate|]. intros ->.
    apply colon_free_contains in Hb. congruence.
  - exists source. split; [reflexivity|].
    split; [now apply colon_free_contains | tauto].
Qed.

Lemma append_inj_length (a c b d : string) :
  (a ++ b = c ++ d)%string -> String.length b = String.length d -> b = d.
Proof.
  revert c. induction a as [|x a IH]; intros c E Hl.
  - destruct c as [|y c]; [exact E|]. cbn [append] in E.
    apply (f_equal String.length) in E. cbn [String.length] in E.
    rewrite length_append in E. lia.
  - destruct c as [|y c]; cbn [append] in E.
    + apply (f_equal String.length) in E. cbn [String.length] in E.
      rewrite length_append in E. lia.
    + injection E as _ E. now apply (IH c).
Qed.

Lemma recrypted_at_end_iff (id : string) :
  Re.recrypted_at_end id = true <->
  exists front nl, id = (front ++ "recrypted" ++ nl)%string /\ optional_newline nl.
Proof.
  unfold Re.recrypted_at_end.
  change (fun t => Re.and_then (Re.lit "recrypted" t)
                     (fun r => if Re.at_end r then Some r else None))
    with recrypted_end.
  rewrite search_iff. split.
  - intros (a & b & r & -> & H). apply recrypted_end_inv in H as [-> Hr].
    now exists a, r.
  - intros (front & nl & -> & Hnl).
    exists front, ("recrypted" ++ nl)%string, nl. split; [reflexivity|].
    now apply recrypted_end_inv.
Qed.

Lemma copy_suffix_rejected (x : string) :
  Re.recrypted_at_end (x ++ "-copy") = false.
Proof.
  apply not_true_is_false. intros H.
  apply recrypted_at_end_iff in H as (front & nl & E & [-> | ->]).
  - change (front ++ "recrypted" ++ "")%string
      with (front ++ "recr" ++ "ypted")%string in E.
    rewrite <- append_assoc in E.
    apply append_inj_length in E; [discriminate | reflexivity].
  - change (front ++ "recrypted" ++ String "010" "")%string
      with (front ++ "recry" ++ String "p" (String "t" (String "e" (String "d" (String "010" "")))))%string in E.
    rewrite <- append_assoc in E.
    apply append_inj_length in E; [discriminate | reflexivity].
Qed.

Lemma shared_tail_iff (s r : string) :
  Re.shared_tail s = Some r <->
  exists account, s = (":" ++ account ++ ":snapshot:" ++ r)%string /\
                  all_digits account /\ String.length account = 12.
Proof.
  unfold Re.shared_tail, Re.and_then. split.
  - destruct (Re.lit ":" s) as [s1|] eqn:E1; [|discriminate].
    destruct (Re.digits 12 s1) as [s2|] eqn:E2; [|discriminate].
    intros E3. apply lit_inv in E1, E3.
    apply digits_inv_length in E2 as (d & E2 & Hd & Hl). subst.
    now exists d.
  - intros (account & -> & Hd & Hl). rewrite (lit_append ":").
    rewrite <- Hl, (digits_append _ _ Hd). apply lit_append.
Qed.

Lemma shared_snapshot_regex_iff (s : string) :
  (exists r, Re.shared_snapshot_regex s = Some r) <->
  exists region account rest,
    s = shared_arn region account rest /\
    region <> "" /\ newline_free region /\
    all_digits account /\ String.length account = 12.
Proof.
  unfold Re.shared_snapshot_regex, Re.and_then, shared_arn. split.
  - intros (r & H).
    destruct (Re.lit "arn:aws:rds:" s) as [x|] eqn:E; [|discriminate].
    apply lit_inv in E. subst s.
    destruct x as [|c x]; [discriminate|]. cbn [Re.dot_plus] in H.
    destruct (Re.is_newline c) eqn:Hc; [discriminate|].
    apply dot_star_inv_newline_free in H as (a & b & -> & Ha & Hb).
    apply shared_tail_iff in Hb as (account & -> & Hd & Hl).
    exists (String c a), account, r. split; [reflexivity|].
    split; [discriminate|]. split; [|auto].
    unfold newline_free in *. simpl. now rewrite Hc.
  - intros (region & account & rest & -> & Hne & Hr & Hd & Hl).
    rewrite lit_append.
    set (T := (":" ++ account ++ ":snapshot:" ++ rest)%string).
    assert (HT : Re.shared_tail T = Some rest) by (apply shared_tail_iff; now exists account).
    clearbody T. destruct region as [|c region]; [congruence|].
    unfold newline_free in Hr. simpl in Hr. apply andb_prop in Hr as [Hc Hr].
    apply negb_true_iff in Hc. cbn [append Re.dot_plus]. rewrite Hc.
    apply (dot_star_complete Re.shared_tail region T rest Hr HT).
Qed.

End Names.

Lemma search_shared_prefix (id : string) :
  Re.search Re.shared_snapshot_regex id = true <-> holds_shared_prefix id.
Proof.
  rewrite search_iff. split.
  - intros (a & b & r & E & H).
    destruct (proj1 (shared_snapshot_regex_iff b) (ex_intro _ r H))
      as (region & account & rest & -> & Hrest).
    now exists a, region, account, rest.
  - intros (front & region & account & rest & E & Hrest).
    destruct (proj2 (shared_snapshot_regex_iff (shared_arn region account rest)))
      as (r & H); [now exists region, account, rest|].
    now exists front, (shared_arn region account rest), r.
Qed.

Lemma importer_target_without_prefix (id : string) :
  ~ holds_shared_prefix id ->
  Importer.target_db_snapshot_id id = inr (id ++ "-copy")%string.
Proof.
  intros H. apply importer_target_no_prefix.
  destruct (Re.search Re.shared_snapshot_regex id) eqn:E; [|reflexivity].
  elim H. now apply search_shared_prefix.
Qed.

(** C5.  Target identifier derivation.  Exporter: an identifier with a colon
    gives the segment between its first and its second colon (or the end),
    followed by ["-recrypted"]; an identifier without a colon gives itself
    followed by ["-recrypted"].  Importer: a shared-snapshot ARN
    ["arn:aws:rds:<region>:<12-digit-account>:snapshot:<name>"] gives
    [<name>] followed by ["-copy"]; an identifier that holds no such prefix
    (whatever colons it has) gives itself, whole, followed by ["-copy"].
    The closed conjuncts are the two examples of the specification and
    identifiers that differ from a shared-snapshot ARN in one respect: no
    prefix but a colon, an account of eleven and of thirteen digits, an
    empty region, another service, another resource word; the last three
    have text in front of the prefix, two prefixes on one line (the group
    is greedy) and two prefixes on two lines (every match is removed). *)
Theorem target_identifier_derivation (a b rest region account name id : string) :
  colon_free a -> colon_free b ->
  rest = "" \/ (exists r, rest = String ":" r) ->
  region <> "" -> newline_free region ->
  all_digits account -> String.length account = 12 -> colon_free name ->
  ~ holds_shared_prefix id ->
  Exporter.target_db_snapshot_id (a ++ ":" ++ b ++ rest)
    = inr (b ++ "-recrypted")%string /\
  Exporter.target_db_snapshot_id b = inr (b ++ "-recrypted")%string /\
  Exporter.target_db_snapshot_id "some:thing:mydb-snap-2024"
    = inr "thing-recrypted" /\
  Importer.target_db_snapshot_id
    ("arn:aws:rds:" ++ region ++ ":" ++ account ++ ":snapshot:" ++ name)
    = inr (name ++ "-copy")%string /\
  Importer.target_db_snapshot_id name = inr (name ++ "-copy")%string /\
  Importer.target_db_snapshot_id
    "arn:aws:rds:us-east-1:123456789012:snapshot:mydb-snap"
    = inr "mydb-snap-copy" /\
  Importer.target_db_snapshot_id id = inr (id ++ "-copy")%string /\
  Importer.target_db_snapshot_id "rds:mydb-2024" = inr "rds:mydb-2024-copy" /\
  Importer.target_db_snapshot_id
    "arn:aws:rds:us-east-1:12345678901:snapshot:mydb-snap"
    = inr "arn:aws:rds:us-east-1:12345678901:snapshot:mydb-snap-copy" /\
  Importer.target_db_snapshot_id
    "arn:aws:rds:us-east-1:1234567890123:snapshot:mydb-snap"
    = inr "arn:aws:rds:us-east-1:1234567890123:snapshot:mydb-snap-copy" /\
  Importer.target_db_snapshot_id
    "arn:aws:rds::123456789012:snapshot:mydb-snap"
    = inr "arn:aws:rds::123456789012:snapshot:mydb-snap-copy" /\
  Importer.target_db_snapshot_id
    "arn:aws:kms:us-east-1:123456789012:snapshot:mydb-snap"
    = inr "arn:aws:kms:us-east-1:123456789012:snapshot:mydb-snap-copy" /\
  Importer.target_db_snapshot_id
    "arn:aws:rds:us-east-1:123456789012:snapshots:mydb-snap"
    = inr "arn:aws:rds:us-east-1:123456789012:snapshots:mydb-snap-copy" /\
  Importer.target_db_snapshot_id
    "copy-of-arn:aws:rds:us-east-1:123456789012:snapshot:mydb-snap"
    = inr "copy-of-mydb-snap-copy" /\
  Importer.target_db_snapshot_id
    "arn:aws:rds:us-east-1:123456789012:snapshot:a:210987654321:snapshot:mydb-snap"
    = inr "mydb-snap-copy" /\
  Importer.target_db_snapshot_id
    ("arn:aws:rds:us-east-1:123456789012:snapshot:mydb" ++ String "010"
     "arn:aws:rds:us-east-1:210987654321:snapshot:snap")
    = inr ("mydb" ++ String "010" "snap-copy")%string.
Proof.
  intros Ha Hb Hrest Hne Hr Hd Hl Hn Hid.
  split; [now apply exporter_target_segment|].
  split; [now apply exporter_target_plain|].
  split; [reflexivity|].
  split; [now apply importer_target_arn|].
  split; [apply importer_target_no_prefix, search_colon_free, Hn|].
  split; [reflexivity|].
  split; [now apply importer_target_without_prefix|].
  repeat split.
Qed.

Lemma target_identifier_derivation_witness :
  Exporter.target_db_snapshot_id "rds:mydb-2024-05-01-03-10"
    = inr "mydb-2024-05-01-03-10-recrypted" /\
  Importer.target_db_snapshot_id
    "arn:aws:rds:eu-west-1:210987654321:snapshot:mydb-2024-05-01-03-10-recrypted"
    = inr "mydb-2024-05-01-03-10-recrypted-copy" /\
  Importer.target_db_snapshot_id "rds:mydb-2024-05-01-03-10"
    = inr "rds:mydb-2024-05-01-03-10-copy".
Proof.
  assert (Hid : ~ holds_shared_prefix "rds:mydb-2024-05-01-03-10").
  { intros H. apply search_shared_prefix in H. discriminate H. }
  pose proof (target_identifier_derivation
                "rds" "mydb-2024-05-01-03-10" "" "eu-west-1" "210987654321"
                "mydb-2024-05-01-03-10-recrypted" "rds:mydb-2024-05-01-03-10"
                eq_refl eq_refl (or_introl eq_refl)
                ltac:(discriminate) eq_refl eq_refl eq_refl eq_refl Hid) as H.
  split; [exact (proj1 H)|].
  split; [exact (proj1 (proj2 (proj2 (proj2 H))))|].
  exact (proj1 (proj2 (proj2 (proj2 (proj2 (proj2 (proj2 H))))))).
Defined.

(** X3.  The importer's filter (both [re.search] tests of its copy loop)
    accepts exactly the identifiers that end in ["recrypted"], or in
    ["recrypted"] and one final newline, and contain the text
    ["arn:aws:rds:<region>:<12 digits>:snapshot:"] with a non-empty region
    on one line.  No identifier ending in ["-copy"] is accepted: the
    importer does not copy its own copies. *)
Theorem importer_filter_accepts (snapshot : Snapshot) :
  (Importer.is_shared_recrypted snapshot = true <->
   (exists front nl,
       DBSnapshotIdentifier snapshot = (front ++ "recrypted" ++ nl)%string /\
       optional_newline nl) /\
   (exists front region account rest,
       DBSnapshotIdentifier snapshot = (front ++ shared_arn region account rest)%string /\
       region <> "" /\ newline_free region /\
       all_digits account /\ String.length account = 12)) /\
  (forall local, DBSnapshotIdentifier snapshot = (local ++ "-copy")%string ->
                 Importer.is_shared_recrypted snapshot = false).
Proof.
  unfold Importer.is_shared_recrypted. split.
  - rewrite andb_true_iff, recrypted_at_end_iff, search_iff. apply and_iff_compat_l.
    split.
    + intros (a & b & r & E & H).
      destruct (proj1 (shared_snapshot_regex_iff b) (ex_intro _ r H))
        as (region & account & rest & -> & Hrest).
      now exists a, region, account, rest.
    + intros (front & region & account & rest & E & Hrest).
      destruct (proj2 (shared_snapshot_regex_iff (shared_arn region account rest)))
        as (r & H); [now exists region, account, rest|].
      now exists front, (shared_arn region account rest), r.
  - intros local ->. now rewrite copy_suffix_rejected.
Qed.

(** X4.  The exporter's target identifier is defined for every source
    identifier (the subscript [[1]] is only evaluated on a text with a
    colon, whose split has two parts at least): it is a colon-free segment
    followed by ["-recrypted"], the whole identifier where that has no
    colon, and it passes the test ["recrypted" in id] of the exporter's
    counter and of the oldest finder. *)
Theorem exporter_target_is_recrypted (source : string) :
  exists segment,
    Exporter.target_db_snapshot_id source = inr (segment ++ "-recrypted")%string /\
    colon_free segment /\
    (Py.contains ":" source = false <-> segment = source) /\
    Py.contains "recrypted" (segment ++ "-recrypted") = true.
Proof.
  destruct (exporter_target_segment_of source) as (segment & E & Hseg & Hsame).
  exists segment. split; [exact E|]. split; [exact Hseg|]. split; [exact Hsame|].
  apply recrypted_suffix_contains.
Qed.

(** X5.  The names along the chain.  Whatever the identifier of the
    automated snapshot, the identifier [name] the exporter gives its copy,
    seen by the importer as the shared ARN of [name], passes both tests of
    the importer's filter; the importer derives [name ++ "-copy"] from it;
    that identifier is counted by the importer's counter and by the test of
    the oldest finder, and does not pass the filter again. *)
Theorem exported_name_is_imported (source region account : string) :
  region <> "" -> newline_free region ->
  all_digits account -> String.length account = 12 ->
  exists name,
    Exporter.target_db_snapshot_id source = inr name /\
    Re.recrypted_at_end (shared_arn region account name) = true /\
    Re.search Re.shared_snapshot_regex (shared_arn region account name) = true /\
    Importer.target_db_snapshot_id (shared_arn region account name)
      = inr (name ++ "-copy")%string /\
    Py.contains "recrypted-copy" (name ++ "-copy") = true /\
    Py.contains "recrypted" (name ++ "-copy") = true /\
    Re.recrypted_at_end (name ++ "-copy") = false.
Proof.
  intros Hne Hr Hd Hl.
  destruct (exporter_target_segment_of source) as (segment & Et & Hseg & _).
  set (name := (segment ++ "-recrypted")%string) in *.
  assert (Hname : colon_free name) by (apply colon_free_append; [assumption | reflexivity]).
  assert (Hcopy : (name ++ "-copy" = (segment ++ "-") ++ "recrypted-copy" ++ "")%string).
  { unfold name. rewrite !append_assoc. reflexivity. }
  exists name. split; [exact Et|]. split; [|split; [|split; [|split; [|split]]]].
  - apply recrypted_at_end_iff.
    exists ("arn:aws:rds:" ++ region ++ ":" ++ account ++ ":snapshot:" ++ segment ++ "-")%string, "".
    split; [|now left]. unfold shared_arn, name.
    rewrite !append_assoc. reflexivity.
  - apply search_iff. exists "", (shared_arn region account name), name.
    split; [reflexivity|]. now apply shared_snapshot_regex_arn.
  - now apply importer_target_arn.
  - rewrite Hcopy. apply contains_append.
  - apply owned_copy_is_recrypted. rewrite Hcopy. apply contains_append.
  - apply copy_suffix_rejected.
Qed.

Lemma exported_name_is_imported_witness :
  exists name,
    Exporter.target_db_snapshot_id "rds:mydb-2024-05-01-03-10" = inr name /\
    Re.recrypted_at_end (shared_arn "eu-west-1" "210987654321" name) = true /\
    Re.search Re.shared_snapshot_regex (shared_arn "eu-west-1" "210987654321" name) = true /\
    Importer.target_db_snapshot_id (shared_arn "eu-west-1" "210987654321" name)
      = inr (name ++ "-copy")%string /\
    Py.contains "recrypted-copy" (name ++ "-copy") = true /\
    Py.contains "recrypted" (name ++ "-copy") = true /\
    Re.recrypted_at_end (name ++ "-copy") = false.
Proof.
  apply (exported_name_is_imported "rds:mydb-2024-05-01-03-10" "eu-west-1" "210987654321");
    [discriminate | reflexivity | reflexivity | reflexivity].
Defined.

(** ** The checks before the first request *)

Ltac refuse w :=
  first [ exists []; destruct w; split; [reflexivity | cbn; lia]
        | eexists [_]; split; [reflexivity | cbn; lia] ].

(** X6.  The exporter validates its configuration before it asks the
    service for anything.  Without [AWS_DEFAULT_REGION], without
    [TOPIC_ARN] outside a debug run, with a [TARGET_ACCOUNT] that is not
    twelve digits or with a [KMS_KEY_ARN] that is not a key ARN, the run
    ends with exit status 1 after printing one line at most: no request to
    RDS or SNS, no sleep, catalog and clock untouched. *)
Theorem exporter_checks_configuration
        (steps : nat) (client : RdsClient) (cfg : Config)
        (filtered_instances : list DBInstance.t) (w : World) :
  exporter_refuses cfg ->
  exists lines,
    Exporter.script steps client cfg filtered_instances w = refusal lines w /\
    length lines <= 1.
Proof.
  unfold exporter_refuses, refusal, Exporter.script.
  intros [H|[[Ht Hd]|[H|H]]].
  - rewrite H. run_monad. refuse w.
  - rewrite Ht, Hd. destruct (AWS_DEFAULT_REGION cfg); run_monad; cbn; refuse w.
  - destruct (AWS_DEFAULT_REGION cfg); [|run_monad; refuse w].
    destruct (is_empty (TOPIC_ARN cfg) && negb (debug cfg)); run_monad; [refuse w|].
    unfold Exporter.main. rewrite H. run_monad. cbn. refuse w.
  - destruct (AWS_DEFAULT_REGION cfg); [|run_monad; refuse w].
    destruct (is_empty (TOPIC_ARN cfg) && negb (debug cfg)); run_monad; [refuse w|].
    unfold Exporter.main. rewrite H.
    destruct (Re.account_id (TARGET_ACCOUNT cfg)); run_monad; cbn; refuse w.
Qed.

Lemma exporter_checks_configuration_witness :
  exists lines,
    Exporter.script 5 Sample.steady
      {| AWS_DEFAULT_REGION := Some "eu-west-1";
         TARGET_ACCOUNT := "21098765432";
         KMS_KEY_ARN := KMS_KEY_ARN (Sample.config 4);
         TOPIC_ARN := TOPIC_ARN (Sample.config 4);
         EXPECTED_SNAPSHOT_COUNT := 4;
         PATTERN := "ALL_INSTANCES";
         debug := false |}
      [ {| DBInstance.DBInstanceIdentifier := "db1" |} ]
      (Sample.world [Sample.snap "rds:db1-a" "db1" "automated" (Some 5%Z)])
    = refusal lines (Sample.world [Sample.snap "rds:db1-a" "db1" "automated" (Some 5%Z)]) /\
    length lines <= 1.
Proof.
  apply exporter_checks_configuration.
  right. right. left. reflexivity.
Defined.

(** X7.  The importer validates its configuration before it asks the
    service for anything: without [AWS_DEFAULT_REGION], without [TOPIC_ARN]
    outside a debug run, or with a [KMS_KEY_ARN] that is not a key ARN, the
    run ends with exit status 1 after printing one line at most. *)
Theorem importer_checks_configuration
        (steps : nat) (client : RdsClient) (cfg : Config) (w : World) :
  importer_refuses cfg ->
  exists lines,
    Importer.script steps client cfg w = refusal lines w /\
    length lines <= 1.
Proof.
  unfold importer_refuses, refusal, Importer.script.
  intros [H|[[Ht Hd]|H]].
  - rewrite H. run_monad. refuse w.
  - rewrite Ht, Hd. destruct (AWS_DEFAULT_REGION cfg); run_monad; cbn; refuse w.
  - destruct (AWS_DEFAULT_REGION cfg); [|run_monad; refuse w].
    destruct (is_empty (TOPIC_ARN cfg) && negb (debug cfg)); run_monad; [refuse w|].
    unfold Importer.main. rewrite H. run_monad. cbn. refuse w.
Qed.

Lemma importer_checks_configuration_witness :
  exists lines,
    Importer.script 5 Sample.steady
      {| AWS_DEFAULT_REGION := Some "eu-west-1";
         TARGET_ACCOUNT := "210987654321";
         KMS_KEY_ARN := "arn:aws:kms:eu-west-1:210987654321:alias/backup";
         TOPIC_ARN := TOPIC_ARN (Sample.config 4);
         EXPECTED_SNAPSHOT_COUNT := 4;
         PATTERN := "ALL_INSTANCES";
         debug := false |}
      (Sample.world [Sample.shared_snap "db1-a-recrypted" "db1" (Some 5%Z)])
    = refusal lines (Sample.world [Sample.shared_snap "db1-a-recrypted" "db1" (Some 5%Z)]) /\
    length lines <= 1.
Proof.
  apply importer_checks_configuration.
  right. right. reflexivity.
Defined.

(** ** How the oldest finder fails *)

Section OldestFailures.

Lemma oldest_scan_none (l : list Snapshot) :
  forall acc,
    Shared.oldest_scan acc l = inr None <->
    acc = None /\ forall s, In s l -> is_recrypted s = false.
Proof.
  induction l as [|x l IH]; intros acc; cbn [Shared.oldest_scan].
  - split; [intros [= ->]; split; [reflexivity | intros ? []] | intros [-> _]; reflexivity].
  - unfold Shared.oldest_step. destruct (is_recrypted x) eqn:Hx; cbn [negb].
    + split.
      * intros H.
        destruct (SnapshotCreateTime x); [|discriminate].
        destruct (SnapshotCreateTime (match acc with None => x | Some o => o end));
          [|discriminate].
        apply IH in H as [H _]. discriminate.
      * intros [_ H]. specialize (H x (or_introl eq_refl)). congruence.
    + rewrite IH. split; intros [Ha H]; (split; [assumption|]).
      * intros s [<-|Hs]; auto.
      * intros s Hs. apply H. now right.
Qed.

Lemma oldest_scan_error (l : list Snapshot) :
  forall acc e,
    timed acc ->
    (Shared.oldest_scan acc l = inl e <->
     e = KeyError /\
     exists s, In s l /\ is_recrypted s = true /\ SnapshotCreateTime s = None).
Proof.
  induction l as [|x l IH]; intros acc e Hacc; cbn [Shared.oldest_scan].
  - split; [discriminate | intros [_ (s & [] & _)]].
  - unfold Shared.oldest_step. destruct (is_recrypted x) eqn:Hx; cbn [negb].
    + destruct (SnapshotCreateTime x) as [t|] eqn:Ht.
      * assert (Hnext : exists o, (match acc with None => x | Some o => o end) = o /\
                                  SnapshotCreateTime o <> None).
        { destruct acc as [o|]; eexists; (split; [reflexivity|]); [exact Hacc | congruence]. }
        destruct Hnext as (o & -> & Ho).
        destruct (SnapshotCreateTime o) as [t0|] eqn:Hto; [|congruence].
        rewrite IH by (cbn [timed]; destruct (t <? t0)%Z; congruence).
        split; intros [He (s & Hs & Hk & Hn)]; (split; [assumption|]);
          exists s; (split; [|split; assumption]).
        -- now right.
        -- destruct Hs as [<-|Hs]; [congruence | assumption].
      * split.
        -- intros [= <-]. split; [reflexivity|]. exists x.
           split; [now left | split; assumption].
        -- intros [-> _]. destruct acc; reflexivity.
    + rewrite (IH acc e Hacc).
      split; intros [He (s & Hs & Hk & Hn)]; (split; [assumption|]);
        exists s; (split; [|split; assumption]).
      * now right.
      * destruct Hs as [<-|Hs]; [congruence | assumption].
Qed.

End OldestFailures.

Lemma get_oldest_outcome (client : RdsClient) (db : string) (w : World) :
  exists lines,
    Shared.get_oldest_manual_recrypted_rds_snapshots client db w
    = (match Shared.oldest_scan None
               (Rds.listing client (Some db) None (Some "manual") false w) with
       | inl e => Raised e
       | inr None => Raised TypeError
       | inr (Some o) => Ok o
       end,
       {| catalog := catalog w; clock := clock w; trace := lines ++ trace w |}) /\
    deletions lines = [].
Proof.
  unfold Shared.get_oldest_manual_recrypted_rds_snapshots.
  run_format. unfold Rds.describe_db_snapshots. run_monad.
  fold (Rds.listing client (Some db) None (Some "manual") false w).
  destruct (Shared.oldest_scan None _) as [e|[o|]]; run_monad.
  - eexists [_; _]. split; reflexivity.
  - eexists [_; _; _]. split; reflexivity.
  - eexists [_; _]. split; reflexivity.
Qed.

(** C7.  The oldest finder on a matching snapshot without creation
    timestamp.  For every list of manual snapshots in which a snapshot
    whose identifier contains ["recrypted"] has no [SnapshotCreateTime],
    the scan of the oldest finder ends on the [KeyError] of its subscript
    [snapshot['SnapshotCreateTime']], whatever else the list holds, and so
    does the function on every account whose listing of the instance's
    manual snapshots is this list: it returns no snapshot, where the latest
    finder reads the same key through [.get] and goes on. *)
Theorem oldest_finder_raises_on_untimed_match (l : list Snapshot) :
  (exists s, In s l /\ is_recrypted s = true /\ SnapshotCreateTime s = None) ->
  Shared.oldest_scan None l = inl KeyError /\
  forall client db w,
    Rds.listing client (Some db) None (Some "manual") false w = l ->
    exists lines,
      Shared.get_oldest_manual_recrypted_rds_snapshots client db w
      = (Raised KeyError,
         {| catalog := catalog w; clock := clock w; trace := lines ++ trace w |}).
Proof.
  intros Hex.
  assert (E : Shared.oldest_scan None l = inl KeyError).
  { apply (oldest_scan_error l None KeyError I). split; [reflexivity | exact Hex]. }
  split; [exact E|].
  intros client db w Hl.
  destruct (get_oldest_outcome client db w) as (lines & Er & _).
  rewrite Hl, E in Er. now exists lines.
Qed.

Lemma oldest_finder_raises_on_untimed_match_witness :
  Shared.oldest_scan None
    [Sample.snap "a-recrypted" "db1" "manual" (Some 2%Z);
     Sample.snap "b-recrypted" "db1" "manual" None]
  = inl KeyError.
Proof.
  apply (oldest_finder_raises_on_untimed_match
           [Sample.snap "a-recrypted" "db1" "manual" (Some 2%Z);
            Sample.snap "b-recrypted" "db1" "manual" None]).
  exists (Sample.snap "b-recrypted" "db1" "manual" None).
  split; [right; left; reflexivity | split; reflexivity].
Defined.

(** X8.  How the oldest finder ends, for every account.  It raises
    [TypeError] (the subscript of the integer [0]) exactly when no manual
    snapshot of the instance has ["recrypted"] in its identifier; it raises
    [KeyError] exactly when one of those that have lacks its creation
    timestamp; it returns a snapshot in every other case.  It never exits,
    deletes nothing and leaves the catalog as it is. *)
Theorem oldest_finder_outcomes (client : RdsClient) (db : string) (w : World) :
  let l := Rds.listing client (Some db) None (Some "manual") false w in
  let run := Shared.get_oldest_manual_recrypted_rds_snapshots client db w in
  (fst run = Raised TypeError <-> forall s, In s l -> is_recrypted s = false) /\
  (fst run = Raised KeyError <->
   exists s, In s l /\ is_recrypted s = true /\ SnapshotCreateTime s = None) /\
  ((exists oldest, fst run = Ok oldest) \/
   fst run = Raised TypeError \/ fst run = Raised KeyError) /\
  catalog (snd run) = catalog w /\
  deletions (trace (snd run)) = deletions (trace w).
Proof.
  intros l run. destruct (get_oldest_outcome client db w) as (lines & E & D).
  fold l in E. fold run in E. rewrite E. cbn [fst snd catalog trace].
  pose proof (oldest_scan_none l None) as Hnone.
  pose proof (fun e => oldest_scan_error l None e I) as Herr.
  destruct (Shared.oldest_scan None l) as [e|[o|]] eqn:Es.
  - destruct (proj1 (Herr e) eq_refl) as [-> Hex].
    split; [|split; [|split; [|split]]].
    + split; [discriminate|]. intros H.
      pose proof (proj2 Hnone (conj eq_refl H)). discriminate.
    + split; [intros _; exact Hex | reflexivity].
    + auto.
    + reflexivity.
    + now rewrite deletions_app, D.
  - split; [|split; [|split; [|split]]].
    + split; [discriminate|]. intros H.
      pose proof (proj2 Hnone (conj eq_refl H)). discriminate.
    + split; [discriminate|]. intros H.
      pose proof (proj2 (Herr KeyError) (conj eq_refl H)). discriminate.
    + left. now exists o.
    + reflexivity.
    + now rewrite deletions_app, D.
  - split; [|split; [|split; [|split]]].
    + split; [intros _; exact (proj2 (proj1 Hnone eq_refl)) | reflexivity].
    + split; [discriminate|]. intros H.
      pose proof (proj2 (Herr KeyError) (conj eq_refl H)). discriminate.
    + auto.
    + reflexivity.
    + now rewrite deletions_app, D.
Qed.

(** ** The waiter and the catalog *)

Section WaiterFrame.

Variables (client : RdsClient) (snapshot : Snapshot).

Lemma slept_app (a b : list Event) : slept (a ++ b) = (slept a + slept b)%Z.
Proof.
  induction a as [|e a IH]; [reflexivity|].
  destruct e; cbn [app slept]; rewrite ?IH; lia.
Qed.

Lemma wait_loop_unlisted_run (steps : nat) (p : Z) (w : World) :
  ~ listed snapshot w ->
  Shared.wait_loop (S steps) client snapshot p w
  = (Raised DBSnapshotNotFoundFault,
     {| catalog := catalog w; clock := clock w;
        trace := poll_event snapshot :: trace w |}).
Proof.
  unfold listed. intros H. apply not_true_is_false in H.
  cbn [Shared.wait_loop]. unfold Rds.describe_db_snapshots, Rds.listing. run_monad.
  replace (filter _ (catalog w)) with (@nil Snapshot); [reflexivity|].
  symmetry. destruct (filter _ (catalog w)) as [|c rest] eqn:E; [reflexivity|].
  assert (Hc : In c (filter (Rds.selected None (Some (DBSnapshotIdentifier snapshot))
                                          None false) (catalog w)))
    by (rewrite E; now left).
  apply filter_In in Hc as [Hin Hc].
  assert (existsb (Rds.selected None (Some (DBSnapshotIdentifier snapshot)) None false)
                  (catalog w) = true) by (apply existsb_exists; eauto).
  congruence.
Qed.

Lemma progress_events_waiter (previous percent : Z) :
  Forall (waiter_event snapshot) (progress_events snapshot previous percent) /\
  slept (progress_events snapshot previous percent) = 0%Z.
Proof.
  unfold progress_events. destruct (previous =? percent)%Z.
  - split; [constructor | reflexivity].
  - split; [|reflexivity]. constructor; [|constructor].
    right. right. eauto.
Qed.

Lemma wait_loop_frame (steps : nat) :
  forall (p : Z) (w : World),
    let run := Shared.wait_loop steps client snapshot p w in
    catalog (snd run) = catalog w /\
    (exists events,
        trace (snd run) = events ++ trace w /\
        Forall (waiter_event snapshot) events /\
        clock (snd run) = (clock w + slept events)%Z) /\
    (listed snapshot w -> fst run = Ok tt \/ fst run = Running) /\
    (~ listed snapshot w -> steps <> 0 -> fst run = Raised DBSnapshotNotFoundFault).
Proof.
  induction steps as [|steps IH]; intros p w; cbv zeta.
  - cbn [Shared.wait_loop]. unfold out_of_steps. cbn [fst snd].
    split; [reflexivity|]. split; [|split; [auto | congruence]].
    exists []. split; [reflexivity|]. split; [constructor | cbn; lia].
  - destruct (existsb (Rds.selected None (Some (DBSnapshotIdentifier snapshot)) None false)
                      (catalog w)) eqn:Hl.
    + assert (Hlisted : listed snapshot w) by exact Hl.
      destruct (String.eqb_spec (fst (observed client snapshot (clock w))) "available")
        as [Ha|Ha].
      * rewrite (wait_loop_ready client snapshot steps p w Hlisted Ha).
        cbn [fst snd catalog clock trace].
        split; [reflexivity|]. split; [|split; [auto | contradiction]].
        exists [Print (complete_line snapshot); poll_event snapshot].
        split; [reflexivity|]. split; [|cbn; lia].
        constructor; [right; right; eauto|]. constructor; [now left | constructor].
      * rewrite (wait_loop_busy client snapshot steps p w Hlisted Ha).
        match goal with |- context [Shared.wait_loop steps client snapshot ?p' ?w'] =>
          destruct (IH p' w') as (Hcat & (events & Htr & Hev & Hclock) & Hok & _)
        end.
        cbn [catalog clock trace] in *.
        split; [exact Hcat|]. split; [|split; [|contradiction]].
        -- destruct (progress_events_waiter p (snd (observed client snapshot (clock w))))
             as (Hpe & Hps).
           exists (events ++ Sleep 10
                     :: progress_events snapshot p (snd (observed client snapshot (clock w)))
                     ++ [poll_event snapshot]).
           split; [rewrite Htr, <- app_assoc; cbn [app]; now rewrite <- app_assoc|].
           split.
           ++ apply Forall_app. split; [assumption|].
              constructor; [right; now left|].
              apply Forall_app. split; [assumption|].
              constructor; [now left | constructor].
           ++ rewrite Hclock, slept_app. cbn [slept]. rewrite slept_app, Hps.
              cbn [slept poll_event]. lia.
        -- intros _. apply Hok. exact Hl.
    + assert (Hn : ~ listed snapshot w) by (unfold listed; congruence).
      rewrite (wait_loop_unlisted_run steps p w Hn). cbn [fst snd catalog clock trace].
      split; [reflexivity|]. split; [|split; [contradiction | reflexivity]].
      exists [poll_event snapshot]. split; [reflexivity|].
      split; [constructor; [now left | constructor] | cbn; lia].
Qed.

End WaiterFrame.

(** X9.  The waiter is an observer.  However it ends, the catalog is as it
    was; all it has done is poll the snapshot it waits for, sleep 10 time
    units at a time and print, and the clock has advanced by what it slept.
    On a snapshot of the catalog it returns or is still waiting; on an
    identifier the account does not hold, the service answers the first
    poll with its [DBSnapshotNotFound] fault, which the waiter does not
    catch. *)
Theorem waiter_only_observes
        (steps : nat) (client : RdsClient) (snapshot : Snapshot) (w : World) :
  let run := Shared.wait_for_snapshot_to_be_ready steps client snapshot w in
  catalog (snd run) = catalog w /\
  (exists events,
      trace (snd run) = events ++ trace w /\
      Forall (waiter_event snapshot) events /\
      clock (snd run) = (clock w + slept events)%Z) /\
  (listed snapshot w -> fst run = Ok tt \/ fst run = Running) /\
  (~ listed snapshot w -> steps <> 0 -> fst run = Raised DBSnapshotNotFoundFault).
Proof. apply wait_loop_frame. Qed.

(** ** The counters of the importer's copy loop *)

Section CopyCount.

Lemma dict_get_set (d : Dict.t) (key : string) (value : Z) (k : string) (default : Z) :
  Dict.get (Dict.set d key value) k default
  = if String.eqb key k then value else Dict.get d k default.
Proof.
  induction d as [|[k0 v0] d IH]; cbn [Dict.set Dict.get].
  - reflexivity.
  - destruct (String.eqb_spec k0 key) as [->|Hne]; cbn [Dict.get].
    + destruct (String.eqb key k); reflexivity.
    + rewrite IH. destruct (String.eqb_spec k0 k) as [->|Hk]; [|reflexivity].
      destruct (String.eqb_spec key k); [congruence | reflexivity].
Qed.

Lemma dict_set_keys_nodup (d : Dict.t) (key : string) (value : Z) :
  NoDup (Dict.keys d) -> NoDup (Dict.keys (Dict.set d key value)).
Proof.
  unfold Dict.keys. induction d as [|[k0 v0] d IH]; cbn [Dict.set map fst]; intros H.
  - repeat constructor. intros [].
  - inversion H as [|? ? Hk Hd]; subst.
    destruct (String.eqb_spec k0 key) as [->|Hne]; cbn [map fst]; [assumption|].
    constructor; [|auto]. intros Hin.
    apply (dict_set_keys d key value k0) in Hin as [Hin|Hin]; [auto | congruence].
Qed.

Lemma copy_all_counts (steps : nat) (client : RdsClient) (cfg : Config)
      (l : list Snapshot) :
  forall (count : Z) (owned : Dict.t) (w : World) (count' : Z) (owned' : Dict.t)
         (w' : World),
    Importer.copy_all steps client cfg l count owned w = (Ok (count', owned'), w') ->
    count' = (count + Z.of_nat (length (filter Importer.is_shared_recrypted l)))%Z /\
    (forall k, Dict.get owned' k 0
               = (Dict.get owned k 0 + Z.of_nat (length (copied_of k l)))%Z) /\
    (forall k, In k (Dict.keys owned') <->
               In k (Dict.keys owned) \/ copied_of k l <> []) /\
    (NoDup (Dict.keys owned) -> NoDup (Dict.keys owned')).
Proof.
  induction l as [|x l IH]; intros count owned w count' owned' w';
    cbn [Importer.copy_all].
  - intros [= <- <- <-]. cbn. split; [lia|]. split; [intros; lia|].
    split; [tauto | auto].
  - unfold copied_of in *. cbn [filter].
    destruct (Importer.is_shared_recrypted x) eqn:Hx; cbn [negb andb].
    + unfold bind at 1.
      destruct (Importer.copy_shared_snapshot_to_local _ _ _ _) as [[copy| | |] w1];
        try discriminate.
      unfold bind at 1.
      destruct (Importer.wait_for_snapshot_to_be_ready _ _ _ _) as [[[]| | |] w2];
        try discriminate.
      intros H. apply IH in H as (Hc & Hg & Hk & Hn).
      split; [rewrite Hc; cbn [length]; lia|]. split; [|split].
      * intros k. rewrite Hg, dict_get_set.
        destruct (String.eqb_spec (DBInstanceIdentifier x) k) as [->|Hne];
          cbn [length]; lia.
      * intros k. rewrite Hk, dict_set_keys.
        destruct (String.eqb_spec (DBInstanceIdentifier x) k) as [->|Hne].
        -- split; [intros _; right; discriminate | intros _; left; now right].
        -- split; [intros [[H| ->]|H]; auto; congruence | intros [H|H]; auto].
      * intros H. now apply Hn, dict_set_keys_nodup.
    + intros H. apply IH in H as (Hc & Hg & Hk & Hn). auto.
Qed.

End CopyCount.

(** X10.  The counters of the importer's copy loop.  When the loop over the
    listing returns, [ready_snapshot_count] has grown by the number of
    listed snapshots that pass the filter, and [snapshots_owned] holds, for
    every instance, the number of those snapshots that belong to it: its
    keys, each present once, are exactly the instances of the copied
    snapshots (with those it held before). *)
Theorem importer_copy_loop_counts
        (steps : nat) (client : RdsClient) (cfg : Config) (l : list Snapshot)
        (w w' : World) (count : Z) (owned : Dict.t) :
  Importer.copy_all steps client cfg l 0 [] w = (Ok (count, owned), w') ->
  count = Z.of_nat (length (filter Importer.is_shared_recrypted l)) /\
  (forall k, Dict.get owned k 0 = Z.of_nat (length (copied_of k l))) /\
  (forall k, In k (Dict.keys owned) <-> copied_of k l <> []) /\
  NoDup (Dict.keys owned).
Proof.
  intros H. apply copy_all_counts in H as (Hc & Hg & Hk & Hn).
  split; [lia|]. split; [intros k; rewrite Hg; cbn; lia|].
  split; [|apply Hn; constructor].
  intros k. rewrite Hk. cbn. tauto.
Qed.

Lemma importer_copy_loop_counts_witness :
  let l := [Sample.shared_snap "db1-a-recrypted" "db1" (Some 6%Z);
            Sample.snap "db2-manual" "db2" "manual" (Some 2%Z);
            Sample.shared_snap "db1-b-recrypted" "db1" (Some 7%Z)] in
  let run := Importer.copy_all 5 Sample.steady (Sample.config 2) l 0 [] (Sample.world l) in
  fst (Sample.value (0%Z, []) run) = 2%Z.
Proof.
  intros l run.
  assert (E : run = (Ok (fst (Sample.value (0%Z, []) run), snd (Sample.value (0%Z, []) run)),
                     snd run))
    by (vm_compute; reflexivity).
  destruct (importer_copy_loop_counts 5 Sample.steady (Sample.config 2) l
              (Sample.world l) (snd run)
              (fst (Sample.value (0%Z, []) run)) (snd (Sample.value (0%Z, []) run)) E)
    as (Hc & _).
  rewrite Hc. reflexivity.
Defined.

(** X11.  The importer ends normally only on the expected count: when
    [main] returns (exit status 0), the number of snapshots of the listing
    that pass the filter is [EXPECTED_SNAPSHOT_COUNT]. *)
Theorem importer_succeeds_on_expected_count
        (steps : nat) (client : RdsClient) (cfg : Config) (w w' : World) :
  Importer.main steps client cfg w = (Ok tt, w') ->
  Z.of_nat (length (filter Importer.is_shared_recrypted
                           (Rds.listing client None None None true w)))
  = EXPECTED_SNAPSHOT_COUNT cfg.
Proof.
  unfold Importer.main.
  destruct (Re.kms_key_arn_ok (KMS_KEY_ARN cfg)); cbn [negb]; [|discriminate].
  rewrite bind_describe.
  destruct (Rds.listing client None None None true w) as [|x l] eqn:El; [discriminate|].
  unfold bind at 1.
  destruct (Importer.copy_all _ _ _ _ _ _ _) as [[[count owned]| | |] w1] eqn:Ec;
    try discriminate.
  apply copy_all_counts in Ec as (Hc & _).
  unfold bind at 1.
  destruct (Importer.prune_all _ _ _ _) as [[[]| | |] w2]; try discriminate.
  cbn [fst]. unfold Importer.report.
  destruct (Z.eqb_spec count (EXPECTED_SNAPSHOT_COUNT cfg)) as [E|E]; cbn [negb].
  - intros _. lia.
  - discriminate.
Qed.

Lemma importer_succeeds_on_expected_count_witness :
  let w := Sample.world [Sample.shared_snap "db1-a-recrypted" "db1" (Some 6%Z)] in
  Z.of_nat (length (filter Importer.is_shared_recrypted
                           (Rds.listing Sample.steady None None None true w)))
  = EXPECTED_SNAPSHOT_COUNT (Sample.config 1).
Proof.
  intros w.
  apply (importer_succeeds_on_expected_count 5 Sample.steady (Sample.config 1) w
           (snd (Importer.main 5 Sample.steady (Sample.config 1) w))).
  vm_compute. reflexivity.
Defined.

(** ** What a run owes the account *)


Section Ensures.

Variable I : list Snapshot -> Prop.
Variables (kms : string) (grant notify : option string).

(** What the run may do: at least what [allowed] lets it. *)
Variable permitted : Event -> Prop.
Hypothesis permitted_allowed : forall e, allowed kms grant notify e -> permitted e.

Lemma ensures_weaken {A} (P P' : list Snapshot -> Prop)
      (Q Q' : A -> list Snapshot -> Prop) (m : M A) :
  (forall cat, P' cat -> P cat) -> (forall a cat, Q a cat -> Q' a cat) ->
  ensures I permitted P m Q -> ensures I permitted P' m Q'.
Proof.
  intros HP HQ Hm w r w' Hi Hp E.
  destruct (Hm w r w' Hi (HP _ Hp) E) as (H1 & H2 & H3).
  split; [assumption|]. split; [assumption|]. intros a Ha. auto.
Qed.

Ltac forgetting lemma :=
  eapply ensures_weaken; [| |apply lemma];
  [intros ? H; exact H | intros; exact Logic.I].

Lemma ensures_bind {A B} (P : list Snapshot -> Prop) (Q : A -> list Snapshot -> Prop)
      (R : B -> list Snapshot -> Prop) (m : M A) (k : A -> M B) :
  ensures I permitted P m Q -> (forall a, ensures I permitted (Q a) (k a) R) -> ensures I permitted P (bind m k) R.
Proof.
  intros Hm Hk w r w' Hi Hp E. unfold bind in E.
  destruct (m w) as [ra w1] eqn:Em.
  destruct (Hm w ra w1 Hi Hp Em) as (H1 & (ev1 & T1 & F1) & HQ).
  destruct ra as [a|n|e|].
  - destruct (Hk a w1 r w' H1 (HQ a eq_refl) E) as (H2 & (ev2 & T2 & F2) & HR).
    split; [assumption|]. split; [|assumption].
    exists (ev2 ++ ev1). split; [now rewrite T2, T1, app_assoc|].
    apply Forall_app. auto.
  - injection E as <- <-. split; [assumption|]. split; [eauto|]. discriminate.
  - injection E as <- <-. split; [assumption|]. split; [eauto|]. discriminate.
  - injection E as <- <-. split; [assumption|]. split; [eauto|]. discriminate.
Qed.

(** What follows needs nothing of the value and the catalog. *)
Lemma ensures_then {A B} (P : list Snapshot -> Prop) (Q : A -> list Snapshot -> Prop)
      (R : B -> list Snapshot -> Prop) (m : M A) (k : A -> M B) :
  ensures I permitted P m Q -> (forall a, ensures I permitted whatever (k a) R) -> ensures I permitted P (bind m k) R.
Proof.
  intros Hm Hk. apply (ensures_bind P Q R); [assumption|].
  intros a. eapply ensures_weaken; [| |apply Hk]; [intros; exact Logic.I | auto].
Qed.

Lemma ensures_ret {A} (P : list Snapshot -> Prop) (a : A) :
  ensures I permitted P (ret a) (fun a' cat => a' = a /\ P cat).
Proof.
  intros w r w' Hi Hp E. injection E as <- <-.
  split; [assumption|]. split; [exists []; auto|]. intros ? [= <-]. auto.
Qed.

Lemma ensures_ret_any {A} (P : list Snapshot -> Prop) (a : A) :
  ensures I permitted P (ret a) any_value.
Proof.
  forgetting @ensures_ret.
Qed.

Lemma ensures_stop {A} (P : list Snapshot -> Prop) (Q : A -> list Snapshot -> Prop)
      (m : M A) :
  (forall w, exists r, m w = (r, w) /\ forall a, r <> Ok a) -> ensures I permitted P m Q.
Proof.
  intros Hm w r w' Hi Hp E. destruct (Hm w) as (r0 & E0 & Hr). rewrite E0 in E.
  injection E as <- <-. split; [assumption|]. split; [exists []; auto|].
  intros a Ha. now elim (Hr a).
Qed.

Lemma ensures_raise {A} (P : list Snapshot -> Prop) (Q : A -> list Snapshot -> Prop)
      (e : Exn) : ensures I permitted P (raise e) Q.
Proof. apply ensures_stop. intros w. eexists. split; [reflexivity | discriminate]. Qed.

Lemma ensures_exit {A} (P : list Snapshot -> Prop) (Q : A -> list Snapshot -> Prop)
      (n : Z) : ensures I permitted P (sys_exit n) Q.
Proof. apply ensures_stop. intros w. eexists. split; [reflexivity | discriminate]. Qed.

Lemma ensures_out_of_steps {A} (P : list Snapshot -> Prop)
      (Q : A -> list Snapshot -> Prop) : ensures I permitted P (@out_of_steps A) Q.
Proof. apply ensures_stop. intros w. eexists. split; [reflexivity | discriminate]. Qed.

Lemma ensures_lift {A} (P : list Snapshot -> Prop) (x : Exn + A) :
  ensures I permitted P (lift x) (fun _ cat => P cat).
Proof.
  destruct x as [e|a]; [apply ensures_raise|].
  eapply ensures_weaken; [| |apply ensures_ret]; [intros ? H; exact H | intros ? ? [_ H]; exact H].
Qed.

Lemma ensures_emit (P : list Snapshot -> Prop) (e : Event) :
  allowed kms grant notify e -> ensures I permitted P (emit e) (fun _ cat => P cat).
Proof.
  intros He w r w' Hi Hp E. injection E as <- <-. cbn [catalog trace].
  split; [assumption|]. split; [|intros; assumption].
  exists [e]. split; [reflexivity | auto].
Qed.

Lemma ensures_events {A} (P : list Snapshot -> Prop) (Q : A -> list Snapshot -> Prop)
      (m : M A) :
  ensures I (allowed kms grant notify) P m Q -> ensures I permitted P m Q.
Proof.
  intros Hm w r w' Hi Hp E. destruct (Hm w r w' Hi Hp E) as (H1 & (events & T & F) & H3).
  split; [assumption|]. split; [|assumption].
  exists events. split; [assumption|].
  eapply Forall_impl; [|exact F]. exact permitted_allowed.
Qed.

Lemma ensures_print (P : list Snapshot -> Prop) (line : string) :
  ensures I permitted P (print line) (fun _ cat => P cat).
Proof. apply ensures_emit. exact Logic.I. Qed.

Lemma ensures_print_format (P : list Snapshot -> Prop) (template : string)
      (args : list string) :
  ensures I permitted P (print_format template args) (fun _ cat => P cat).
Proof.
  unfold print_format. destruct (Py.format template args).
  - apply ensures_raise.
  - apply ensures_print.
Qed.

Lemma ensures_sleep (P : list Snapshot -> Prop) (seconds : Z) :
  seconds = 10%Z \/ seconds = 1%Z -> ensures I permitted P (sleep seconds) (fun _ cat => P cat).
Proof.
  intros Hs w r w' Hi Hp E. injection E as <- <-. cbn [catalog trace].
  split; [assumption|]. split; [|intros; assumption].
  exists [Sleep seconds]. split; [reflexivity|].
  constructor; [apply permitted_allowed; exact Hs | constructor].
Qed.

(** A listing reports snapshots of the catalog. *)
Lemma ensures_describe (P : list Snapshot -> Prop) (client : RdsClient)
      (instance snapshot type : option string) (shared : bool) :
  ensures I permitted P (Rds.describe_db_snapshots client instance snapshot type shared)
        (fun l cat =>
           P cat /\
           exists now, l = map (Rds.refresh client now)
                               (filter (Rds.selected instance snapshot type shared) cat)).
Proof.
  intros w r w' Hi Hp E. apply describe_outcome in E as [-> Hr]. cbn [catalog trace].
  split; [assumption|]. split.
  - eexists [_]. split; [reflexivity|].
    constructor; [apply permitted_allowed; exact Logic.I | constructor].
  - destruct Hr as [->|[-> _]]; [|discriminate].
    intros l [= <-]. split; [assumption|]. now exists (clock w).
Qed.

Lemma ensures_first_item {A} (P : list Snapshot -> Prop) (l : list A) :
  ensures I permitted P (first_item l) (fun a cat => In a l /\ P cat).
Proof.
  destruct l as [|x l]; [apply ensures_raise|].
  eapply ensures_weaken; [| |apply ensures_ret]; [intros ? H; exact H|].
  intros a cat [-> H]. split; [now left | assumption].
Qed.

Lemma ensures_try {A} (P : list Snapshot -> Prop) (Q : A -> list Snapshot -> Prop)
      (body handler : M A) (e : Exn) :
  ensures I permitted P body Q -> ensures I permitted whatever handler Q -> ensures I permitted P (try_except body e handler) Q.
Proof.
  intros Hb Hh w r w' Hi Hp E. unfold try_except in E.
  destruct (body w) as [rb wb] eqn:Eb.
  destruct (Hb w rb wb Hi Hp Eb) as (H1 & (ev1 & T1 & F1) & HQ).
  destruct rb as [a|n|e'|]; try (injection E as <- <-; auto; fail).
  destruct (Exn_eqb e' e).
  - destruct (Hh wb r w' H1 Logic.I E) as (H2 & (ev2 & T2 & F2) & HQ').
    split; [assumption|]. split; [|assumption].
    exists (ev2 ++ ev1). split; [now rewrite T2, T1, app_assoc|].
    apply Forall_app. auto.
  - injection E as <- <-. split; [assumption|]. split; [eauto | assumption].
Qed.

(** *** The steps that leave the catalog alone *)

Lemma ensures_wait_loop (client : RdsClient) (snapshot : Snapshot) (steps : nat) :
  forall p, ensures I permitted whatever (Shared.wait_loop steps client snapshot p) any_value.
Proof.
  induction steps as [|steps IH]; intros p; cbn [Shared.wait_loop].
  - apply ensures_out_of_steps.
  - eapply ensures_then; [apply ensures_describe|]. intros l.
    eapply ensures_then; [apply ensures_first_item|]. intros c.
    destruct (String.eqb (Status c) "available").
    { forgetting @ensures_print_format. }
    eapply ensures_then.
    + destruct (negb _); [|apply (ensures_ret_any whatever)].
      eapply ensures_then; [apply ensures_print_format|]. intros _.
      apply (ensures_ret_any whatever).
    + intros p'. eapply ensures_then; [apply ensures_sleep; now left|]. intros _. apply IH.
Qed.

Lemma ensures_share (client : RdsClient) (snapshot : Snapshot) (account : string) :
  grant = Some account ->
  ensures I permitted whatever (Exporter.share_snapshot_with_external_account client snapshot account)
        any_value.
Proof.
  intros Hg. unfold Exporter.share_snapshot_with_external_account.
  eapply ensures_then; [apply ensures_print_format|]. intros _.
  eapply ensures_then.
  - apply ensures_emit. cbn. split; [reflexivity|]. now exists account.
  - intros _. forgetting @ensures_print_format.
Qed.

Lemma ensures_latest (client : RdsClient) (db : string) :
  ensures I permitted whatever (Exporter.get_latest_automatic_rds_snapshots client db) any_value.
Proof.
  unfold Exporter.get_latest_automatic_rds_snapshots.
  eapply ensures_then; [apply ensures_print_format|]. intros _.
  eapply ensures_then; [apply ensures_describe|]. intros l.
  destruct (Exporter.latest_scan l).
  - eapply ensures_then; [apply ensures_print_format|]. intros _.
    apply (ensures_ret_any whatever).
  - eapply ensures_then; [apply ensures_print_format|]. intros _.
    apply (ensures_ret_any whatever).
Qed.

Lemma ensures_exporter_count (client : RdsClient) (db : string) :
  ensures I permitted whatever (Exporter.get_manual_recrypted_rds_snapshots_count client db) any_value.
Proof.
  unfold Exporter.get_manual_recrypted_rds_snapshots_count.
  eapply ensures_then; [apply ensures_print_format|]. intros _.
  eapply ensures_then; [apply ensures_describe|]. intros l.
  eapply ensures_then; [apply ensures_print_format|]. intros _.
  apply (ensures_ret_any whatever).
Qed.

Lemma ensures_importer_count (client : RdsClient) (db : string) :
  ensures I permitted whatever (Importer.get_owned_rds_snapshots_count client db) any_value.
Proof.
  unfold Importer.get_owned_rds_snapshots_count.
  eapply ensures_then; [apply ensures_print_format|]. intros _.
  eapply ensures_then; [apply ensures_describe|]. intros l.
  eapply ensures_then; [apply ensures_print_format|]. intros _.
  apply (ensures_ret_any whatever).
Qed.

Lemma oldest_scan_recrypted (l : list Snapshot) :
  forall acc o,
    Shared.oldest_scan acc l = inr (Some o) ->
    acc = Some o \/ (In o l /\ is_recrypted o = true).
Proof.
  induction l as [|x l IH]; cbn [Shared.oldest_scan]; intros acc o H.
  - left. congruence.
  - destruct (Shared.oldest_step acc x) as [e|acc'] eqn:Es; [discriminate|].
    destruct (IH _ _ H) as [->|[Hin Hk]]; [|right; split; [now right | assumption]].
    unfold Shared.oldest_step in Es.
    destruct (is_recrypted x) eqn:Hx; cbn [negb] in Es; [|left; congruence].
    destruct acc as [a|].
    + destruct (SnapshotCreateTime x) as [t|]; [|discriminate].
      destruct (SnapshotCreateTime a) as [t0|]; [|discriminate].
      injection Es as Es. destruct (t <? t0)%Z; [right | left]; [|congruence].
      split; [left|]; congruence.
    + destruct (SnapshotCreateTime x) as [t|]; [|discriminate].
      injection Es as Es. right. destruct (t <? t)%Z; split; try (left; congruence);
        congruence.
Qed.

(** The oldest finder returns the report of a manual snapshot of the
    catalog with ["recrypted"] in its identifier. *)
Lemma ensures_oldest (client : RdsClient) (db : string) :
  ensures I permitted whatever (Shared.get_oldest_manual_recrypted_rds_snapshots client db)
        (fun o cat => prunable (DBSnapshotIdentifier o) cat).
Proof.
  unfold Shared.get_oldest_manual_recrypted_rds_snapshots.
  eapply ensures_then; [apply ensures_print_format|]. intros _.
  eapply ensures_bind; [apply ensures_describe|]. intros l. cbn beta.
  eapply ensures_bind
    with (Q := fun acc cat => forall o, acc = Some o ->
                                        prunable (DBSnapshotIdentifier o) cat).
  - destruct (Shared.oldest_scan None l) as [e|acc] eqn:Es; cbn [lift];
      [apply ensures_raise|].
    eapply ensures_weaken; [| |apply ensures_ret]; [intros ? H; exact H|].
    cbn beta. intros acc' cat [-> [_ (now & ->)]] o ->.
    apply oldest_scan_recrypted in Es as [[=]|[Hin Hk]].
    apply in_map_iff in Hin as (c & <- & Hc). apply filter_In in Hc as [Hc Hsel].
    exists c. split; [assumption|]. split; [|split; [exact Hk | reflexivity]].
    unfold Rds.selected in Hsel. apply andb_prop in Hsel as [_ Hsel].
    now apply String.eqb_eq.
  - intros [o|]; [|apply ensures_raise].
    eapply ensures_bind; [apply ensures_print_format|]. intros u. cbn beta. clear u.
    eapply ensures_weaken; [| |apply ensures_ret]; [intros ? H; exact H|].
    cbn beta. intros a cat [-> H]. now apply H.
Qed.

(** *** The two requests that change the catalog *)

Hypothesis I_copy :
  forall cat c,
    I cat -> existsb (Rds.has_identifier (DBSnapshotIdentifier c)) cat = false ->
    SnapshotType c = "manual" -> I (cat ++ [c]).

Hypothesis I_delete :
  forall cat c,
    I cat -> In c cat -> SnapshotType c = "manual" -> is_recrypted c = true ->
    I (without c cat).

Lemma ensures_copy (client : RdsClient) (source target : string) :
  ensures I permitted whatever (Rds.copy_db_snapshot client source target kms) any_value.
Proof.
  intros w r w' Hi _ E. unfold Rds.copy_db_snapshot in E.
  assert (Hev : exists events,
             CopyDBSnapshot source target kms :: trace w = events ++ trace w /\
             Forall permitted events).
  { exists [CopyDBSnapshot source target kms]. split; [reflexivity|].
    constructor; [apply permitted_allowed; reflexivity | constructor]. }
  destruct (existsb (Rds.has_identifier target) (catalog w)) eqn:Hex.
  - injection E as <- <-. split; [assumption|]. split; [exact Hev | intros; exact Logic.I].
  - destruct (find (Rds.is_source source) (catalog w)) as [src|].
    + injection E as <- <-. cbn [catalog trace].
      split; [|split; [exact Hev | intros; exact Logic.I]].
      apply I_copy; [assumption | exact Hex | reflexivity].
    + injection E as <- <-. split; [assumption|].
      split; [exact Hev | intros; exact Logic.I].
Qed.

Lemma ensures_delete (id : string) :
  ensures I permitted (prunable id) (Rds.delete_db_snapshot id) any_value.
Proof.
  intros w r w' Hi (c & Hc & Hm & Hk & ->) E. unfold Rds.delete_db_snapshot in E.
  assert (Hev : exists events,
             DeleteDBSnapshot (DBSnapshotIdentifier c) :: trace w = events ++ trace w /\
             Forall permitted events).
  { exists [DeleteDBSnapshot (DBSnapshotIdentifier c)]. split; [reflexivity|].
    constructor; [apply permitted_allowed; exact Hk | constructor]. }
  destruct (existsb (Rds.has_identifier (DBSnapshotIdentifier c)) (catalog w)).
  - injection E as <- <-. cbn [catalog trace].
    split; [|split; [exact Hev | intros; exact Logic.I]].
    now apply I_delete.
  - injection E as <- <-. split; [assumption|].
    split; [exact Hev | intros; exact Logic.I].
Qed.

Lemma ensures_recrypt (client : RdsClient) (snapshot : Snapshot) :
  ensures I permitted whatever (Exporter.recrypt_snapshot_with_new_key client snapshot kms) any_value.
Proof.
  unfold Exporter.recrypt_snapshot_with_new_key.
  eapply ensures_then; [apply ensures_lift|]. intros target.
  eapply ensures_then; [apply ensures_print_format|]. intros _.
  apply ensures_try.
  - eapply ensures_then; [apply ensures_copy|]. intros copy.
    eapply ensures_then; [apply ensures_print_format|]. intros _.
    apply (ensures_ret_any whatever).
  - eapply ensures_then; [apply ensures_print_format|]. intros _.
    eapply ensures_then; [apply ensures_describe|]. intros l.
    forgetting @ensures_first_item.
Qed.

Lemma ensures_copy_shared (client : RdsClient) (shared : Snapshot) :
  ensures I permitted whatever (Importer.copy_shared_snapshot_to_local client shared kms) any_value.
Proof.
  unfold Importer.copy_shared_snapshot_to_local.
  eapply ensures_then; [apply ensures_lift|]. intros target.
  eapply ensures_then; [apply ensures_print_format|]. intros _.
  apply ensures_try.
  - eapply ensures_then; [apply ensures_copy|]. intros copy.
    eapply ensures_then; [apply ensures_print|]. intros _.
    apply (ensures_ret_any whatever).
  - eapply ensures_then; [apply ensures_print_format|]. intros _.
    eapply ensures_then; [apply ensures_describe|]. intros l.
    eapply ensures_then; [apply ensures_print|]. intros _.
    forgetting @ensures_first_item.
Qed.

Lemma ensures_exporter_prune (client : RdsClient) (db : string) (steps : nat) :
  ensures I permitted whatever (Exporter.prune steps client db) any_value.
Proof.
  induction steps as [|steps IH]; cbn [Exporter.prune].
  - apply ensures_out_of_steps.
  - eapply ensures_then; [apply ensures_exporter_count|]. intros count.
    destruct (count >? 2)%Z; [|apply (ensures_ret_any whatever)].
    eapply ensures_bind; [apply ensures_oldest|]. intros o. cbn beta.
    eapply ensures_bind; [apply ensures_print_format|]. intros u. cbn beta. clear u.
    eapply ensures_then; [apply ensures_delete|]. intros _.
    eapply ensures_then; [apply ensures_sleep; now right|]. intros _.
    exact IH.
Qed.

Lemma ensures_importer_prune (client : RdsClient) (db : string) (steps : nat) :
  ensures I permitted whatever (Importer.prune steps client db) any_value.
Proof.
  induction steps as [|steps IH]; cbn [Importer.prune].
  - apply ensures_out_of_steps.
  - eapply ensures_then; [apply ensures_importer_count|]. intros count.
    destruct (count >? 2)%Z; [|apply (ensures_ret_any whatever)].
    eapply ensures_bind; [apply ensures_oldest|]. intros o. cbn beta.
    eapply ensures_bind; [apply ensures_print_format|]. intros u. cbn beta. clear u.
    eapply ensures_then; [apply ensures_delete|]. intros _.
    eapply ensures_then; [apply ensures_sleep; now right|]. intros _.
    exact IH.
Qed.

(** *** The exporter *)

Lemma ensures_process_instance (steps : nat) (client : RdsClient) (cfg : Config)
      (db : DBInstance.t) (count : Z) :
  kms = KMS_KEY_ARN cfg -> grant = Some (TARGET_ACCOUNT cfg) ->
  ensures I permitted whatever (Exporter.process_instance steps client cfg db count) any_value.
Proof.
  intros Hk Hg. unfold Exporter.process_instance.
  eapply ensures_then; [apply ensures_latest|]. intros [snapshot|];
    [|apply (ensures_ret_any whatever)].
  eapply ensures_then; [rewrite <- Hk; apply ensures_recrypt|]. intros copy.
  eapply ensures_then; [apply ensures_wait_loop|]. intros _.
  eapply ensures_then; [now apply ensures_share|]. intros _.
  eapply ensures_then; [apply ensures_exporter_prune|]. intros _.
  apply (ensures_ret_any whatever).
Qed.

Lemma ensures_process_instances (steps : nat) (client : RdsClient) (cfg : Config)
      (instances : list DBInstance.t) :
  kms = KMS_KEY_ARN cfg -> grant = Some (TARGET_ACCOUNT cfg) ->
  forall count,
    ensures I permitted whatever (Exporter.process_instances steps client cfg instances count) any_value.
Proof.
  intros Hk Hg. induction instances as [|db rest IH]; intros count;
    cbn [Exporter.process_instances].
  - apply (ensures_ret_any whatever).
  - eapply ensures_then; [now apply ensures_process_instance|]. intros n. apply IH.
Qed.

Lemma ensures_exporter_report (cfg : Config) (ready : Z) :
  notify = notified cfg ->
  ensures I permitted whatever (Exporter.report cfg ready) any_value.
Proof.
  intros Hn. unfold Exporter.report. destruct (negb _).
  - eapply ensures_then; [apply ensures_lift|]. intros message.
    eapply ensures_then; [apply ensures_print|]. intros _.
    eapply ensures_then with (Q := any_value); [|intros _; apply ensures_exit].
    destruct (negb (debug cfg) && negb (is_empty (TOPIC_ARN cfg))) eqn:Ec.
    + eapply ensures_weaken; [| |apply ensures_emit];
        [intros ? H; exact H | intros; exact Logic.I|].
      cbn. unfold notified in Hn. now rewrite Ec in Hn.
    + apply (ensures_ret_any whatever).
  - forgetting @ensures_print.
Qed.

Lemma ensures_exporter_script (steps : nat) (client : RdsClient) (cfg : Config)
      (instances : list DBInstance.t) :
  kms = KMS_KEY_ARN cfg -> grant = Some (TARGET_ACCOUNT cfg) -> notify = notified cfg ->
  permitted DescribeDBInstances ->
  ensures I permitted whatever (Exporter.script steps client cfg instances) any_value.
Proof.
  intros Hk Hg Hn Hlist. unfold Exporter.script.
  destruct (AWS_DEFAULT_REGION cfg).
  - destruct (_ && _); [apply ensures_exit|]. unfold Exporter.main.
    destruct (negb _).
    { eapply ensures_then; [apply ensures_print|]. intros _. apply ensures_exit. }
    destruct (negb _).
    { eapply ensures_then; [apply ensures_print|]. intros _. apply ensures_exit. }
    eapply ensures_then with (Q := fun _ cat => whatever cat).
    { intros w r w' Hi Hp Er. injection Er as <- <-. cbn [catalog trace].
      split; [assumption|]. split; [|intros; assumption].
      exists [DescribeDBInstances]. split; [reflexivity|].
      constructor; [exact Hlist | constructor]. }
    intros _.
    eapply ensures_then.
    { destruct instances; apply ensures_print_format. }
    intros _. eapply ensures_then; [now apply ensures_process_instances|].
    intros ready. now apply ensures_exporter_report.
  - eapply ensures_then; [apply ensures_print|]. intros _. apply ensures_exit.
Qed.

(** *** The importer *)

Lemma ensures_copy_all (steps : nat) (client : RdsClient) (cfg : Config)
      (l : list Snapshot) :
  kms = KMS_KEY_ARN cfg ->
  forall count owned,
    ensures I permitted whatever (Importer.copy_all steps client cfg l count owned) any_value.
Proof.
  intros Hk. induction l as [|x l IH]; intros count owned; cbn [Importer.copy_all].
  - apply (ensures_ret_any whatever).
  - destruct (negb _); [apply IH|].
    eapply ensures_then; [rewrite <- Hk; apply ensures_copy_shared|]. intros copy.
    eapply ensures_then; [apply ensures_wait_loop|]. intros _. apply IH.
Qed.

Lemma ensures_prune_all (steps : nat) (client : RdsClient) (keys : list string) :
  ensures I permitted whatever (Importer.prune_all steps client keys) any_value.
Proof.
  induction keys as [|k keys IH]; cbn [Importer.prune_all].
  - apply (ensures_ret_any whatever).
  - eapply ensures_then; [apply ensures_importer_prune|]. intros _. exact IH.
Qed.

(** The importer never gets to publish: where the counts differ the
    formatting of the message has raised. *)
Lemma ensures_importer_report (cfg : Config) (ready : Z) :
  ensures I permitted whatever (Importer.report cfg ready) any_value.
Proof.
  unfold Importer.report. destruct (negb _).
  - cbn [Py.format Py.format_from Ascii.eqb Bool.eqb andb nth_error append
         Py.is_digit Py.digit_value]. cbn.
    apply ensures_raise.
  - forgetting @ensures_print.
Qed.

Lemma ensures_importer_script (steps : nat) (client : RdsClient) (cfg : Config) :
  kms = KMS_KEY_ARN cfg ->
  ensures I permitted whatever (Importer.script steps client cfg) any_value.
Proof.
  intros Hk. unfold Importer.script.
  destruct (AWS_DEFAULT_REGION cfg).
  - destruct (_ && _); [apply ensures_exit|]. unfold Importer.main.
    destruct (negb _).
    { eapply ensures_then; [apply ensures_print|]. intros _. apply ensures_exit. }
    eapply ensures_then; [apply ensures_describe|]. intros [|x l].
    { eapply ensures_then; [apply ensures_print|]. intros _. apply ensures_exit. }
    eapply ensures_then; [now apply ensures_copy_all|]. intros copied.
    eapply ensures_then; [apply ensures_prune_all|]. intros _.
    apply ensures_importer_report.
  - eapply ensures_then; [apply ensures_print|]. intros _. apply ensures_exit.
Qed.

End Ensures.

(** *** The account's other snapshots *)

Section Safe.

Variable before : list Snapshot.

Lemma safe_refl : safe before before.
Proof. split; auto. Qed.

Lemma safe_copy (cat : list Snapshot) (c : Snapshot) :
  safe before cat ->
  existsb (Rds.has_identifier (DBSnapshotIdentifier c)) cat = false ->
  SnapshotType c = "manual" ->
  safe before (cat ++ [c]).
Proof.
  intros [Hkeep Huniq] Hfresh Hm. split.
  - intros s Hs Hk. apply in_or_app. left. auto.
  - intros Hnd. destruct (Huniq Hnd) as [Hnd' Hf]. split.
    + rewrite map_app. cbn [map].
      apply NoDup_app; [assumption | constructor; [intros [] | constructor] |].
      intros id Hid [<-|[]].
      apply in_map_iff in Hid as (x & Hx & Hxin).
      assert (existsb (Rds.has_identifier (DBSnapshotIdentifier c)) cat = true).
      { apply existsb_exists. exists x. split; [assumption|].
        unfold Rds.has_identifier. now apply String.eqb_eq. }
      congruence.
    + rewrite filter_app, Hf. cbn [filter]. unfold not_manual at 2.
      rewrite Hm. cbn. apply app_nil_r.
Qed.

Lemma safe_delete (cat : list Snapshot) (c : Snapshot) :
  safe before cat -> In c cat -> SnapshotType c = "manual" -> is_recrypted c = true ->
  safe before (without c cat).
Proof.
  intros [Hkeep Huniq] Hc Hm Hk. unfold without. split.
  - intros s Hs Hks. apply filter_In. split; [auto|].
    unfold Rds.has_identifier. apply negb_true_iff, String.eqb_neq. intros E.
    unfold is_recrypted in *. rewrite E in Hks. congruence.
  - intros Hnd. destruct (Huniq Hnd) as [Hnd' Hf]. split.
    + now apply NoDup_map_filter.
    + rewrite <- Hf, filter_filter. apply filter_ext_in. intros x Hx.
      destruct (not_manual x) eqn:Hx'; [|apply andb_false_r].
      rewrite andb_true_r. unfold Rds.has_identifier.
      apply negb_true_iff, String.eqb_neq. intros E.
      assert (x = c) by (eapply NoDup_map_injective; eauto). subst x.
      unfold not_manual in Hx'. rewrite Hm in Hx'. discriminate.
Qed.

End Safe.

(** X12.  What the exporter asks of the outside.  However a run ends, each
    thing it has done is a printed line, a sleep of 10 or of 1, the listing
    of the instances that line 53 leaves to the helper module, a listing of
    snapshots, a copy request with the configured [KMS_KEY_ARN], a grant of
    the ["restore"] attribute to the configured [TARGET_ACCOUNT] and to
    nobody else, the deletion of an identifier that contains
    ["recrypted"], or a notification of the configured topic, the last
    never in a debug run. *)
Theorem exporter_requests
        (steps : nat) (client : RdsClient) (cfg : Config)
        (filtered_instances : list DBInstance.t) (w : World) :
  let run := Exporter.script steps client cfg filtered_instances w in
  exists events,
    trace (snd run) = events ++ trace w /\
    Forall (exporter_allowed (KMS_KEY_ARN cfg) (TARGET_ACCOUNT cfg) (notified cfg)) events.
Proof.
  intros run.
  destruct (ensures_exporter_script (safe (catalog w)) _ _ _
              (exporter_allowed (KMS_KEY_ARN cfg) (TARGET_ACCOUNT cfg) (notified cfg))
              (fun e H => or_intror H)
              (safe_copy (catalog w)) (safe_delete (catalog w))
              steps client cfg filtered_instances eq_refl eq_refl eq_refl
              (or_introl eq_refl)
              w (fst run) (snd run) (safe_refl _) Logic.I)
    as (_ & H & _); [apply surjective_pairing | exact H].
Qed.

(** X13.  What the exporter leaves of the catalog.  However a run ends, every
    snapshot whose identifier does not contain ["recrypted"] is still in
    the catalog; and on an account whose identifiers are unique (as the
    service keeps them) they still are, and the snapshots that are not
    manual ones, the automated ones among them, are exactly what they
    were. *)
Theorem exporter_keeps_other_snapshots
        (steps : nat) (client : RdsClient) (cfg : Config)
        (filtered_instances : list DBInstance.t) (w : World) :
  safe (catalog w)
       (catalog (snd (Exporter.script steps client cfg filtered_instances w))).
Proof.
  set (run := Exporter.script steps client cfg filtered_instances w).
  destruct (ensures_exporter_script (safe (catalog w)) _ _ _
              (exporter_allowed (KMS_KEY_ARN cfg) (TARGET_ACCOUNT cfg) (notified cfg))
              (fun e H => or_intror H)
              (safe_copy (catalog w)) (safe_delete (catalog w))
              steps client cfg filtered_instances eq_refl eq_refl eq_refl
              (or_introl eq_refl)
              w (fst run) (snd run) (safe_refl _) Logic.I)
    as (H & _); [apply surjective_pairing | exact H].
Qed.

(** X14.  What the importer asks of the outside.  However a run ends, each
    thing it has done is a printed line, a sleep of 10 or of 1, a listing,
    a copy request with the configured [KMS_KEY_ARN], or the deletion of an
    identifier that contains ["recrypted"]: it grants nothing and, the
    alert being what it is, notifies nobody. *)
Theorem importer_requests
        (steps : nat) (client : RdsClient) (cfg : Config) (w : World) :
  let run := Importer.script steps client cfg w in
  exists events,
    trace (snd run) = events ++ trace w /\
    Forall (allowed (KMS_KEY_ARN cfg) None None) events.
Proof.
  intros run.
  destruct (ensures_importer_script (safe (catalog w)) _ None None
              (allowed (KMS_KEY_ARN cfg) None None) (fun e H => H)
              (safe_copy (catalog w)) (safe_delete (catalog w))
              steps client cfg eq_refl
              w (fst run) (snd run) (safe_refl _) Logic.I)
    as (_ & H & _); [apply surjective_pairing | exact H].
Qed.

(** X15.  What the importer leaves of the catalog: however a run ends, every
    snapshot whose identifier does not contain ["recrypted"] is still
    there; and on an account whose identifiers are unique they still are,
    and the snapshots that are not manual ones, the shared ones among them,
    are exactly what they were. *)
Theorem importer_keeps_other_snapshots
        (steps : nat) (client : RdsClient) (cfg : Config) (w : World) :
  safe (catalog w) (catalog (snd (Importer.script steps client cfg w))).
Proof.
  set (run := Importer.script steps client cfg w).
  destruct (ensures_importer_script (safe (catalog w)) _ None None
              (allowed (KMS_KEY_ARN cfg) None None) (fun e H => H)
              (safe_copy (catalog w)) (safe_delete (catalog w))
              steps client cfg eq_refl
              w (fst run) (snd run) (safe_refl _) Logic.I)
    as (H & _); [apply surjective_pairing | exact H].
Qed.

(** ** The count of the exporter *)

Section ReadyCount.

Variables (steps : nat) (client : RdsClient) (cfg : Config).

Lemma latest_fold_some (l : list Snapshot) :
  forall m, exists m', fold_left Exporter.latest_step l (Some m) = Some m' /\
                       (m' = m \/ In m' l).
Proof.
  induction l as [|x l IH]; intros m; cbn [fold_left].
  - exists m. auto.
  - assert (Hs : Exporter.latest_step (Some m) x = Some m \/
                 Exporter.latest_step (Some m) x = Some x).
    { unfold Exporter.latest_step.
      destruct (SnapshotCreateTime x), (SnapshotCreateTime m); auto.
      destruct (_ >? _)%Z; auto. }
    destruct Hs as [-> | ->].
    + destruct (IH m) as (m' & E & Hin). exists m'. split; [exact E|].
      destruct Hin as [->|Hin]; [now left | right; now right].
    + destruct (IH x) as (m' & E & Hin). exists m'. split; [exact E|].
      right. destruct Hin as [->|Hin]; [now left | now right].
Qed.

Lemma latest_scan_listed (l : list Snapshot) :
  (Exporter.latest_scan l = None <-> l = []) /\
  (forall m, Exporter.latest_scan l = Some m -> In m l).
Proof.
  unfold Exporter.latest_scan. destruct l as [|x l]; cbn [fold_left].
  - split; [tauto | discriminate].
  - rewrite latest_step_first. destruct (latest_fold_some l x) as (m' & E & Hin).
    rewrite E. split; [split; discriminate|].
    intros m [= <-]. destruct Hin as [->|Hin]; [now left | now right].
Qed.

Lemma has_automated_listing (db : DBInstance.t) (w : World) :
  has_automated (catalog w) db = false <->
  Rds.listing client (Some (DBInstance.DBInstanceIdentifier db)) None
              (Some "automated") false w = [].
Proof.
  unfold has_automated, Rds.listing.
  set (sel := Rds.selected _ _ _ _). split.
  - intros H. replace (filter sel (catalog w)) with (@nil Snapshot); [reflexivity|].
    symmetry. destruct (filter sel (catalog w)) as [|c rest] eqn:E; [reflexivity|].
    assert (Hc : In c (filter sel (catalog w))) by (rewrite E; now left).
    apply filter_In in Hc as [Hin Hc].
    assert (existsb sel (catalog w) = true) by (apply existsb_exists; eauto).
    congruence.
  - intros H. apply not_true_is_false. intros Hex.
    apply existsb_exists in Hex as (x & Hx & Hsel).
    assert (Hf : In x (filter sel (catalog w))) by (apply filter_In; auto).
    destruct (filter sel (catalog w)); [contradiction | discriminate].
Qed.

(** A turn of the loop counts its instance when, and only when, the
    instance has an automated snapshot. *)
Lemma process_instance_count (db : DBInstance.t) (count : Z) (w w' : World) (r : Z) :
  Exporter.process_instance steps client cfg db count w = (Ok r, w') ->
  r = (count + if has_automated (catalog w) db then 1 else 0)%Z.
Proof.
  unfold Exporter.process_instance, bind at 1.
  destruct (get_latest_runs client (DBInstance.DBInstanceIdentifier db) w)
    as (lines & E & _).
  rewrite E. pose proof (has_automated_listing db w) as Hl.
  destruct (latest_scan_listed
              (Rds.listing client (Some (DBInstance.DBInstanceIdentifier db)) None
                           (Some "automated") false w)) as [Hnone _].
  destruct (Exporter.latest_scan _) as [snapshot|].
  - assert (Ha : has_automated (catalog w) db = true).
    { apply not_false_is_true. intros H. apply Hl, Hnone in H. discriminate. }
    rewrite Ha.
    unfold bind.
    destruct (Exporter.recrypt_snapshot_with_new_key _ _ _ _) as [[copy| | |] w1];
      try discriminate.
    destruct (Exporter.wait_for_snapshot_to_be_ready _ _ _ _) as [[[]| | |] w2];
      try discriminate.
    destruct (Exporter.share_snapshot_with_external_account _ _ _ _) as [[[]| | |] w3];
      try discriminate.
    destruct (Exporter.prune _ _ _ _) as [[[]| | |] w4]; try discriminate.
    unfold ret. now intros [= <- _].
  - assert (Ha : has_automated (catalog w) db = false) by (apply Hl, Hnone; reflexivity).
    rewrite Ha. unfold ret. intros [= <- _]. lia.
Qed.

Lemma existsb_filter {A} (p q : A -> bool) (l : list A) :
  (forall x, p x = true -> q x = true) -> existsb p (filter q l) = existsb p l.
Proof.
  intros H. induction l as [|x l IH]; [reflexivity|].
  cbn [filter existsb]. destruct (q x) eqn:Hq; cbn [existsb]; rewrite IH; [reflexivity|].
  destruct (p x) eqn:Hp; [|reflexivity]. rewrite (H x Hp) in Hq. discriminate.
Qed.

Lemma has_automated_safe (before cat : list Snapshot) (db : DBInstance.t) :
  NoDup (map DBSnapshotIdentifier before) -> safe before cat ->
  has_automated cat db = has_automated before db.
Proof.
  intros Hnd [_ H]. destruct (H Hnd) as [_ Hf]. unfold has_automated.
  rewrite <- (existsb_filter _ not_manual cat), <- (existsb_filter _ not_manual before).
  - now rewrite Hf.
  - intros x Hx. unfold Rds.selected in Hx. apply andb_prop in Hx as [_ Hx].
    apply String.eqb_eq in Hx. unfold not_manual. now rewrite Hx.
  - intros x Hx. unfold Rds.selected in Hx. apply andb_prop in Hx as [_ Hx].
    apply String.eqb_eq in Hx. unfold not_manual. now rewrite Hx.
Qed.

Lemma process_instances_count (before : list Snapshot) (instances : list DBInstance.t) :
  NoDup (map DBSnapshotIdentifier before) ->
  forall (count : Z) (w w' : World) (r : Z),
    safe before (catalog w) ->
    Exporter.process_instances steps client cfg instances count w = (Ok r, w') ->
    r = (count + Z.of_nat (length (filter (has_automated before) instances)))%Z.
Proof.
  intros Hnd. induction instances as [|db rest IH]; intros count w w' r Hs;
    cbn [Exporter.process_instances].
  - unfold ret. intros [= <- _]. cbn. lia.
  - unfold bind.
    destruct (Exporter.process_instance steps client cfg db count w)
      as [[c| | |] w1] eqn:Epi; try discriminate.
    intros H.
    destruct (ensures_process_instance (safe before) (KMS_KEY_ARN cfg)
                (Some (TARGET_ACCOUNT cfg)) (notified cfg)
                (allowed (KMS_KEY_ARN cfg) (Some (TARGET_ACCOUNT cfg)) (notified cfg))
                (fun e H => H)
                (safe_copy before) (safe_delete before)
                steps client cfg db count eq_refl eq_refl
                w (Ok c) w1 Hs Logic.I Epi) as (Hs1 & _).
    apply process_instance_count in Epi.
    rewrite (has_automated_safe before (catalog w) db Hnd Hs) in Epi.
    apply (IH _ _ _ _ Hs1) in H. cbn [filter].
    destruct (has_automated before db); cbn [length]; lia.
Qed.

End ReadyCount.

(** X16.  What the exporter counts.  On an account whose snapshot
    identifiers are unique, when the loop over the instances returns,
    [ready_snapshot_count] is the number of the instances that had an
    automated snapshot when the run began; and [main] returns (exit status
    0) only if that number is [EXPECTED_SNAPSHOT_COUNT]. *)
Theorem exporter_counts_ready_instances
        (steps : nat) (client : RdsClient) (cfg : Config)
        (filtered_instances : list DBInstance.t) (w : World) :
  NoDup (map DBSnapshotIdentifier (catalog w)) ->
  (forall ready w',
      Exporter.process_instances steps client cfg filtered_instances 0 w = (Ok ready, w') ->
      ready = Z.of_nat (length (filter (has_automated (catalog w)) filtered_instances))) /\
  (forall w',
      Exporter.main steps client cfg filtered_instances w = (Ok tt, w') ->
      Z.of_nat (length (filter (has_automated (catalog w)) filtered_instances))
      = EXPECTED_SNAPSHOT_COUNT cfg).
Proof.
  intros Hnd. split.
  - intros ready w' H.
    apply (process_instances_count steps client cfg (catalog w) filtered_instances Hnd
             0%Z w w' ready (safe_refl _)) in H. lia.
  - intros w'. unfold Exporter.main.
    destruct (negb (Re.account_id _)); [discriminate|].
    destruct (negb (Re.kms_key_arn_ok _)); [discriminate|].
    unfold bind at 1, Snapshots_tool_utils.paginate_api_call, emit.
    unfold bind at 1.
    match goal with |- context [match ?g ?w0 with _ => _ end] =>
      assert (Hg : exists r lines, g w0 = (r, {| catalog := catalog w; clock := clock w;
                                                trace := lines ++ trace w |}))
    end.
    { destruct filtered_instances; unfold print_format;
        match goal with |- context [Py.format ?t ?a] => destruct (Py.format t a) end;
        first [ eexists _, [_]; reflexivity | eexists _, [_; _]; reflexivity ]. }
    destruct Hg as (rg & lines & ->). destruct rg as [[]| | |]; try discriminate.
    unfold bind at 1.
    destruct (Exporter.process_instances _ _ _ _ _ _) as [[ready| | |] w1] eqn:Ep;
      try discriminate.
    eapply (process_instances_count steps client cfg (catalog w) filtered_instances Hnd)
      in Ep; [|apply safe_refl].
    unfold Exporter.report.
    destruct (Z.eqb_spec ready (EXPECTED_SNAPSHOT_COUNT cfg)) as [E|E]; cbn [negb].
    + intros _. lia.
    + unfold bind. destruct (lift _ w1) as [[m| | |] w2]; try discriminate.
      unfold print, emit.
      destruct (_ && _); unfold sns_publish, emit, ret, sys_exit; discriminate.
Qed.

Lemma exporter_counts_ready_instances_witness :
  let w := Sample.world [Sample.snap "rds:db1-a" "db1" "automated" (Some 5%Z);
                         Sample.snap "db2-before-upgrade" "db2" "manual" (Some 1%Z)] in
  let instances := [ {| DBInstance.DBInstanceIdentifier := "db1" |};
                     {| DBInstance.DBInstanceIdentifier := "db2" |} ] in
  Z.of_nat (length (filter (has_automated (catalog w)) instances))
  = EXPECTED_SNAPSHOT_COUNT (Sample.config 1).
Proof.
  intros w instances.
  refine (proj2 (exporter_counts_ready_instances 5 Sample.steady (Sample.config 1)
                   instances w _)
                (snd (Exporter.main 5 Sample.steady (Sample.config 1) instances w)) _).
  - repeat constructor; cbn; intuition discriminate.
  - vm_compute. reflexivity.
Defined.

(** ** The importer's pruning loop *)

Section ImporterPrune.

Variables (client : RdsClient) (db : string).

Lemma is_owned_copy_refresh (now : Z) (s : Snapshot) :
  Importer.is_owned_copy (Rds.refresh client now s) = Importer.is_owned_copy s.
Proof. reflexivity. Qed.

Lemma filter_owned_refresh (now : Z) (l : list Snapshot) :
  filter Importer.is_owned_copy (map (Rds.refresh client now) l)
  = map (Rds.refresh client now) (filter Importer.is_owned_copy l).
Proof.
  induction l as [|x l IH]; [reflexivity|].
  cbn [map filter]. rewrite is_owned_copy_refresh.
  destruct (Importer.is_owned_copy x); cbn [map]; now rewrite IH.
Qed.

Lemma importer_count_runs (w : World) :
  exists lines,
    Importer.get_owned_rds_snapshots_count client db w
    = (Ok (Z.of_nat (length (owned db w))),
       {| catalog := catalog w; clock := clock w; trace := lines ++ trace w |}) /\
    deletions lines = [].
Proof.
  unfold Importer.get_owned_rds_snapshots_count.
  run_format. unfold Rds.describe_db_snapshots, Rds.listing. run_monad.
  rewrite filter_owned_refresh, filter_filter, length_map.
  eexists [_; _; _]. split; reflexivity.
Qed.

Lemma filter_length_le {A} (p q : A -> bool) (l : list A) :
  (forall x, In x l -> p x = true -> q x = true) ->
  length (filter p l) <= length (filter q l).
Proof.
  induction l as [|x l IH]; intros H; [reflexivity|].
  cbn [filter]. assert (IH' := IH (fun y Hy => H y (or_intror Hy))).
  destruct (p x) eqn:Hp.
  - rewrite (H x (or_introl eq_refl) Hp). cbn [length]. lia.
  - destruct (q x); cbn [length]; lia.
Qed.

Lemma owned_retained_length (w : World) :
  length (owned db w) <= length (retained db w).
Proof.
  unfold owned, retained. apply filter_length_le. intros x _ H.
  apply andb_prop in H as [-> H]. cbn [andb].
  now apply owned_copy_is_recrypted.
Qed.

(** Where every retained snapshot is a local copy, the counter counts the
    retained snapshots. *)
Lemma owned_is_retained (w : World) :
  (forall s, In s (retained db w) -> Importer.is_owned_copy s = true) ->
  owned db w = retained db w.
Proof.
  intros H. unfold owned, retained in *. apply filter_ext_in. intros x Hx.
  destruct (Rds.selected (Some db) None (Some "manual") false x) eqn:Hs;
    [|reflexivity]. cbn [andb].
  destruct (is_recrypted x) eqn:Hk.
  - apply H, filter_In. split; [assumption|]. now rewrite Hs, Hk.
  - apply not_true_is_false. intros Ho.
    apply owned_copy_is_recrypted in Ho. unfold is_recrypted in Hk. congruence.
Qed.

Lemma importer_prune_turn (k : nat) (w : World) :
  (forall s, In s (retained db w) -> SnapshotCreateTime s <> None) ->
  2 < length (owned db w) ->
  exists c w1 lines,
    In c (retained db w) /\
    (forall s, In s (retained db w) -> not_later c s) /\
    catalog w1 = without c (catalog w) /\
    trace w1 = lines ++ trace w /\
    deletions lines = [DBSnapshotIdentifier c] /\
    Importer.prune (S k) client db w = Importer.prune k client db w1.
Proof.
  intros Ht Hn.
  destruct (importer_count_runs w) as (l1 & E1 & D1).
  set (w0 := {| catalog := catalog w; clock := clock w; trace := l1 ++ trace w |}) in *.
  destruct (oldest_of_retained client db w0) as (c & l2 & Hc & Hmin & E2 & D2).
  { change (retained db w0) with (retained db w). intros E.
    pose proof (owned_retained_length w) as Hle. rewrite E in Hle. cbn in Hle. lia. }
  { exact Ht. }
  change (retained db w0) with (retained db w) in *.
  eexists c, _, (Sleep 1 :: DeleteDBSnapshot (DBSnapshotIdentifier c) :: Print _ :: l2 ++ l1).
  split; [assumption|]. split; [assumption|].
  split; [|split; [|split]]; cycle 3.
  - cbn [Importer.prune]. unfold bind at 1. rewrite E1.
    replace (Z.of_nat (length (owned db w)) >? 2)%Z with true
      by (symmetry; apply Z.gtb_lt; lia).
    unfold bind at 1. unfold Importer.get_oldest_manual_recrypted_rds_snapshots.
    rewrite E2. unfold bind at 1. run_format. unfold print, emit.
    unfold bind at 1. cbn [Rds.refresh DBSnapshotIdentifier].
    rewrite delete_runs by (cbn [catalog]; now apply (retained_in_catalog db)).
    unfold bind at 1, sleep. cbn [catalog clock trace]. reflexivity.
  - reflexivity.
  - unfold w0. cbn [trace app]. now rewrite app_assoc.
  - cbn [deletions]. f_equal.
    now rewrite deletions_app, D1, D2.
Qed.

Lemma importer_prune_done (steps : nat) (w : World) :
  length (owned db w) <= 2 ->
  exists lines,
    Importer.prune (S steps) client db w
    = (Ok tt, {| catalog := catalog w; clock := clock w; trace := lines ++ trace w |}) /\
    deletions lines = [].
Proof.
  intros Hn. destruct (importer_count_runs w) as (l1 & E1 & D1).
  exists l1. split; [|assumption].
  cbn [Importer.prune]. unfold bind. rewrite E1.
  replace (Z.of_nat (length (owned db w)) >? 2)%Z with false; [reflexivity|].
  symmetry. rewrite Z.gtb_ltb. apply Z.ltb_ge. lia.
Qed.

(** X17.  The importer's pruning loop ends.  On an account whose snapshot
    identifiers are unique and whose manual snapshots of the instance with
    ["recrypted"] in the identifier carry their timestamps, the loop
    returns once it has as many turns as there are such snapshots beyond
    two.  It has deleted only such snapshots, each no later than those that
    remain; at most two snapshots are left that its counter counts; and
    where all such snapshots are local copies (["recrypted-copy"]), it has
    deleted all but the two newest of them. *)
Theorem importer_prune_converges (steps : nat) :
  forall w : World,
    NoDup (map DBSnapshotIdentifier (catalog w)) ->
    (forall s, In s (retained db w) -> SnapshotCreateTime s <> None) ->
    length (retained db w) - 2 <= steps ->
    exists w' deleted events,
      Importer.prune (S steps) client db w = (Ok tt, w') /\
      trace w' = events ++ trace w /\
      deletions events = rev (map DBSnapshotIdentifier deleted) /\
      incl deleted (retained db w) /\
      (forall s, In s (catalog w') <-> In s (catalog w) /\ ~ In s deleted) /\
      length (owned db w') <= 2 /\
      (forall d s, In d deleted -> In s (retained db w') -> not_later d s) /\
      ((forall s, In s (retained db w) -> Importer.is_owned_copy s = true) ->
       length deleted = length (retained db w) - 2 /\
       length (retained db w') = Nat.min (length (retained db w)) 2).
Proof.
  induction steps as [|steps IH]; intros w Hnd Ht Hn.
  - pose proof (owned_retained_length w) as Hle.
    destruct (importer_prune_done 0 w ltac:(lia)) as (lines & E & D).
    eexists _, [], lines. split; [exact E|]. cbn [catalog trace].
    split; [reflexivity|]. split; [exact D|]. split; [intros ? []|].
    split; [tauto|]. split; [change (owned db _) with (owned db w); lia|].
    split; [intros ? ? []|]. intros _.
    change (retained db _) with (retained db w). cbn [length]. lia.
  - destruct (Nat.le_gt_cases (length (owned db w)) 2) as [Hle|Hgt].
    + destruct (importer_prune_done (S steps) w Hle) as (lines & E & D).
      eexists _, [], lines. split; [exact E|]. cbn [catalog trace].
      split; [reflexivity|]. split; [exact D|]. split; [intros ? []|].
      split; [tauto|]. split; [exact Hle|].
      split; [intros ? ? []|]. intros Hall.
      change (retained db _) with (retained db w).
      rewrite <- (owned_is_retained w Hall). cbn [length]. lia.
    + pose proof (owned_retained_length w) as Hor.
      destruct (importer_prune_turn (S steps) w Ht Hgt)
        as (c & w1 & lines & Hc & Hmin & Hcat & Htr & Hdel & E).
      assert (Hcin : In c (catalog w)) by now apply (retained_in_catalog db).
      assert (Hret1 : retained db w1 = without c (retained db w))
        by now apply retained_without.
      assert (Hndr : NoDup (map DBSnapshotIdentifier (retained db w)))
        by (unfold retained; now apply NoDup_map_filter).
      pose proof (length_without c (retained db w) Hndr Hc) as Hlen.
      rewrite <- Hret1 in Hlen.
      assert (Hsub : forall x, In x (catalog w1) -> In x (catalog w)).
      { intros x Hx. rewrite Hcat in Hx. unfold without in Hx.
        now apply filter_In in Hx. }
      destruct (IH w1) as (w' & deleted & events & E' & Htr' & Hdel' & Hincl
                           & Hiff & Hkeep & Hlater & Hcopies).
      { rewrite Hcat. now apply NoDup_map_filter. }
      { intros s Hs. apply Ht. eapply retained_subset; eauto. }
      { lia. }
      exists w', (c :: deleted), (events ++ lines).
      split; [now rewrite E|]. split; [now rewrite Htr', Htr, app_assoc|].
      split; [rewrite deletions_app, Hdel', Hdel; reflexivity|].
      split; [|split; [|split; [|split]]].
      * intros d [<-|Hd]; [assumption|]. apply Hincl in Hd.
        eapply retained_subset; eauto.
      * intros s. rewrite Hiff, Hcat. unfold without.
        rewrite (in_without c (catalog w) s Hnd Hcin). cbn [In]. split.
        -- intros [[Hs Hne] Hnot]. split; [assumption|]. intros [<-|Hd]; auto.
        -- intros [Hs Hnot]. split; [split; [assumption|]|]; intros H; apply Hnot; auto.
      * exact Hkeep.
      * intros d s [<-|Hd] Hs; [|now apply Hlater].
        apply Hmin. eapply retained_subset; [|exact Hs].
        intros x Hx. apply Hiff in Hx as [Hx _]. auto.
      * intros Hall.
        destruct Hcopies as [Hl1 Hl2].
        { intros s Hs. apply Hall. eapply retained_subset; eauto. }
        rewrite <- (owned_is_retained w Hall) in *.
        cbn [length]. lia.
Qed.

End ImporterPrune.

Lemma importer_prune_converges_witness :
  let w := Sample.world
             [Sample.snap "db1-2024-05-03-recrypted-copy" "db1" "manual" (Some 3%Z);
              Sample.snap "db1-2024-05-01-recrypted-copy" "db1" "manual" (Some 1%Z);
              Sample.snap "db1-before-upgrade" "db1" "manual" (Some 0%Z);
              Sample.snap "db1-2024-05-02-recrypted-copy" "db1" "manual" (Some 2%Z)] in
  exists w', Importer.prune 2 Sample.steady "db1" w = (Ok tt, w') /\
             length (owned "db1" w') <= 2.
Proof.
  intros w.
  destruct (importer_prune_converges Sample.steady "db1" 1 w)
    as (w' & deleted & events & E & _ & _ & _ & _ & Hk & _).
  - repeat constructor; cbn; intuition discriminate.
  - intros s Hs. cbn in Hs. destruct Hs as [<-|[<-|[<-|[]]]]; discriminate.
  - cbn. lia.
  - exists w'. split; assumption.
Defined.

(** ** More on the exporter's steps *)

(** X18.  The latest finder always returns, and what it returns is listed.
    On every account it ends normally with the result of its scan and
    leaves the catalog as it is; the result is empty exactly when the
    instance has no automated snapshot, and is otherwise one of the listed
    snapshots: an automated snapshot of that instance, under an identifier
    of the catalog. *)
Theorem latest_finder_returns_listed (client : RdsClient) (db : string) (w : World) :
  let l := Rds.listing client (Some db) None (Some "automated") false w in
  let run := Exporter.get_latest_automatic_rds_snapshots client db w in
  fst run = Ok (Exporter.latest_scan l) /\
  catalog (snd run) = catalog w /\
  (Exporter.latest_scan l = None <-> l = []) /\
  (forall latest,
      Exporter.latest_scan l = Some latest ->
      In latest l /\
      DBInstanceIdentifier latest = db /\
      SnapshotType latest = "automated" /\
      exists c, In c (catalog w) /\ DBSnapshotIdentifier c = DBSnapshotIdentifier latest).
Proof.
  intros l run. destruct (get_latest_runs client db w) as (lines & E & _).
  fold l in E. fold run in E. rewrite E. cbn [fst snd catalog].
  destruct (latest_scan_listed l) as [Hnone Hin].
  split; [reflexivity|]. split; [reflexivity|]. split; [exact Hnone|].
  intros latest Hl. apply Hin in Hl. split; [exact Hl|].
  unfold l, Rds.listing in Hl. apply in_map_iff in Hl as (c & <- & Hc).
  apply filter_In in Hc as [Hc Hsel]. unfold Rds.selected in Hsel.
  cbn [Rds.matches_filter] in Hsel.
  apply andb_prop in Hsel as [Hsel Ht]. apply andb_prop in Hsel as [Hi _].
  apply String.eqb_eq in Hi, Ht. cbn [Rds.refresh DBInstanceIdentifier SnapshotType
                                       DBSnapshotIdentifier].
  split; [assumption|]. split; [assumption|]. now exists c.
Qed.

(** X19.  The exporter's run validator.  On the expected count it prints
    its closing line and returns.  On any other count it prints the alert,
    which holds the tag [COPY_RDS_SNAPSHOT_COUNT_ERROR] and both counts,
    publishes it to the topic unless the run is a debug run or has no
    topic, and exits with status 1. *)
Theorem exporter_report_outcomes (cfg : Config) (ready : Z) (w : World) :
  (ready = EXPECTED_SNAPSHOT_COUNT cfg ->
   Exporter.report cfg ready w
   = (Ok tt, {| catalog := catalog w; clock := clock w;
                trace := Print "Snapshot sharing completed successfully, exiting"
                         :: trace w |})) /\
  (ready <> EXPECTED_SNAPSHOT_COUNT cfg ->
   Exporter.report cfg ready w
   = (Exited 1,
      {| catalog := catalog w; clock := clock w;
         trace := exporter_notification cfg
                    (exporter_alert (EXPECTED_SNAPSHOT_COUNT cfg) ready)
                  ++ Print (exporter_alert (EXPECTED_SNAPSHOT_COUNT cfg) ready)
                  :: trace w |})) /\
  Py.contains "COPY_RDS_SNAPSHOT_COUNT_ERROR"
              (exporter_alert (EXPECTED_SNAPSHOT_COUNT cfg) ready) = true /\
  Py.contains (Py.str (EXPECTED_SNAPSHOT_COUNT cfg))
              (exporter_alert (EXPECTED_SNAPSHOT_COUNT cfg) ready) = true /\
  Py.contains (Py.str ready)
              (exporter_alert (EXPECTED_SNAPSHOT_COUNT cfg) ready) = true.
Proof.
  split; [|split; [apply exporter_report_mismatch | apply exporter_alert_content]].
  intros ->. unfold Exporter.report. now rewrite Z.eqb_refl.
Qed.

(** X20.  The exporter's pruning loop keeps the two newest.  On an account
    whose snapshot identifiers are unique and whose manual snapshots of the
    instance with ["recrypted"] in the identifier carry their timestamps,
    the loop returns once it has as many turns as there are such snapshots
    beyond two: it has deleted exactly that many of them and nothing else,
    [min N 2] of them remain, and none it has deleted is later than one
    that remains. *)
Theorem exporter_prune_keeps_two_newest
        (client : RdsClient) (db : string) (steps : nat) (w : World) :
  NoDup (map DBSnapshotIdentifier (catalog w)) ->
  (forall s, In s (retained db w) -> SnapshotCreateTime s <> None) ->
  length (retained db w) - 2 <= steps ->
  exists w' deleted events,
    Exporter.prune (S steps) client db w = (Ok tt, w') /\
    trace w' = events ++ trace w /\
    deletions events = rev (map DBSnapshotIdentifier deleted) /\
    length deleted = length (retained db w) - 2 /\
    incl deleted (retained db w) /\
    (forall s, In s (catalog w') <-> In s (catalog w) /\ ~ In s deleted) /\
    length (retained db w') = Nat.min (length (retained db w)) 2 /\
    (forall d s, In d deleted -> In s (retained db w') -> not_later d s).
Proof. apply exporter_prune_converges. Qed.

Lemma exporter_prune_keeps_two_newest_witness :
  let w := Sample.world
             [Sample.snap "db1-2024-05-03-recrypted" "db1" "manual" (Some 3%Z);
              Sample.snap "db1-2024-05-01-recrypted" "db1" "manual" (Some 1%Z);
              Sample.snap "db1-before-upgrade" "db1" "manual" (Some 0%Z);
              Sample.snap "db1-2024-05-02-recrypted" "db1" "manual" (Some 2%Z)] in
  exists w', Exporter.prune 2 Sample.steady "db1" w = (Ok tt, w') /\
             length (retained "db1" w') = 2.
Proof.
  intros w.
  destruct (exporter_prune_keeps_two_newest Sample.steady "db1" 1 w)
    as (w' & deleted & events & E & _ & _ & _ & _ & _ & Hk & _).
  - repeat constructor; cbn; intuition discriminate.
  - intros s Hs. cbn in Hs. destruct Hs as [<-|[<-|[<-|[]]]]; discriminate.
  - cbn. lia.
  - exists w'. split; [exact E|]. rewrite Hk. reflexivity.
Defined.

(** ** How a run can end *)

Section Completes.

Variable suffix : string.

Lemma completes_weaken {A} (P P' : list Snapshot -> Prop)
      (Q Q' : A -> list Snapshot -> Prop) (X X' : Exn -> list Snapshot -> Prop)
      (m : M A) :
  (forall cat, P' cat -> P cat) -> (forall a cat, Q a cat -> Q' a cat) ->
  (forall e cat, X e cat -> X' e cat) ->
  completes (sound suffix) P m Q X -> completes (sound suffix) P' m Q' X'.
Proof.
  intros HP HQ HX Hm w r w' Hi Hp E.
  destruct (Hm w r w' Hi (HP _ Hp) E) as (H1 & H2 & H3).
  split; [assumption|]. split; intros ? ?; auto.
Qed.

Lemma completes_bind {A B} (P : list Snapshot -> Prop) (Q : A -> list Snapshot -> Prop)
      (R : B -> list Snapshot -> Prop) (X : Exn -> list Snapshot -> Prop)
      (m : M A) (k : A -> M B) :
  completes (sound suffix) P m Q X ->
  (forall a, completes (sound suffix) (Q a) (k a) R X) ->
  completes (sound suffix) P (bind m k) R X.
Proof.
  intros Hm Hk w r w' Hi Hp E. unfold bind in E.
  destruct (m w) as [ra w1] eqn:Em.
  destruct (Hm w ra w1 Hi Hp Em) as (H1 & HQ & HX).
  destruct ra as [a|n|e|].
  - exact (Hk a w1 r w' H1 (HQ a eq_refl) E).
  - injection E as <- <-. split; [assumption|]. split; discriminate.
  - injection E as <- <-. split; [assumption|]. split; [discriminate|].
    intros e' [= <-]. now apply HX.
  - injection E as <- <-. split; [assumption|]. split; discriminate.
Qed.

Lemma completes_ret {A} (P : list Snapshot -> Prop) (X : Exn -> list Snapshot -> Prop)
      (a : A) :
  completes (sound suffix) P (ret a) (fun a' cat => a' = a /\ P cat) X.
Proof.
  intros w r w' Hi Hp E. injection E as <- <-.
  split; [assumption|]. split; [intros ? [= <-]; auto | discriminate].
Qed.

Lemma completes_stop {A} (P : list Snapshot -> Prop) (Q : A -> list Snapshot -> Prop)
      (X : Exn -> list Snapshot -> Prop) (m : M A) :
  (forall w, exists r, m w = (r, w) /\ (forall a, r <> Ok a) /\ (forall e, r <> Raised e)) ->
  completes (sound suffix) P m Q X.
Proof.
  intros Hm w r w' Hi Hp E. destruct (Hm w) as (r0 & E0 & Hr & Hx). rewrite E0 in E.
  injection E as <- <-. split; [assumption|].
  split; [intros a Ha; now elim (Hr a) | intros e He; now elim (Hx e)].
Qed.

Lemma completes_exit {A} (P : list Snapshot -> Prop) (Q : A -> list Snapshot -> Prop)
      (X : Exn -> list Snapshot -> Prop) (n : Z) :
  completes (sound suffix) P (sys_exit n) Q X.
Proof.
  apply completes_stop. intros w. eexists. split; [reflexivity|]. split; discriminate.
Qed.

Lemma completes_out_of_steps {A} (P : list Snapshot -> Prop)
      (Q : A -> list Snapshot -> Prop) (X : Exn -> list Snapshot -> Prop) :
  completes (sound suffix) P (@out_of_steps A) Q X.
Proof.
  apply completes_stop. intros w. eexists. split; [reflexivity|]. split; discriminate.
Qed.

(** A step that returns and leaves the catalog as it is. *)
Lemma completes_quiet {A} (P : list Snapshot -> Prop) (X : Exn -> list Snapshot -> Prop)
      (m : M A) (Q : A -> list Snapshot -> Prop) :
  (forall w, P (catalog w) ->
             exists a w', m w = (Ok a, w') /\ catalog w' = catalog w /\ Q a (catalog w)) ->
  completes (sound suffix) P m (fun a cat => P cat /\ Q a cat) X.
Proof.
  intros Hm w r w' Hi Hp E. destruct (Hm w Hp) as (a & w1 & E1 & Hc & Hq).
  rewrite E1 in E. injection E as <- <-. rewrite Hc.
  split; [assumption|]. split; [intros ? [= <-]; auto | discriminate].
Qed.

Lemma completes_emit (P : list Snapshot -> Prop) (X : Exn -> list Snapshot -> Prop)
      (e : Event) :
  completes (sound suffix) P (emit e) (fun _ cat => P cat) X.
Proof.
  eapply completes_weaken; [| | |apply (completes_quiet P X (emit e) (fun _ _ => True))].
  - intros ? H; exact H.
  - intros ? ? [H _]; exact H.
  - intros ? ? H; exact H.
  - intros w _. eexists tt, _. split; [reflexivity|]. split; [reflexivity | exact I].
Qed.

Lemma completes_print_format (P : list Snapshot -> Prop)
      (X : Exn -> list Snapshot -> Prop) (template : string) (args : list string) :
  (exists line, Py.format template args = inr line) ->
  completes (sound suffix) P (print_format template args) (fun _ cat => P cat) X.
Proof.
  intros (line & E). unfold print_format. rewrite E. apply completes_emit.
Qed.

Lemma completes_sleep (P : list Snapshot -> Prop) (X : Exn -> list Snapshot -> Prop)
      (seconds : Z) :
  completes (sound suffix) P (sleep seconds) (fun _ cat => P cat) X.
Proof.
  eapply completes_weaken; [| | |apply (completes_quiet P X (sleep seconds) (fun _ _ => True))].
  - intros ? H; exact H.
  - intros ? ? [H _]; exact H.
  - intros ? ? H; exact H.
  - intros w _. eexists tt, _. split; [reflexivity|]. split; [reflexivity | exact I].
Qed.

Ltac formatted := eexists; reflexivity.

Ltac step_print :=
  first [ eapply completes_bind; [apply completes_print_format; formatted|]
        | eapply completes_bind; [apply completes_emit|]
        | eapply completes_bind; [apply completes_sleep|] ];
  let u := fresh "u" in intros u; cbn beta; try clear u.

(** *** The finders *)

Lemma completes_latest (P : list Snapshot -> Prop) (X : Exn -> list Snapshot -> Prop)
      (client : RdsClient) (db : string) :
  completes (sound suffix) P (Exporter.get_latest_automatic_rds_snapshots client db)
            (fun latest cat =>
               P cat /\ forall s, latest = Some s -> source_of (DBSnapshotIdentifier s) cat)
            X.
Proof.
  apply completes_quiet. intros w _.
  destruct (get_latest_runs client db w) as (lines & E & _).
  eexists _, _. split; [exact E|]. split; [reflexivity|].
  intros s Hs. apply latest_scan_listed in Hs.
  apply in_map_iff in Hs as (c & <- & Hc). apply filter_In in Hc as [Hc _].
  exists c. split; [assumption|]. unfold Rds.is_source.
  cbn [Rds.refresh DBSnapshotIdentifier]. now rewrite String.eqb_refl.
Qed.

Lemma retained_nonempty (db : string) (w : World) :
  retained db w <> [] <-> has_retained db (catalog w).
Proof.
  unfold retained, has_retained. split.
  - destruct (filter _ (catalog w)) as [|c rest] eqn:E; [congruence|]. intros _.
    assert (Hc : In c (filter (fun s => Rds.selected (Some db) None (Some "manual") false s
                                        && is_recrypted s) (catalog w)))
      by (rewrite E; now left).
    apply filter_In in Hc as [Hc Hp]. apply andb_prop in Hp as [Hs Hk]. now exists c.
  - intros (c & Hc & Hs & Hk) E.
    assert (Hin : In c (filter (fun s => Rds.selected (Some db) None (Some "manual") false s
                                         && is_recrypted s) (catalog w))).
    { apply filter_In. split; [assumption|]. now rewrite Hs, Hk. }
    rewrite E in Hin. contradiction.
Qed.

Lemma retained_manual (db : string) (w : World) (c : Snapshot) :
  In c (retained db w) ->
  In c (catalog w) /\ SnapshotType c = "manual" /\ is_recrypted c = true.
Proof.
  unfold retained. intros H. apply filter_In in H as [Hc Hp].
  apply andb_prop in Hp as [Hs Hk]. split; [assumption|]. split; [|assumption].
  unfold Rds.selected in Hs. apply andb_prop in Hs as [_ Hs]. now apply String.eqb_eq.
Qed.

Lemma completes_exporter_count (X : Exn -> list Snapshot -> Prop)
      (client : RdsClient) (db : string) :
  completes (sound suffix) whatever
            (Exporter.get_manual_recrypted_rds_snapshots_count client db)
            (fun count cat => (2 < count)%Z -> has_retained db cat) X.
Proof.
  eapply completes_weaken;
    [| | |apply (completes_quiet whatever X _
                   (fun count cat => (2 < count)%Z -> has_retained db cat))].
  - intros ? H; exact H.
  - intros ? ? [_ H]; exact H.
  - intros ? ? H; exact H.
  - intros w _. destruct (count_runs client db w) as (lines & E & _).
    eexists _, _. split; [exact E|]. split; [reflexivity|].
    intros Hn. apply retained_nonempty. intros E0. rewrite E0 in Hn. cbn in Hn. lia.
Qed.

Lemma completes_importer_count (X : Exn -> list Snapshot -> Prop)
      (client : RdsClient) (db : string) :
  completes (sound suffix) whatever
            (Importer.get_owned_rds_snapshots_count client db)
            (fun count cat => (2 < count)%Z -> has_retained db cat) X.
Proof.
  eapply completes_weaken;
    [| | |apply (completes_quiet whatever X _
                   (fun count cat => (2 < count)%Z -> has_retained db cat))].
  - intros ? H; exact H.
  - intros ? ? [_ H]; exact H.
  - intros ? ? H; exact H.
  - intros w _. destruct (importer_count_runs client db w) as (lines & E & _).
    eexists _, _. split; [exact E|]. split; [reflexivity|].
    intros Hn. apply retained_nonempty. intros E0.
    pose proof (owned_retained_length db w) as Hle. rewrite E0 in Hle. cbn in Hle. lia.
Qed.

(** With the data sound and a snapshot to find, the oldest finder
    returns. *)
Lemma completes_oldest (X : Exn -> list Snapshot -> Prop)
      (client : RdsClient) (db : string) :
  completes (sound suffix) (has_retained db)
            (Shared.get_oldest_manual_recrypted_rds_snapshots client db)
            (fun o cat => prunable (DBSnapshotIdentifier o) cat) X.
Proof.
  intros w r w' Hi Hp E.
  destruct (oldest_of_retained client db w) as (c & lines & Hc & _ & E1 & _).
  - now apply retained_nonempty.
  - intros s Hs. apply retained_manual in Hs as (Hin & Hm & Hk).
    now apply (proj1 Hi).
  - rewrite E1 in E. injection E as <- <-. cbn [catalog].
    split; [assumption|]. split; [|discriminate].
    intros o [= <-]. apply retained_manual in Hc as (Hin & Hm & Hk).
    now exists c.
Qed.

(** *** The requests that change the catalog *)

Lemma sound_without (cat : list Snapshot) (c : Snapshot) :
  sound suffix cat -> sound suffix (without c cat).
Proof.
  unfold without. intros [Ht Hf].
  split; intros s Hs; apply filter_In in Hs as [Hs _]; auto.
Qed.

Lemma sound_copy (client : RdsClient) (now : Z) (src : Snapshot) (target : string)
      (cat : list Snapshot) :
  sound suffix cat -> sound suffix (cat ++ [Rds.new_copy client now src target]).
Proof.
  intros [Ht Hf].
  split; intros s Hs; apply in_app_or in Hs as [Hs|[<-|[]]]; auto.
  intros _ _. discriminate.
Qed.

Lemma completes_delete (X : Exn -> list Snapshot -> Prop) (id : string) :
  completes (sound suffix) (prunable id) (Rds.delete_db_snapshot id) any_value X.
Proof.
  intros w r w' Hi (c & Hc & _ & _ & ->) E.
  rewrite (delete_runs c w Hc) in E. injection E as <- <-. cbn [catalog].
  split; [now apply (sound_without (catalog w) c)|].
  split; [intros; exact I | discriminate].
Qed.

Lemma find_source (source : string) (cat : list Snapshot) :
  source_of source cat -> exists src, find (Rds.is_source source) cat = Some src.
Proof.
  intros (c & Hc & Hs).
  destruct (find (Rds.is_source source) cat) as [src|] eqn:E; [eauto|].
  rewrite (find_none _ _ E c Hc) in Hs. discriminate.
Qed.

Lemma findable_listing (client : RdsClient) (target : string) (w : World) :
  sound suffix (catalog w) -> ends_with suffix target ->
  existsb (Rds.has_identifier target) (catalog w) = true ->
  exists x rest,
    Rds.listing client None (Some target) None false w = x :: rest /\
    findable (DBSnapshotIdentifier x) (catalog w).
Proof.
  intros [_ Hf] Hend Hex. apply existsb_exists in Hex as (c & Hc & Hid).
  unfold Rds.has_identifier in Hid. apply String.eqb_eq in Hid.
  assert (Hsel : Rds.selected None (Some target) None false c = true).
  { unfold Rds.selected. cbn [Rds.matches_filter andb]. rewrite Hid, String.eqb_refl.
    cbn [andb]. destruct (Hf c Hc) as [-> | ->]; [now rewrite Hid | reflexivity
                                                   | reflexivity]. }
  unfold Rds.listing.
  destruct (filter (Rds.selected None (Some target) None false) (catalog w))
    as [|c0 rest] eqn:E.
  - assert (In c (@nil Snapshot)) by (rewrite <- E; apply filter_In; auto). contradiction.
  - exists (Rds.refresh client (clock w) c0), (map (Rds.refresh client (clock w)) rest).
    split; [reflexivity|].
    assert (Hc0 : In c0 (filter (Rds.selected None (Some target) None false) (catalog w)))
      by (rewrite E; now left).
    apply filter_In in Hc0 as [Hin0 Hsel0]. exists c0. split; [assumption|].
    split; [reflexivity|].
    unfold Rds.selected in Hsel0. cbn [Rds.matches_filter andb] in Hsel0.
    apply andb_prop in Hsel0 as [_ Ht]. cbn [andb] in Ht.
    rewrite orb_false_r in Ht. apply orb_prop in Ht as [Ht|Ht];
      apply String.eqb_eq in Ht; auto.
Qed.

Section CopyMaker.

Variables (client : RdsClient) (source target kms_key : string).
Variables created retrieving retrieved : M unit.
Hypothesis created_says : says created.
Hypothesis retrieving_says : says retrieving.
Hypothesis retrieved_says : says retrieved.
Hypothesis target_ends : ends_with suffix target.

(** What the loop around the copy maker needs kept: any property of the
    catalog that a new snapshot does not undo. *)
Variable F : list Snapshot -> Prop.
Hypothesis F_grows : forall cat c, F cat -> F (cat ++ [c]).

Lemma completes_copy_or_fetch (X : Exn -> list Snapshot -> Prop) :
  completes (sound suffix) (fun cat => F cat /\ source_of source cat)
            (copy_or_fetch client source target kms_key created retrieving retrieved)
            (fun copy cat => F cat /\ findable (DBSnapshotIdentifier copy) cat) X.
Proof.
  intros w r w' Hi [Hf Hsrc] E.
  destruct (existsb (Rds.has_identifier target) (catalog w)) eqn:Hex.
  - rewrite (copy_or_fetch_existing client source target kms_key created retrieving
               retrieved w Hex) in E.
    match type of E with fetch _ _ _ _ ?w0 = _ =>
      destruct (fetch_runs client target retrieving retrieved retrieving_says
                           retrieved_says w0) as (lines & E1 & _);
      destruct (findable_listing client target w0 Hi target_ends Hex)
        as (x & rest & El & Hx)
    end.
    rewrite E1, El in E. injection E as <- <-. cbn [catalog] in *.
    split; [assumption|]. split; [|discriminate]. intros copy [= <-]. auto.
  - unfold copy_or_fetch, try_except, bind, Rds.copy_db_snapshot in E.
    rewrite Hex in E. destruct (find_source source (catalog w) Hsrc) as (src & Es).
    rewrite Es in E.
    match type of E with context [created ?w0] =>
      destruct (created_says w0) as (l1 & E1); rewrite E1 in E
    end.
    unfold ret in E. injection E as <- <-. cbn [catalog clock trace].
    split; [now apply sound_copy|]. split; [|discriminate].
    intros copy [= <-]. split; [now apply F_grows|].
    exists (Rds.new_copy client (clock w) src target).
    split; [apply in_or_app; right; now left|]. split; [reflexivity | now right].
Qed.

End CopyMaker.

Lemma completes_recrypt (X : Exn -> list Snapshot -> Prop)
      (client : RdsClient) (snapshot : Snapshot) (kms : string) :
  suffix = "-recrypted" ->
  completes (sound suffix) (source_of (DBSnapshotIdentifier snapshot))
            (Exporter.recrypt_snapshot_with_new_key client snapshot kms)
            (fun copy cat => findable (DBSnapshotIdentifier copy) cat) X.
Proof.
  intros Hsuffix. rewrite exporter_copy_shape.
  destruct (exporter_target_segment_of (DBSnapshotIdentifier snapshot))
    as (segment & -> & _). cbn [lift].
  assert (S1 : says (print_format "  Snapshot {} created" [DBSnapshotIdentifier snapshot]))
    by says_format.
  assert (S2 : forall t, says (print_format "Snapshot already exists, retrieving {}" [t]))
    by (intros t; says_format).
  assert (S3 : says (ret tt)) by says_format.
  eapply completes_bind; [apply completes_ret|]. intros target. cbn beta.
  apply (completes_bind _ (fun _ cat => target = (segment ++ "-recrypted")%string /\
                                        source_of (DBSnapshotIdentifier snapshot) cat)).
  { apply completes_print_format. eexists; reflexivity. }
  intros _ w r w' Hi [-> Hsrc] E.
  destruct (completes_copy_or_fetch client (DBSnapshotIdentifier snapshot)
              (segment ++ "-recrypted") kms _ _ _ S1 (S2 _) S3
              ltac:(rewrite Hsuffix; now exists segment)
              (fun _ => True) ltac:(auto) X w r w' Hi (conj I Hsrc) E)
    as (H1 & H2 & H3).
  split; [assumption|]. split; [|assumption]. intros a Ha. now apply H2.
Qed.

Lemma completes_copy_shared (X : Exn -> list Snapshot -> Prop)
      (client : RdsClient) (shared : Snapshot) (kms : string)
      (F : list Snapshot -> Prop) :
  suffix = "-copy" ->
  (forall cat c, F cat -> F (cat ++ [c])) ->
  completes (sound suffix) (fun cat => F cat /\ source_of (DBSnapshotArn shared) cat)
            (Importer.copy_shared_snapshot_to_local client shared kms)
            (fun copy cat => F cat /\ findable (DBSnapshotIdentifier copy) cat) X.
Proof.
  intros Hsuffix HF. rewrite importer_copy_shape.
  unfold Importer.target_db_snapshot_id. cbn [Py.format Py.format_from Ascii.eqb Bool.eqb
                                              andb nth_error lift].
  assert (S1 : says (print "  Copy created.")) by says_format.
  assert (S2 : forall t, says (print_format "Snapshot already exists, retrieving {}..." [t]))
    by (intros t; says_format).
  assert (S3 : says (print "  Retrieved.")) by says_format.
  eapply completes_bind; [apply completes_ret|]. intros target. cbn beta.
  apply (completes_bind _ (fun _ cat =>
           target = (Re.sub Re.shared_snapshot_regex (DBSnapshotIdentifier shared)
                     ++ "-copy")%string /\
           F cat /\ source_of (DBSnapshotArn shared) cat)).
  { apply completes_print_format. eexists; reflexivity. }
  intros _ w r w' Hi (-> & Hf & Hsrc) E.
  exact (completes_copy_or_fetch client (DBSnapshotArn shared) _ kms _ _ _
           S1 (S2 _) S3
           ltac:(rewrite Hsuffix; eexists; reflexivity)
           F HF X w r w' Hi (conj Hf Hsrc) E).
Qed.

(** *** The waiter *)

Lemma completes_wait (P : list Snapshot -> Prop) (X : Exn -> list Snapshot -> Prop)
      (steps : nat) (client : RdsClient) (snapshot : Snapshot) :
  completes (sound suffix)
            (fun cat => P cat /\ findable (DBSnapshotIdentifier snapshot) cat)
            (Shared.wait_for_snapshot_to_be_ready steps client snapshot)
            (fun _ cat => P cat) X.
Proof.
  intros w r w' Hi [Hp (c & Hc & Hid & Ht)] E.
  destruct (wait_loop_frame client snapshot steps (-1) w) as (Hcat & _ & Hok & _).
  unfold Shared.wait_for_snapshot_to_be_ready in E. rewrite E in *. cbn [fst snd] in *.
  rewrite Hcat. split; [assumption|].
  assert (Hl : listed snapshot w).
  { apply existsb_exists. exists c. split; [assumption|].
    unfold Rds.selected. cbn [Rds.matches_filter andb]. rewrite Hid, String.eqb_refl.
    cbn [andb]. destruct Ht as [-> | ->]; reflexivity. }
  destruct (Hok Hl) as [-> | ->]; split; intros; auto; discriminate.
Qed.

(** *** The pruning loops *)

Lemma completes_exporter_prune (X : Exn -> list Snapshot -> Prop)
      (client : RdsClient) (db : string) (steps : nat) :
  completes (sound suffix) whatever (Exporter.prune steps client db) any_value X.
Proof.
  induction steps as [|steps IH]; cbn [Exporter.prune].
  - apply completes_out_of_steps.
  - eapply completes_bind; [apply completes_exporter_count|]. intros count. cbn beta.
    destruct (Z.gtb_spec count 2) as [Hgt|Hle].
    + eapply completes_bind.
      { eapply completes_weaken; [| | |apply completes_oldest];
          [intros cat H; exact (H Hgt) | intros ? ? H; exact H | intros ? ? H; exact H]. }
      intros o. cbn beta. step_print.
      eapply completes_bind; [apply completes_delete|]. intros deleted. cbn beta.
      eapply completes_bind; [apply completes_sleep|]. intros slept. cbn beta.
      eapply completes_weaken; [| | |apply IH];
        [intros; exact I | intros ? ? H; exact H | intros ? ? H; exact H].
    + eapply completes_weaken; [| | |apply completes_ret];
        [intros ? H; exact H | intros; exact I | intros ? ? H; exact H].
Qed.

Lemma completes_importer_prune (X : Exn -> list Snapshot -> Prop)
      (client : RdsClient) (db : string) (steps : nat) :
  completes (sound suffix) whatever (Importer.prune steps client db) any_value X.
Proof.
  induction steps as [|steps IH]; cbn [Importer.prune].
  - apply completes_out_of_steps.
  - eapply completes_bind; [apply completes_importer_count|]. intros count. cbn beta.
    destruct (Z.gtb_spec count 2) as [Hgt|Hle].
    + eapply completes_bind.
      { eapply completes_weaken; [| | |apply completes_oldest];
          [intros cat H; exact (H Hgt) | intros ? ? H; exact H | intros ? ? H; exact H]. }
      intros o. cbn beta. step_print.
      eapply completes_bind; [apply completes_delete|]. intros deleted. cbn beta.
      eapply completes_bind; [apply completes_sleep|]. intros slept. cbn beta.
      eapply completes_weaken; [| | |apply IH];
        [intros; exact I | intros ? ? H; exact H | intros ? ? H; exact H].
    + eapply completes_weaken; [| | |apply completes_ret];
        [intros ? H; exact H | intros; exact I | intros ? ? H; exact H].
Qed.

Lemma completes_raise {A} (P : list Snapshot -> Prop) (Q : A -> list Snapshot -> Prop)
      (X : Exn -> list Snapshot -> Prop) (e : Exn) :
  (forall cat, P cat -> X e cat) -> completes (sound suffix) P (raise e) Q X.
Proof.
  intros H w r w' Hi Hp E. injection E as <- <-.
  split; [assumption|]. split; [discriminate|]. intros e' [= <-]. auto.
Qed.

Ltac forget_value lemma :=
  eapply completes_weaken; [| | |apply lemma];
  [intros ? H; exact H | intros; exact I | intros ? ? H; exact H].

Ltac from_anything lemma :=
  eapply completes_weaken; [| | |apply lemma];
  [intros; exact I | intros ? ? H; exact H | intros ? ? H; exact H].

(** *** The exporter *)

Lemma completes_share (P : list Snapshot -> Prop) (X : Exn -> list Snapshot -> Prop)
      (client : RdsClient) (snapshot : Snapshot) (account : string) :
  completes (sound suffix) P
            (Exporter.share_snapshot_with_external_account client snapshot account)
            (fun _ cat => P cat) X.
Proof.
  unfold Exporter.share_snapshot_with_external_account, Rds.modify_db_snapshot_attribute.
  step_print. step_print. apply completes_print_format. formatted.
Qed.

Lemma completes_process_instance (X : Exn -> list Snapshot -> Prop)
      (steps : nat) (client : RdsClient) (cfg : Config) (db : DBInstance.t) (count : Z) :
  suffix = "-recrypted" ->
  completes (sound suffix) whatever
            (Exporter.process_instance steps client cfg db count) any_value X.
Proof.
  intros Hsuffix. unfold Exporter.process_instance.
  eapply completes_bind; [apply completes_latest|]. intros [snapshot|]; cbn beta.
  - eapply completes_bind.
    { eapply completes_weaken; [| | |apply completes_recrypt; exact Hsuffix];
        [intros cat [_ H]; now apply H | intros ? ? H; exact H | intros ? ? H; exact H]. }
    intros copy. cbn beta.
    eapply completes_bind.
    { eapply completes_weaken;
        [| | |apply (completes_wait whatever X steps client copy)];
        [intros cat H; split; [exact I | exact H]
        | intros ? ? H; exact H | intros ? ? H; exact H]. }
    intros waited. cbn beta.
    eapply completes_bind; [apply completes_share|]. intros shared. cbn beta.
    eapply completes_bind; [from_anything completes_exporter_prune|].
    intros pruned. forget_value @completes_ret.
  - forget_value @completes_ret.
Qed.

Lemma completes_process_instances (X : Exn -> list Snapshot -> Prop)
      (steps : nat) (client : RdsClient) (cfg : Config) (instances : list DBInstance.t) :
  suffix = "-recrypted" ->
  forall count,
    completes (sound suffix) whatever
              (Exporter.process_instances steps client cfg instances count) any_value X.
Proof.
  intros Hsuffix. induction instances as [|db rest IH]; intros count;
    cbn [Exporter.process_instances].
  - forget_value @completes_ret.
  - eapply completes_bind; [now apply completes_process_instance|].
    intros n. from_anything IH.
Qed.

Lemma completes_exporter_report (X : Exn -> list Snapshot -> Prop)
      (cfg : Config) (ready : Z) :
  completes (sound suffix) whatever (Exporter.report cfg ready) any_value X.
Proof.
  unfold Exporter.report. destruct (negb _).
  - rewrite exporter_alert_format. cbn [lift].
    eapply completes_bind; [apply completes_ret|]. intros message. cbn beta.
    step_print.
    eapply completes_bind with (Q := any_value); [|intros u; apply completes_exit].
    destruct (_ && _).
    + forget_value completes_emit.
    + forget_value @completes_ret.
  - forget_value completes_emit.
Qed.

Lemma completes_exporter_main (X : Exn -> list Snapshot -> Prop)
      (steps : nat) (client : RdsClient) (cfg : Config) (instances : list DBInstance.t) :
  suffix = "-recrypted" ->
  completes (sound suffix) whatever (Exporter.main steps client cfg instances)
            any_value X.
Proof.
  intros Hsuffix. unfold Exporter.main.
  destruct (negb _).
  { eapply completes_bind; [apply completes_emit|]. intros u. apply completes_exit. }
  destruct (negb _).
  { eapply completes_bind; [apply completes_emit|]. intros u. apply completes_exit. }
  eapply completes_bind; [apply completes_emit|]. intros listed. cbn beta.
  eapply completes_bind.
  { destruct instances; apply completes_print_format; formatted. }
  intros u. cbn beta.
  eapply completes_bind; [now apply completes_process_instances|].
  intros ready. from_anything completes_exporter_report.
Qed.

(** *** The importer *)

Lemma sources_of_grows (l : list Snapshot) (cat : list Snapshot) (c : Snapshot) :
  sources_of l cat -> sources_of l (cat ++ [c]).
Proof.
  intros H x Hx. destruct (H x Hx) as (s & Hs & Hsrc).
  exists s. split; [apply in_or_app; now left | assumption].
Qed.

Lemma completes_copy_all (X : Exn -> list Snapshot -> Prop)
      (steps : nat) (client : RdsClient) (cfg : Config) (l : list Snapshot) :
  suffix = "-copy" ->
  forall count owned,
    completes (sound suffix) (sources_of l)
              (Importer.copy_all steps client cfg l count owned) any_value X.
Proof.
  intros Hsuffix. induction l as [|x l IH]; intros count owned; cbn [Importer.copy_all].
  - forget_value @completes_ret.
  - assert (Hrest : forall cat, sources_of (x :: l) cat -> sources_of l cat).
    { intros cat H y Hy. apply H. now right. }
    destruct (negb _).
    { eapply completes_weaken; [| | |apply IH];
        [exact Hrest | intros ? ? H; exact H | intros ? ? H; exact H]. }
    eapply completes_bind.
    { eapply completes_weaken;
        [| | |apply (completes_copy_shared X client x (KMS_KEY_ARN cfg) (sources_of l)
                       Hsuffix (sources_of_grows l))];
        [|intros ? ? H; exact H | intros ? ? H; exact H].
      intros cat H. split; [now apply Hrest | apply H; now left]. }
    intros copy. cbn beta.
    eapply completes_bind; [apply (completes_wait (sources_of l))|].
    intros waited. cbn beta. apply IH.
Qed.

Lemma completes_prune_all (X : Exn -> list Snapshot -> Prop)
      (steps : nat) (client : RdsClient) (keys : list string) :
  completes (sound suffix) whatever (Importer.prune_all steps client keys) any_value X.
Proof.
  induction keys as [|k keys IH]; cbn [Importer.prune_all].
  - forget_value @completes_ret.
  - eapply completes_bind; [apply completes_importer_prune|].
    intros pruned. from_anything IH.
Qed.

(** The importer's validator raises where the counts differ, and only
    there. *)
Lemma completes_importer_report (cfg : Config) (ready : Z) :
  completes (sound suffix) whatever (Importer.report cfg ready) any_value
            (fun e _ => e = IndexError /\ ready <> EXPECTED_SNAPSHOT_COUNT cfg).
Proof.
  unfold Importer.report.
  destruct (Z.eqb_spec ready (EXPECTED_SNAPSHOT_COUNT cfg)) as [E|E]; cbn [negb].
  - forget_value completes_emit.
  - intros w r w' Hi _ Er. cbn in Er. injection Er as <- <-.
    split; [assumption|]. split; [discriminate|]. intros e [= <-]. auto.
Qed.

Lemma listing_sources (client : RdsClient) (w : World) :
  sources_of (Rds.listing client None None None true w) (catalog w).
Proof.
  intros x Hx. unfold Rds.listing in Hx. apply in_map_iff in Hx as (c & <- & Hc).
  apply filter_In in Hc as [Hc _]. exists c. split; [assumption|].
  unfold Rds.is_source. cbn [Rds.refresh DBSnapshotArn].
  rewrite String.eqb_refl. apply orb_true_r.
Qed.

Lemma importer_main_ends (steps : nat) (client : RdsClient) (cfg : Config)
      (w w' : World) (r : Res unit) :
  suffix = "-copy" -> sound suffix (catalog w) ->
  Importer.main steps client cfg w = (r, w') ->
  sound suffix (catalog w') /\
  forall e, r = Raised e ->
            e = IndexError /\
            Z.of_nat (length (filter Importer.is_shared_recrypted
                                     (Rds.listing client None None None true w)))
            <> EXPECTED_SNAPSHOT_COUNT cfg.
Proof.
  intros Hsuffix Hi. unfold Importer.main.
  destruct (negb _).
  { unfold bind, print, emit, sys_exit. intros [= <- <-]. split; [exact Hi | discriminate]. }
  rewrite bind_describe.
  pose proof (listing_sources client w) as Hsrc.
  destruct (Rds.listing client None None None true w) as [|x l] eqn:El.
  { unfold bind, print, emit, sys_exit. intros [= <- <-]. split; [exact Hi | discriminate]. }
  rewrite <- El in *. clear El x l.
  set (l := Rds.listing client None None None true w) in *.
  unfold bind at 1.
  destruct (Importer.copy_all _ _ _ _ _ _ _) as [rc w1] eqn:Ec.
  destruct (completes_copy_all no_exception steps client cfg l Hsuffix 0%Z []
              {| catalog := catalog w; clock := clock w;
                 trace := DescribeDBSnapshots None None None true :: trace w |}
              rc w1 Hi Hsrc Ec) as (Hi1 & _ & Hx).
  destruct rc as [copied|n|e|].
  - destruct copied as [count owned].
    apply copy_all_counts in Ec as (Hcount & _).
    intros E.
    assert (Hc : completes (sound suffix) whatever
                   (bind (Importer.prune_all steps client (Dict.keys (snd (count, owned))))
                         (fun _ => Importer.report cfg (fst (count, owned))))
                   any_value
                   (fun e _ => e = IndexError /\ fst (count, owned) <> EXPECTED_SNAPSHOT_COUNT cfg)).
    { eapply completes_bind; [apply completes_prune_all|].
      intros pruned. from_anything completes_importer_report. }
    destruct (Hc w1 r w' Hi1 I E) as (Hi2 & _ & Hx2).
    split; [assumption|]. intros e He. destruct (Hx2 e He) as [-> Hne].
    split; [reflexivity|]. cbn [fst] in *. lia.
  - intros [= <- <-]. split; [assumption | discriminate].
  - elim (Hx e eq_refl).
  - intros [= <- <-]. split; [assumption | discriminate].
Qed.

End Completes.

(** X21.  The exporter's [main] ends on no exception.  The service is the
    one of [Rds]: it answers a copy with the "already exists" fault when
    the target identifier is taken, and a copy, a lookup by identifier or a
    deletion with the "not found" fault when the snapshot named is
    missing.  On an account whose manual snapshots with ["recrypted"] in
    the identifier carry their creation timestamp and where an identifier
    ending in ["-recrypted"] belongs to an automated or manual snapshot, a
    call of [main] (lines 37-87), once it has its client, returns, exits,
    or is still running after the steps it was given: no subscript and no
    [format] of the script raises, and none of its requests names a
    snapshot the account lacks.  The catalog it leaves satisfies the same
    conditions. *)
Theorem exporter_ends_on_no_exception
        (steps : nat) (client : RdsClient) (cfg : Config)
        (filtered_instances : list DBInstance.t) (w : World) :
  sound "-recrypted" (catalog w) ->
  let run := Exporter.main steps client cfg filtered_instances w in
  (fst run = Ok tt \/ (exists status, fst run = Exited status) \/ fst run = Running) /\
  sound "-recrypted" (catalog (snd run)).
Proof.
  intros Hi run.
  destruct (completes_exporter_main "-recrypted" no_exception steps client cfg
              filtered_instances eq_refl w (fst run) (snd run) Hi I)
    as (H1 & _ & Hx); [apply surjective_pairing|].
  split; [|exact H1].
  destruct (fst run) as [[]|n|e|]; [now left | right; left; now exists n | | now right; right].
  elim (Hx e eq_refl).
Qed.

Lemma exporter_ends_on_no_exception_witness :
  let w := Sample.world [Sample.snap "rds:db1-a" "db1" "automated" (Some 5%Z);
                         Sample.snap "db1-old-recrypted" "db1" "manual" (Some 1%Z)] in
  let run := Exporter.main 5 Sample.steady (Sample.config 1)
               [ {| DBInstance.DBInstanceIdentifier := "db1" |} ] w in
  (fst run = Ok tt \/ (exists status, fst run = Exited status) \/ fst run = Running) /\
  sound "-recrypted" (catalog (snd run)).
Proof.
  apply exporter_ends_on_no_exception. split.
  - intros s [<-|[<-|[]]]; discriminate.
  - intros s [<-|[<-|[]]] _; [now left | now right].
Defined.

(** X22.  The importer's [main] ends on an exception only at its alert.
    With the service of [Rds] as above, on an account whose manual
    snapshots with ["recrypted"] in the identifier carry their creation
    timestamp and where an identifier ending in ["-copy"] belongs to an
    automated or manual snapshot, the only exception a call of [main]
    (lines 38-82), once it has its client, can end on is the [IndexError]
    of its run validator, and then the number of listed snapshots that pass
    the filter differs from [EXPECTED_SNAPSHOT_COUNT].  The catalog it
    leaves satisfies the same conditions. *)
Theorem importer_raises_only_at_alert
        (steps : nat) (client : RdsClient) (cfg : Config) (w : World) :
  sound "-copy" (catalog w) ->
  let run := Importer.main steps client cfg w in
  sound "-copy" (catalog (snd run)) /\
  forall e, fst run = Raised e ->
            e = IndexError /\
            Z.of_nat (length (filter Importer.is_shared_recrypted
                                     (Rds.listing client None None None true w)))
            <> EXPECTED_SNAPSHOT_COUNT cfg.
Proof.
  intros Hi run. subst run.
  apply (importer_main_ends "-copy" steps client cfg w _ _ eq_refl Hi).
  apply surjective_pairing.
Qed.

Lemma importer_raises_only_at_alert_witness :
  let w := Sample.world
             [Sample.shared_snap "db1-2024-05-01-03-10-recrypted" "db1" (Some 6%Z)] in
  let run := Importer.main 5 Sample.steady (Sample.config 4) w in
  sound "-copy" (catalog (snd run)) /\
  forall e, fst run = Raised e ->
            e = IndexError /\
            Z.of_nat (length (filter Importer.is_shared_recrypted
                                     (Rds.listing Sample.steady None None None true w)))
            <> EXPECTED_SNAPSHOT_COUNT (Sample.config 4).
Proof.
  apply importer_raises_only_at_alert. split.
  - intros s [<-|[]]; discriminate.
  - intros s [<-|[]] (front & E). exfalso.
    cbn [Sample.shared_snap DBSnapshotIdentifier] in E.
    change ("arn:aws:rds:eu-west-1:210987654321:snapshot:" ++ "db1-2024-05-01-03-10-recrypted")%string
      with ("arn:aws:rds:eu-west-1:210987654321:snapshot:db1-2024-05-01-03-10-recr" ++ "ypted")%string in E.
    apply append_inj_length in E; [discriminate | reflexivity].
Defined.
